(** * Portfolio blog: post registry, content loader and Markdown renderer

    A shallow embedding of

    - [app/lib/blogs.ts]      ([getBlogBySlug], [getAllBlogSlugs]),
    - [app/lib/markdown.ts]   ([parseMarkdown], [escapeHtml]),
    - [app/blog/[slug]/page.tsx] (the content-loading effect of
      [BlogPostPage] and the branch of the view it selects),
    - [app/api/content/[filename]/route.ts] (the [GET] handler),
    - [app/components/projects.tsx] (the paging of the carousel),

    together with the part of the JavaScript runtime these functions lean
    on: strings as sequences of UTF-16 code units, [String.prototype.trim],
    [split], [replace] with a global regular expression, and the
    backtracking matcher of ECMA-262 for the regular-expression constructs
    that occur in the source. *)

From Stdlib Require Import Ascii String.
From Stdlib Require Import List NArith ZArith Arith Bool Lia.
Import ListNotations.

Set Implicit Arguments.
Local Open Scope string_scope.
Local Open Scope list_scope.
Local Open Scope N_scope.

(** ** JavaScript strings *)

Module JS.

(** A string is a finite sequence of UTF-16 code units. *)
Definition char := N.
Definition jsstring := list char.

(** String literals of the source, read code unit by code unit. *)
Definition js (s : string) : jsstring :=
  map N_of_ascii (list_ascii_of_string s).

Definition dquote : char := 34.
Definition quoted (s : jsstring) : jsstring := dquote :: s ++ [dquote].

Definition char_eqb : char -> char -> bool := N.eqb.

Fixpoint str_eqb (a b : jsstring) : bool :=
  match a, b with
  | [], [] => true
  | x :: a', y :: b' => char_eqb x y && str_eqb a' b'
  | _, _ => false
  end.

Definition in_range (lo hi c : char) : bool := (lo <=? c) && (c <=? hi).

(** LineTerminator: LF, CR, LS, PS. *)
Definition is_line_terminator (c : char) : bool :=
  (c =? 10) || (c =? 13) || (c =? 8232) || (c =? 8233).

(** WhiteSpace or LineTerminator, the set used by both [\s] and [trim]:
    TAB, LF, VT, FF, CR, SP, NBSP, the Zs category, LS, PS and the BOM. *)
Definition is_space (c : char) : bool :=
  in_range 9 13 c || (c =? 32) || (c =? 160) || (c =? 5760)
  || in_range 8192 8202 c || (c =? 8232) || (c =? 8233) || (c =? 8239)
  || (c =? 8287) || (c =? 12288) || (c =? 65279).

(** [\w] without the [i] and [u] flags: [A-Za-z0-9_]. *)
Definition is_word (c : char) : bool :=
  in_range 97 122 c || in_range 65 90 c || in_range 48 57 c || (c =? 95).

Fixpoint drop_while (p : char -> bool) (s : jsstring) : jsstring :=
  match s with
  | [] => []
  | c :: s' => if p c then drop_while p s' else s
  end.

Definition trimStart (s : jsstring) : jsstring := drop_while is_space s.
Definition trimEnd (s : jsstring) : jsstring := rev (drop_while is_space (rev s)).
Definition trim (s : jsstring) : jsstring := trimEnd (trimStart s).

Fixpoint startsWith (s p : jsstring) {struct p} : bool :=
  match p, s with
  | [], _ => true
  | x :: p', y :: s' => char_eqb x y && startsWith s' p'
  | _ :: _, [] => false
  end.

(** [s.includes(p)]. *)
Fixpoint includes (s p : jsstring) : bool :=
  startsWith s p ||
  match s with
  | [] => false
  | _ :: s' => includes s' p
  end.

(** Number of positions of [s] at which [p] starts. *)
Fixpoint occurrences (p s : jsstring) : nat :=
  (if startsWith s p then 1 else 0) +
  match s with
  | [] => 0
  | _ :: s' => occurrences p s'
  end.

(** [s.split(sep)] for a non-empty separator: the pieces between the
    successive, non-overlapping occurrences of [sep], scanned from the
    left.  [skip] counts the code units of an occurrence still to be
    passed over; [cur] is the piece under construction, reversed. *)
Fixpoint split_go (sep : jsstring) (skip : nat) (cur : jsstring) (s : jsstring)
  : list jsstring :=
  match s with
  | [] => [rev cur]
  | c :: s' =>
      match skip with
      | S n => split_go sep n cur s'
      | O =>
          if startsWith s sep
          then rev cur :: split_go sep (pred (List.length sep)) [] s'
          else split_go sep 0 (c :: cur) s'
      end
  end.

Definition split (s sep : jsstring) : list jsstring := split_go sep 0 [] s.

(** [pieces.join(sep)]. *)
Fixpoint join (sep : jsstring) (pieces : list jsstring) : jsstring :=
  match pieces with
  | [] => []
  | [p] => p
  | p :: ps => p ++ sep ++ join sep ps
  end.

(** Truthiness of an optional string: [undefined], [null] and the empty
    string are falsy. *)
Definition truthy (v : option jsstring) : bool :=
  match v with
  | Some (_ :: _) => true
  | _ => false
  end.

(** ToString of an optional string, as in a template literal or on the
    result of a replacement function. *)
Definition text_of (v : option jsstring) : jsstring :=
  match v with
  | Some s => s
  | None => js "undefined"
  end.

End JS.
Export JS.

(** ** Regular expressions

    The backtracking matcher of ECMA-262 (22.2.2), written in
    continuation-passing style as in the standard, for the constructs the
    source uses: character classes, [^] and [$] under the [m] flag,
    concatenation, capture groups and greedy or lazy quantifiers.  No
    pattern of the source carries the [i], [s], [u] or [y] flag. *)

Module RegExp.

Inductive regex : Type :=
| Empty                                   (* the empty pattern *)
| Chars (p : char -> bool)                (* one code unit of a class *)
| Bol                                     (* ^ with the m flag *)
| Eol                                     (* $ with the m flag *)
| Cat (r1 r2 : regex)
| Group (i : nat) (r : regex)             (* the i-th capture group *)
| Repeat (min : nat) (max : option nat) (greedy : bool) (r : regex).

(** Atoms. *)
Definition Chr (c : char) : regex := Chars (char_eqb c).
Definition NotChr (c : char) : regex := Chars (fun x => negb (char_eqb c x)).
Definition Dot : regex := Chars (fun x => negb (is_line_terminator x)).
Definition Space : regex := Chars is_space.                    (* \s *)
Definition Word : regex := Chars is_word.                      (* \w *)
Definition SpaceOrNot : regex :=                               (* [\s\S] *)
  Chars (fun x => is_space x || negb (is_space x)).

Fixpoint Lit (s : jsstring) : regex :=
  match s with
  | [] => Empty
  | [c] => Chr c
  | c :: s' => Cat (Chr c) (Lit s')
  end.

(** Quantifiers. *)
Definition Star (r : regex) : regex := Repeat 0 None true r.       (* r*  *)
Definition LazyStar (r : regex) : regex := Repeat 0 None false r.  (* r*? *)
Definition Plus (r : regex) : regex := Repeat 1 None true r.       (* r+  *)
Definition Opt (r : regex) : regex := Repeat 0 (Some 1%nat) true r. (* r? *)

Fixpoint Seq (rs : list regex) : regex :=
  match rs with
  | [] => Empty
  | [r] => r
  | r :: rs' => Cat r (Seq rs')
  end.

(** The matcher state at a position of the input: the code unit just
    before the position (none at index 0), the input from the position on,
    and the captures, where [None] is [undefined]. *)
Record mstate : Type := MState {
  prev : option char;
  rest : jsstring;
  caps : list (option jsstring)
}.

Definition continuation := mstate -> option mstate.

Fixpoint set_cap (i : nat) (v : option jsstring) (cs : list (option jsstring))
  : list (option jsstring) :=
  match i, cs with
  | O, _ => cs
  | S O, _ :: cs' => v :: cs'
  | S O, [] => [v]
  | S i', c :: cs' => c :: set_cap i' v cs'
  | S i', [] => None :: set_cap i' v []
  end.

Definition get_cap (i : nat) (cs : list (option jsstring)) : option jsstring :=
  match i with
  | O => None
  | S i' => nth i' cs None
  end.

(** The capture groups that occur in a pattern. *)
Fixpoint groups_of (r : regex) : list nat :=
  match r with
  | Cat r1 r2 => groups_of r1 ++ groups_of r2
  | Group i r' => i :: groups_of r'
  | Repeat _ _ _ r' => groups_of r'
  | _ => []
  end.

Definition clear_caps (gs : list nat) (cs : list (option jsstring))
  : list (option jsstring) :=
  fold_left (fun acc i => set_cap i None acc) gs cs.

(** The code units between two states of one match, the second further
    into the input. *)
Definition consumed (x y : mstate) : jsstring :=
  firstn (List.length (rest x) - List.length (rest y)) (rest x).

Definition last_of (p : option char) (s : jsstring) : option char :=
  match rev s with
  | [] => p
  | c :: _ => Some c
  end.

(** RepeatMatcher (22.2.2.3.1).  [m] is the matcher of the quantified
    atom, [gs] its capture groups.  An iteration that matches the empty
    string once [min] is reached is rejected, so every further iteration
    consumes input and [fuel] bounds their number. *)
Fixpoint repeat_matcher (m : mstate -> continuation -> option mstate)
    (gs : list nat) (greedy : bool) (fuel : nat)
    (min : nat) (max : option nat) (x : mstate) (c : continuation)
    {struct fuel} : option mstate :=
  match fuel with
  | O => None
  | S fuel' =>
      match max with
      | Some O => c x
      | _ =>
          let d : continuation := fun y =>
            if Nat.eqb min 0 && Nat.eqb (List.length (rest y)) (List.length (rest x))
            then None
            else repeat_matcher m gs greedy fuel' (Nat.pred min)
                   (option_map Nat.pred max) y c in
          let xr := MState (prev x) (rest x) (clear_caps gs (caps x)) in
          if negb (Nat.eqb min 0) then m xr d
          else if greedy then
            match m xr d with
            | Some z => Some z
            | None => c x
            end
          else
            match c x with
            | Some z => Some z
            | None => m xr d
            end
      end
  end.

(** CompileSubpattern: the matcher of a pattern. *)
Fixpoint matcher (r : regex) (x : mstate) (c : continuation) {struct r}
  : option mstate :=
  match r with
  | Empty => c x
  | Chars p =>
      match rest x with
      | [] => None
      | ch :: s' => if p ch then c (MState (Some ch) s' (caps x)) else None
      end
  | Bol =>
      match prev x with
      | None => c x
      | Some ch => if is_line_terminator ch then c x else None
      end
  | Eol =>
      match rest x with
      | [] => c x
      | ch :: _ => if is_line_terminator ch then c x else None
      end
  | Cat r1 r2 => matcher r1 x (fun y => matcher r2 y c)
  | Group i r' =>
      matcher r' x (fun y =>
        c (MState (prev y) (rest y) (set_cap i (Some (consumed x y)) (caps y))))
  | Repeat min max greedy r' =>
      repeat_matcher (matcher r') (groups_of r') greedy
        (S (min + List.length (rest x))) min max x c
  end.

(** One attempt at one position: the state after the match, if any. *)
Definition match_at (r : regex) (p : option char) (s : jsstring) : option mstate :=
  matcher r (MState p s (clear_caps (groups_of r) [])) (fun y => Some y).

(** Replacement values: a template in which [$$], [$&] and [$n] are
    substituted (GetSubstitution, 22.1.3.19.1), or a function of the
    matched text and the captures. *)
Inductive replacement : Type :=
| Template (t : jsstring)
| Callback (f : jsstring -> list (option jsstring) -> jsstring).

Definition digit_of (c : char) : option nat :=
  if in_range 48 57 c then Some (N.to_nat (c - 48)) else None.

Definition cap_text (i : nat) (cs : list (option jsstring)) : jsstring :=
  match get_cap i cs with
  | Some s => s
  | None => []
  end.

(** [ngroups] is the number of capture groups of the pattern; a [$n]
    beyond it stays as written.  The templates of the source use none of
    the remaining forms (the text before or after the match, named
    groups), which are left as written here. *)
Fixpoint substitute (ngroups : nat) (matched : jsstring)
    (cs : list (option jsstring)) (t : jsstring) {struct t} : jsstring :=
  match t with
  | [] => []
  | 36 :: t1 =>
      match t1 with
      | 36 :: t2 => 36 :: substitute ngroups matched cs t2
      | 38 :: t2 => matched ++ substitute ngroups matched cs t2
      | d1 :: t2 =>
          match digit_of d1 with
          | None => 36 :: substitute ngroups matched cs t1
          | Some n1 =>
              let one :=
                if (Nat.leb 1 n1 && Nat.leb n1 ngroups)%bool
                then cap_text n1 cs ++ substitute ngroups matched cs t2
                else 36 :: substitute ngroups matched cs t1 in
              match t2 with
              | d2 :: t3 =>
                  match digit_of d2 with
                  | Some n2 =>
                      let n := (10 * n1 + n2)%nat in
                      if (Nat.leb 1 n && Nat.leb n ngroups)%bool
                      then cap_text n cs ++ substitute ngroups matched cs t3
                      else one
                  | None => one
                  end
              | [] => one
              end
          end
      | [] => [36]
      end
  | ch :: t1 => ch :: substitute ngroups matched cs t1
  end.

Definition replacement_text (r : regex) (rep : replacement)
    (matched : jsstring) (cs : list (option jsstring)) : jsstring :=
  match rep with
  | Template t => substitute (List.length (groups_of r)) matched cs t
  | Callback f => f matched cs
  end.

(** [s.replace(re, rep)] for a pattern with the [g] flag.  The scan moves
    through the input from the left; where the pattern matches, the
    replacement is emitted and the scan resumes after the match (one code
    unit further when the match is empty); elsewhere the code unit is
    copied.  [skip] counts the code units of the last match still to be
    passed over. *)
Fixpoint replace_go (r : regex) (rep : replacement)
    (p : option char) (skip : nat) (s : jsstring) {struct s} : jsstring :=
  match skip with
  | S n =>
      match s with
      | [] => []
      | ch :: s' => replace_go r rep (Some ch) n s'
      end
  | O =>
      match match_at r p s with
      | Some y =>
          let matched := firstn (List.length s - List.length (rest y)) s in
          replacement_text r rep matched (caps y) ++
          match s with
          | [] => []
          | ch :: s' =>
              match List.length matched with
              | O => ch :: replace_go r rep (Some ch) 0 s'
              | S n => replace_go r rep (Some ch) n s'
              end
          end
      | None =>
          match s with
          | [] => []
          | ch :: s' => ch :: replace_go r rep (Some ch) 0 s'
          end
      end
  end.

Definition replace (s : jsstring) (r : regex) (rep : replacement) : jsstring :=
  replace_go r rep None 0 s.

End RegExp.
Export RegExp.

(** ** app/lib/markdown.ts *)

Module Markdown.

(** [escapeHtml].  The pattern is the class of the ampersand, the two
    angle brackets, the double quote and the apostrophe, with flag [g];
    [entity] is the object [map], read at the matched text. *)
Definition escape_re : regex :=
  Chars (fun c => (c =? 38) || (c =? 60) || (c =? 62) || (c =? 34) || (c =? 39)).

Definition entity (m : jsstring) : option jsstring :=
  if str_eqb m (js "&") then Some (js "&amp;")
  else if str_eqb m (js "<") then Some (js "&lt;")
  else if str_eqb m (js ">") then Some (js "&gt;")
  else if str_eqb m [dquote] then Some (js "&quot;")
  else if str_eqb m (js "'") then Some (js "&#039;")
  else None.

Definition escapeHtml (text : jsstring) : jsstring :=
  replace text escape_re (Callback (fun m _ => text_of (entity m))).

Definition backtick : char := 96.
Definition newline : char := 10.
Definition asterisk : char := 42.

(** The pattern of the first pass: three backticks, an optional group 1
    of one or more [\w], a line feed, group 2 of [[\s\S]] repeated lazily,
    three backticks; flag [g]. *)
Definition fence_re : regex :=
  Seq [Lit (js "```"); Opt (Group 1 (Plus Word)); Chr newline;
       Group 2 (LazyStar SpaceOrNot); Lit (js "```")].

(** [lang || "typescript"] *)
Definition lang_or_default (lang : option jsstring) : jsstring :=
  if truthy lang then match lang with Some l => l | None => [] end
  else js "typescript".

Definition pre_open : jsstring :=
  js "<pre class=" ++
  quoted (js "bg-gray-900 text-gray-100 p-4 rounded-lg overflow-x-auto my-4") ++
  js "><code class=".

Definition pre_close : jsstring := js "</code></pre>".

(** The element the callback of the first pass returns. *)
Definition code_block (lang : option jsstring) (code : jsstring) : jsstring :=
  pre_open ++ quoted (js "language-" ++ lang_or_default lang) ++ js ">" ++
  escapeHtml (trim code) ++ pre_close.

Definition fence_callback (matched : jsstring) (cs : list (option jsstring))
  : jsstring :=
  code_block (get_cap 1 cs) (cap_text 2 cs).

(** A backtick, group 1 of one or more code units other than a backtick,
    a backtick; flag [g]. *)
Definition inline_re : regex :=
  Seq [Chr backtick; Group 1 (Plus (NotChr backtick)); Chr backtick].

Definition inline_open : jsstring :=
  js "<code class=" ++
  quoted (js "px-2 py-1 bg-gray-100 dark:bg-gray-800 rounded text-sm") ++ js ">".

Definition inline_template : jsstring := inline_open ++ js "$1</code>".

(** [^], the marks followed by a space, group 1 of any number of [.],
    [$]; flags [gm].  The marks are [###], [##] and [#]. *)
Definition header_re (marks : jsstring) : regex :=
  Seq [Bol; Lit marks; Group 1 (Star Dot); Eol].

Definition h3_template : jsstring :=
  js "<h3 id=" ++ quoted (js "$1") ++ js " class=" ++
  quoted (js "text-2xl font-bold mt-8 mb-4") ++ js ">$1</h3>".

Definition h2_template : jsstring :=
  js "<h2 id=" ++ quoted (js "$1") ++ js " class=" ++
  quoted (js "text-3xl font-bold mt-12 mb-6") ++ js ">$1</h2>".

Definition h1_template : jsstring :=
  js "<h1 class=" ++ quoted (js "text-4xl font-bold mt-8 mb-6") ++ js ">$1</h1>".

(** Two asterisks, group 1 of one or more code units other than an
    asterisk, two asterisks; flag [g]. *)
Definition bold_re : regex :=
  Seq [Lit (js "**"); Group 1 (Plus (NotChr asterisk)); Lit (js "**")].

Definition bold_template : jsstring :=
  js "<strong class=" ++ quoted (js "font-bold") ++ js ">$1</strong>".

(** [^], a hyphen and a space, group 1 of any number of [.], [$];
    flags [gm]. *)
Definition item_re : regex := Seq [Bol; Lit (js "- "); Group 1 (Star Dot); Eol].

Definition item_template : jsstring :=
  js "<li class=" ++ quoted (js "ml-4") ++ js ">$1</li>".

(** One or more times group 1 of: [<li], any number of [.], [</li>], any
    number of [\s]; flag [g]. *)
Definition list_re : regex :=
  Plus (Group 1 (Seq [Lit (js "<li"); Star Dot; Lit (js "</li>"); Star Space])).

Definition list_template : jsstring :=
  js "<ul class=" ++ quoted (js "list-disc list-inside space-y-2 my-4") ++
  js ">$&</ul>".

(** The callback of [map] in the paragraph pass. *)
Definition paragraph (para : jsstring) : jsstring :=
  if startsWith (trim para) (js "<") then para
  else if str_eqb (trim para) [] then []
  else js "<div class=" ++ quoted (js "mb-4 leading-relaxed") ++ js ">" ++
       para ++ js "</div>".

(** The passes, in the order of the source. *)
Definition codeBlocks (html : jsstring) : jsstring :=
  replace html fence_re (Callback fence_callback).
Definition inlineCode (html : jsstring) : jsstring :=
  replace html inline_re (Template inline_template).
Definition header3 (html : jsstring) : jsstring :=
  replace html (header_re (js "### ")) (Template h3_template).
Definition header2 (html : jsstring) : jsstring :=
  replace html (header_re (js "## ")) (Template h2_template).
Definition header1 (html : jsstring) : jsstring :=
  replace html (header_re (js "# ")) (Template h1_template).
Definition headers (html : jsstring) : jsstring :=
  header1 (header2 (header3 html)).
Definition bold (html : jsstring) : jsstring :=
  replace html bold_re (Template bold_template).
Definition listItems (html : jsstring) : jsstring :=
  replace html item_re (Template item_template).
Definition listWrap (html : jsstring) : jsstring :=
  replace html list_re (Template list_template).
Definition lists (html : jsstring) : jsstring := listWrap (listItems html).
Definition paragraphs (html : jsstring) : jsstring :=
  join [newline] (map paragraph (split html [newline; newline])).

(** Everything after the fenced-code pass. *)
Definition afterCodeBlocks (html : jsstring) : jsstring :=
  paragraphs (lists (bold (headers (inlineCode html)))).

Definition parseMarkdown (markdown : jsstring) : jsstring :=
  match markdown with
  | [] => []
  | _ => afterCodeBlocks (codeBlocks markdown)
  end.

End Markdown.
Export Markdown.

(** ** app/lib/blogs.ts *)

Module Blog.

(** [interface Blog].  [content] and [contentFile] are optional. *)
Record t : Type := Make {
  id : jsstring;
  title : jsstring;
  description : jsstring;
  category : jsstring;
  readTime : jsstring;
  date : jsstring;
  views : jsstring;
  comments : Z;
  tags : list jsstring;
  slug : jsstring;
  content : option jsstring;
  contentFile : option jsstring
}.

End Blog.

Section Registry.

(** The array read from [data/blogs.json], the static data source. *)
Variable blogs : list Blog.t.

(** [blogs.find((blog) => blog.slug === slug)]: the first element that
    satisfies the predicate, [undefined] when there is none. *)
Definition getBlogBySlug (slug : jsstring) : option Blog.t :=
  find (fun blog => str_eqb (Blog.slug blog) slug) blogs.

Definition getAllBlogSlugs : list jsstring := map Blog.slug blogs.

End Registry.

(** ** HTTP responses with a JSON body *)

Module Http.

(** The values [res.json()] can resolve to, as far as the loader looks at
    them: [null], or an object with string-valued fields. *)
Inductive json : Type :=
| JsonNull
| JsonObject (fields : list (jsstring * jsstring)).

Inductive body : Type :=
| Malformed                 (* not JSON: [res.json()] rejects *)
| Json (data : json).

Record response : Type := Response {
  status : nat;
  payload : body
}.

Fixpoint field (name : jsstring) (fields : list (jsstring * jsstring))
  : option jsstring :=
  match fields with
  | [] => None
  | (k, v) :: fields' => if str_eqb k name then Some v else field name fields'
  end.

End Http.
Export Http.

(** ** app/api/content/[filename]/route.ts *)

Module Route.

(** [path.join] of Node on POSIX: the non-empty arguments are joined with
    a slash and the result is normalized: empty and [.] segments are
    dropped, a [..] segment removes the segment before it, or is kept when
    there is none and the path is relative. *)
Definition slash : char := 47.

Definition dotdot : jsstring := js "..".

Fixpoint normalize_segments (allowAboveRoot : bool) (stack : list jsstring)
    (segs : list jsstring) : list jsstring :=
  match segs with
  | [] => rev stack
  | seg :: segs' =>
      if str_eqb seg [] || str_eqb seg (js ".") then
        normalize_segments allowAboveRoot stack segs'
      else if str_eqb seg dotdot then
        match stack with
        | top :: stack' =>
            if str_eqb top dotdot
            then normalize_segments allowAboveRoot
                   (if allowAboveRoot then dotdot :: stack else stack) segs'
            else normalize_segments allowAboveRoot stack' segs'
        | [] =>
            normalize_segments allowAboveRoot
              (if allowAboveRoot then [dotdot] else []) segs'
        end
      else normalize_segments allowAboveRoot (seg :: stack) segs'
  end.

Definition normalize (path : jsstring) : jsstring :=
  match path with
  | [] => js "."
  | _ =>
      let isAbsolute := startsWith path [slash] in
      let trailingSeparator := startsWith (rev path) [slash] in
      let p := join [slash]
                 (normalize_segments (negb isAbsolute) [] (split path [slash])) in
      match p with
      | [] => if isAbsolute then [slash]
              else if trailingSeparator then js "./" else js "."
      | _ => (if isAbsolute then [slash] else []) ++ p ++
             (if trailingSeparator then [slash] else [])
      end
  end.

Definition path_join (args : list jsstring) : jsstring :=
  match filter (fun a => negb (str_eqb a [])) args with
  | [] => js "."
  | parts => normalize (join [slash] parts)
  end.

Section Handler.

(** [process.cwd()] and the file system as [fs.readFile(path, "utf-8")]
    sees it: the text of the file, or [None] when the read rejects. *)
Variable cwd : jsstring.
Variable readFile : jsstring -> option jsstring.

Definition filePath (filename : jsstring) : jsstring :=
  path_join [cwd; js "app"; js "data"; js "content"; filename].

(** The directory the handler serves from. *)
Definition contentDir : jsstring :=
  path_join [cwd; js "app"; js "data"; js "content"].

Definition GET (filename : jsstring) : response :=
  match readFile (filePath filename) with
  | Some content => Response 200 (Json (JsonObject [(js "content", content)]))
  | None =>
      Response 404 (Json (JsonObject [(js "error", js "Content not found")]))
  end.

End Handler.

End Route.

(** ** app/blog/[slug]/page.tsx *)

Module Page.

(** The two [useState] cells of [BlogPostPage]. *)
Record state : Type := State {
  content : option jsstring;
  loading : bool
}.

Definition initial : state := State None true.

Definition setContent (v : option jsstring) (st : state) : state :=
  State v (loading st).
Definition setLoading (v : bool) (st : state) : state :=
  State (content st) v.

(** What a promise of the chain can reject with. *)
Inductive error : Type :=
| NetworkError                (* [fetch] rejects *)
| SyntaxError                 (* [res.json()] rejects *)
| TypeError.                  (* a property of [null] is read *)

Inductive fetch_result : Type :=
| Rejected (e : error)
| Fulfilled (res : response).

(** What the effect does to the outside. *)
Inductive event : Type :=
| Fetch (url : jsstring)
| ConsoleError (message : jsstring) (e : error).

(** [value || null] *)
Definition or_null (v : option jsstring) : option jsstring :=
  if truthy v then v else None.

(** Optional chaining. *)
Definition chain {A : Type} (blog : option Blog.t) (f : Blog.t -> option A)
  : option A :=
  match blog with
  | Some b => f b
  | None => None
  end.

(** The address of the request for a content file. *)
Definition content_url (file : jsstring) : jsstring :=
  js "/api/content/" ++ file.
Arguments content_url : simpl never.

(** The synchronous part of the effect: the new state, what was emitted,
    and the request left pending, if one was issued. *)
Definition effect_start (blog : option Blog.t) (st : state)
  : state * list event * option jsstring :=
  if truthy (chain blog Blog.contentFile) then
    let url := content_url (text_of (chain blog Blog.contentFile)) in
    (st, [Fetch url], Some url)
  else
    (setLoading false (setContent (or_null (chain blog Blog.content)) st),
     [], None).

(** The handler of [.catch]. *)
Definition on_catch (e : error) (st : state) : state * list event :=
  (setLoading false st, [ConsoleError (js "Error loading content:") e]).

(** The promise chain once the request settles. *)
Definition on_settled (r : fetch_result) (st : state) : state * list event :=
  match r with
  | Rejected e => on_catch e st
  | Fulfilled res =>
      match payload res with
      | Malformed => on_catch SyntaxError st
      | Json JsonNull => on_catch TypeError st
      | Json (JsonObject fields) =>
          (setLoading false (setContent (field (js "content") fields) st), [])
      end
  end.

(** One run of the effect against a network that answers each request. *)
Definition useEffect (net : jsstring -> fetch_result) (blog : option Blog.t)
    (st : state) : state * list event :=
  match effect_start blog st with
  | (st1, evs, Some url) =>
      let (st2, evs') := on_settled (net url) st1 in (st2, evs ++ evs')
  | (st1, evs, None) => (st1, evs)
  end.

(** The branch of the returned tree. *)
Inductive view : Type :=
| NotFound                    (* "Blog Post Not Found" *)
| Spinner
| Article (html : jsstring)   (* [dangerouslySetInnerHTML] *)
| ComingSoon.

Definition render (blog : option Blog.t) (st : state) : view :=
  match blog with
  | None => NotFound
  | Some _ =>
      if loading st then Spinner
      else if truthy (content st) then Article (parseMarkdown (text_of (content st)))
      else ComingSoon
  end.

Definition fetches (evs : list event) : list jsstring :=
  flat_map (fun e => match e with Fetch url => [url] | _ => [] end) evs.

Definition logged (evs : list event) : list error :=
  flat_map (fun e => match e with ConsoleError _ err => [err] | _ => [] end) evs.

End Page.

(** ** app/components/projects.tsx *)

Module Carousel.

Local Open Scope Z_scope.

(** The numbers the component computes with: integers, and [NaN], which
    the remainder by zero produces.  All of them stay far below 2^53,
    where the arithmetic of JavaScript is exact. *)
Inductive number : Type :=
| NaN
| Int (z : Z).

Definition add (a b : number) : number :=
  match a, b with
  | Int x, Int y => Int (x + y)
  | _, _ => NaN
  end.

Definition sub (a b : number) : number :=
  match a, b with
  | Int x, Int y => Int (x - y)
  | _, _ => NaN
  end.

Definition mul (a b : number) : number :=
  match a, b with
  | Int x, Int y => Int (x * y)
  | _, _ => NaN
  end.

(** [a % b]: the remainder has the sign of the dividend, and is [NaN]
    when the divisor is zero. *)
Definition rem (a b : number) : number :=
  match a, b with
  | Int x, Int y => if y =? 0 then NaN else Int (Z.rem x y)
  | _, _ => NaN
  end.

(** [Math.min(a, b)] *)
Definition min (a b : number) : number :=
  match a, b with
  | Int x, Int y => Int (Z.min x y)
  | _, _ => NaN
  end.

(** [Math.ceil(a / b)] for integers [a] and [b], [b] not zero: the
    least integer not below the quotient. *)
Definition ceil_div (a b : Z) : Z := - ((- a) / b).

(** ToIntegerOrInfinity, on these numbers. *)
Definition to_integer (n : number) : Z :=
  match n with
  | NaN => 0
  | Int z => z
  end.

(** [array.slice(start, end)]: a negative index counts from the end, and
    both indices are clamped to the array. *)
Definition slice {A : Type} (l : list A) (start finish : number) : list A :=
  let len := Z.of_nat (List.length l) in
  let relative := fun i => if i <? 0 then Z.max (len + i) 0 else Z.min i len in
  let k := relative (to_integer start) in
  let final := relative (to_integer finish) in
  firstn (Z.to_nat (Z.max (final - k) 0)) (skipn (Z.to_nat k) l).

(** [Array.from({ length: n })] mapped to its indices. *)
Definition indices (n : number) : list number :=
  map (fun i => Int (Z.of_nat i)) (seq 0 (Z.to_nat (to_integer n))).

Section Projects.

Variable blogs : list Blog.t.

(** [blogs.length] *)
Definition length_of : number := Int (Z.of_nat (List.length blogs)).

Definition blogsPerPage : number := Int 4.

Definition totalPages : number :=
  Int (ceil_div (to_integer length_of) (to_integer blogsPerPage)).

(** [useState(0)] *)
Definition firstPage : number := Int 0.

Definition currentBlogs (currentPage : number) : list Blog.t :=
  slice blogs (mul currentPage blogsPerPage)
    (mul (add currentPage (Int 1)) blogsPerPage).

(** The updaters that [nextPage] and [prevPage] hand to [setCurrentPage]. *)
Definition nextPage (prev : number) : number :=
  rem (add prev (Int 1)) totalPages.

Definition prevPage (prev : number) : number :=
  rem (add (sub prev (Int 1)) totalPages) totalPages.

(** The two numbers of the line "Showing a-b of n articles". *)
Definition showingFrom (currentPage : number) : number :=
  add (mul currentPage blogsPerPage) (Int 1).

Definition showingTo (currentPage : number) : number :=
  min (mul (add currentPage (Int 1)) blogsPerPage) length_of.

(** The pages the pagination dots set. *)
Definition dots : list number := indices totalPages.

End Projects.

End Carousel.

(** * The vocabulary of the properties *)

Import Page.

(** ** Sample data *)

(** A record of the registry with the given slug and body fields. *)
Definition post (slug : string) (content contentFile : option jsstring)
  : Blog.t :=
  Blog.Make (js "1") (js "A") (js "about A") (js "Testing") (js "5 min read")
    (js "Jan 1, 2026") (js "1.2k") 3 [js "react"] (js slug) content contentFile.

(** A network on which every request is rejected. *)
Definition offline : jsstring -> fetch_result := fun _ => Rejected NetworkError.

(** A network that answers every request as the endpoint does for a file
    with the given text. *)
Definition serves (text : jsstring) : jsstring -> fetch_result :=
  fun _ => Fulfilled (Response 200 (Json (JsonObject [(js "content", text)]))).

(** A file system without files, and one with the registry file only. *)
Definition empty_disk : jsstring -> option jsstring := fun _ => None.

Definition disk_with_registry (path : jsstring) : option jsstring :=
  if str_eqb path (js "/srv/portfolio/app/data/blogs.json")
  then Some (js "[]") else None.

(** ** The matcher *)

(** The pattern has no [^]. *)
Fixpoint no_bol (r : regex) : bool :=
  match r with
  | Bol => false
  | Cat r1 r2 => no_bol r1 && no_bol r2
  | Group _ r' => no_bol r'
  | Repeat _ _ _ r' => no_bol r'
  | _ => true
  end.

(** Two states, or two results, that differ at most in the code unit
    before the position. *)
Definition same_tail (x y : mstate) : Prop :=
  rest x = rest y /\ caps x = caps y.

Definition same_result (a b : option mstate) : Prop :=
  match a, b with
  | Some x, Some y => same_tail x y
  | None, None => True
  | _, _ => False
  end.

(** A matcher that maps such states and continuations to such results. *)
Definition respects (m : mstate -> continuation -> option mstate) : Prop :=
  forall x x' (c c' : continuation),
    same_tail x x' ->
    (forall y y', same_tail y y' -> same_result (c y) (c' y')) ->
    same_result (m x c) (m x' c').

(** A matcher that calls its continuation only at or after its own
    position. *)
Definition forward (m : mstate -> continuation -> option mstate) : Prop :=
  forall x (c c' : continuation),
    (forall y, (List.length (rest y) <= List.length (rest x))%nat -> c y = c' y) ->
    m x c = m x c'.

(** ** Markdown texts *)

Definition fence : jsstring := js "```".

(** The language tag as group 1 records it: [undefined] when there is
    no tag. *)
Definition lang_of (tag : jsstring) : option jsstring :=
  match tag with
  | [] => None
  | _ => Some tag
  end.

(** No run of three backticks starts inside [body], also counting the
    backticks of the closing fence: the closing fence is the first one
    after the opening line. *)
Fixpoint closes_first (body : jsstring) : bool :=
  match body with
  | [] => true
  | _ :: body' => negb (startsWith (body ++ fence) fence) && closes_first body'
  end.

(** A block as the pattern of the first pass reads it. *)
Definition fenced (tag body : jsstring) : jsstring :=
  fence ++ tag ++ newline :: body ++ fence.

Definition not_backtick (c : char) : bool := negb (char_eqb c backtick).

(** The first code unit of a string, if any, is not white space. *)
Definition starts_black (s : jsstring) : Prop :=
  match s with
  | [] => True
  | c :: _ => is_space c = false
  end.

(** What [escapeHtml] does to one code unit. *)
Definition escape_char (c : char) : jsstring :=
  if c =? 38 then js "&amp;"
  else if c =? 60 then js "&lt;"
  else if c =? 62 then js "&gt;"
  else if c =? 34 then js "&quot;"
  else if c =? 39 then js "&#039;"
  else [c].

(** Angle brackets and quotes. *)
Definition is_markup (c : char) : bool :=
  (c =? 60) || (c =? 62) || (c =? 34) || (c =? 39).

(** A position is at the start of a line when nothing or a line
    terminator comes before it. *)
Definition at_bol (p : option char) : bool :=
  match p with
  | None => true
  | Some c => is_line_terminator c
  end.

Definition not_asterisk (c : char) : bool := negb (char_eqb c asterisk).

(** No line of [s] starts with [marks]; [p] is the code unit before [s]. *)
Fixpoint no_line_starts (marks : jsstring) (p : option char) (s : jsstring)
  : bool :=
  negb (at_bol p && startsWith s marks) &&
  match s with
  | [] => true
  | c :: s' => no_line_starts marks (Some c) s'
  end.

(** The conditions under which no pass after the first finds anything to
    rewrite in [html]. *)
Definition inert (html : jsstring) : bool :=
  forallb not_backtick html && forallb not_asterisk html &&
  no_line_starts (js "### ") None html && no_line_starts (js "## ") None html &&
  no_line_starts (js "# ") None html && no_line_starts (js "- ") None html &&
  negb (includes html (js "<li")) &&
  negb (includes html [newline; newline]) &&
  startsWith (trim html) (js "<").

(** Lines joined by line feeds. *)
Definition lines (ls : list string) : jsstring := join [newline] (map js ls).

(** Elements as the templates of the source spell them. *)
Definition h2_element (text : string) : jsstring :=
  js "<h2 id=" ++ quoted (js text) ++ js " class=" ++
  quoted (js "text-3xl font-bold mt-12 mb-6") ++ js ">" ++ js text ++ js "</h2>".

Definition h1_element (text : string) : jsstring :=
  js "<h1 class=" ++ quoted (js "text-4xl font-bold mt-8 mb-6") ++ js ">" ++
  js text ++ js "</h1>".

Definition li_element (text : string) : jsstring :=
  js "<li class=" ++ quoted (js "ml-4") ++ js ">" ++ js text ++ js "</li>".

Definition ul_open : jsstring :=
  js "<ul class=" ++ quoted (js "list-disc list-inside space-y-2 my-4") ++ js ">".

(** ** The carousel *)

(** A page the carousel can show: an integer from 0 up to, and not
    including, [totalPages]. *)
Definition valid_page (blogs : list Blog.t) (p : Carousel.number) : Prop :=
  exists z, p = Carousel.Int z /\
            (0 <= z < Carousel.to_integer (Carousel.totalPages blogs))%Z.

(** A file system with one post in the content directory. *)
Definition disk_with_post (path : jsstring) : option jsstring :=
  if str_eqb path (js "/srv/portfolio/app/data/content/post.md")
  then Some (js "# Title") else None.

(** ** Paths *)

(** The code unit [c] does not occur in [s]. *)
Definition lacks (c : char) (s : jsstring) : bool :=
  forallb (fun x => negb (char_eqb x c)) s.

(** A path segment that is a name: not empty, without a slash, and
    neither [.] nor [..]. *)
Definition plain_segment (s : jsstring) : bool :=
  negb (str_eqb s []) && lacks Route.slash s &&
  negb (str_eqb s (js ".")) && negb (str_eqb s Route.dotdot).

(** The absolute path with the given segments. *)
Definition absolute (segs : list jsstring) : jsstring :=
  Route.slash :: join [Route.slash] segs.

(** ** Plain texts *)

Definition not_line_terminator (c : char) : bool := negb (is_line_terminator c).

(** One of the five characters [escapeHtml] replaces. *)
Definition is_special (c : char) : bool :=
  (c =? 38) || (c =? 60) || (c =? 62) || (c =? 34) || (c =? 39).

(** The four marks a line can start with. *)
Definition line_marks : list jsstring :=
  [js "### "; js "## "; js "# "; js "- "].

(** A line of plain text: no line terminator, backtick, asterisk or
    opening angle bracket, something other than white space, and none of
    the four marks at its start. *)
Definition plain_line (p : jsstring) : bool :=
  forallb not_line_terminator p && lacks backtick p && lacks asterisk p &&
  lacks 60 p && negb (str_eqb (trim p) []) &&
  forallb (fun marks => negb (startsWith p marks)) line_marks.

(** The wrapper of the paragraph pass. *)
Definition div_element (p : jsstring) : jsstring :=
  js "<div class=" ++ quoted (js "mb-4 leading-relaxed") ++ js ">" ++
  p ++ js "</div>".

(** Text without line terminators, backticks, asterisks and opening
    angle brackets. *)
Definition plain_text (t : jsstring) : bool :=
  forallb not_line_terminator t && lacks backtick t && lacks asterisk t &&
  lacks 60 t.

(** The elements of the templates, with [t] for the text of group 1. *)
Definition h3_of (t : jsstring) : jsstring :=
  js "<h3 id=" ++ quoted t ++ js " class=" ++
  quoted (js "text-2xl font-bold mt-8 mb-4") ++ js ">" ++ t ++ js "</h3>".

Definition h2_of (t : jsstring) : jsstring :=
  js "<h2 id=" ++ quoted t ++ js " class=" ++
  quoted (js "text-3xl font-bold mt-12 mb-6") ++ js ">" ++ t ++ js "</h2>".

Definition h1_of (t : jsstring) : jsstring :=
  js "<h1 class=" ++ quoted (js "text-4xl font-bold mt-8 mb-6") ++ js ">" ++
  t ++ js "</h1>".

Definition li_of (t : jsstring) : jsstring :=
  js "<li class=" ++ quoted (js "ml-4") ++ js ">" ++ t ++ js "</li>".

Definition strong_of (t : jsstring) : jsstring :=
  js "<strong class=" ++ quoted (js "font-bold") ++ js ">" ++ t ++
  js "</strong>".

(** What a line pass makes of one line: the element around what follows
    the marks, or the line as it is. *)
Definition line_pass (marks : jsstring) (element : jsstring -> jsstring)
    (l : jsstring) : jsstring :=
  if startsWith l marks then element (skipn (List.length marks) l) else l.

(** The text of a list item: on one line, without backticks and
    asterisks. *)
Definition item_text (t : jsstring) : bool :=
  forallb not_line_terminator t && lacks backtick t && lacks asterisk t.

(** A list item as written. *)
Definition item_line (t : jsstring) : jsstring := js "- " ++ t.

(** ** What a pattern can match *)

(** Any number of pieces, each in [L], one after the other.  A piece is
    read after the code unit [p] and before the text [f]. *)
Inductive star (L : option char -> jsstring -> jsstring -> Prop)
  : option char -> jsstring -> jsstring -> Prop :=
| star_nil p f : star L p [] f
| star_cons p m1 m2 f :
    L p m1 (m2 ++ f) -> star L (last_of p m1) m2 f -> star L p (m1 ++ m2) f.

(** The texts [m] a pattern can match after [p] and before [f], without
    regard to the bounds and the greed of its quantifiers. *)
Fixpoint lang (r : regex) : option char -> jsstring -> jsstring -> Prop :=
  match r with
  | Empty => fun _ m _ => m = []
  | Chars pc => fun _ m _ => exists c, m = [c] /\ pc c = true
  | Bol => fun p m _ => m = [] /\ at_bol p = true
  | Eol => fun _ m f =>
      m = [] /\ match f with [] => True | c :: _ => is_line_terminator c = true end
  | Cat r1 r2 => fun p m f =>
      exists m1 m2,
        m = m1 ++ m2 /\ lang r1 p m1 (m2 ++ f) /\ lang r2 (last_of p m1) m2 f
  | Group _ r' => lang r'
  | Repeat _ _ _ r' => star (lang r')
  end.

(** ** Segments the passes leave whole *)

(** The pattern matches nowhere that does not start with [lit]. *)
Definition begins (r : regex) (lit : jsstring) : Prop :=
  forall p s, startsWith s lit = false -> match_at r p s = None.

(** [pat] starts at no position of [X], whatever comes after [X ++ Y]. *)
Definition nowhere (pat X Y : jsstring) : Prop :=
  forall e1 e2 v, X = e1 ++ e2 -> e2 <> [] ->
    startsWith (e2 ++ Y ++ v) pat = false.

(** No position of [X] is the start of a line with [marks], when [X]
    comes after the code unit [p] and before [Y]. *)
Definition calm (marks : jsstring) (p : option char) (X Y : jsstring) : Prop :=
  forall e1 e2 v, X = e1 ++ e2 -> e2 <> [] ->
    at_bol (last_of p e1) = false \/ startsWith (e2 ++ Y ++ v) marks = false.

(** [s], followed by some text, can start with [pat]. *)
Fixpoint agrees (s pat : jsstring) : bool :=
  match pat, s with
  | [], _ => true
  | _ :: _, [] => true
  | x :: pat', y :: s' => char_eqb x y && agrees s' pat'
  end.

(** [pat] starts at no position of [s], whatever follows [s]. *)
Fixpoint clear (pat s : jsstring) : bool :=
  match s with
  | [] => true
  | _ :: s' => negb (agrees s pat) && clear pat s'
  end.

(** The code unit that closes a tag. *)
Definition tag_end : char := 62.

(** The enclosed text of a block in which the passes after the first find
    nothing to rewrite: no backtick, no two asterisks in a row, no blank
    line, and no line after the first that starts with one of the four
    marks.  The text comes after the [>] of the opening tag. *)
Definition quiet (code : jsstring) : bool :=
  lacks backtick code &&
  negb (includes code (js "**")) &&
  negb (includes code [newline; newline]) &&
  forallb (fun marks => no_line_starts marks (Some tag_end) code) line_marks.

(** The text of an inline span in which the passes after the second find
    nothing to rewrite: one line, no two asterisks in a row, no start and
    no end of a list item. *)
Definition quiet_span (body : jsstring) : bool :=
  forallb not_line_terminator body &&
  negb (includes body (js "**")) &&
  negb (includes body (js "<li")) &&
  negb (includes body (js "</li>")).

(** The element of the second pass around [body]. *)
Definition inline_element (body : jsstring) : jsstring :=
  inline_open ++ body ++ js "</code>".

(** A fenced block starts at the head of [s]: three backticks, a tag of
    word characters or none, a line feed, the enclosed text, and the next
    three backticks. *)
Definition opens_block (s : jsstring) : Prop :=
  exists tag body post,
    forallb is_word tag = true /\ closes_first body = true /\
    s = fenced tag body ++ post.

(** An inline span starts at the head of [s]: a backtick, one or more
    code units other than a backtick, a backtick. *)
Definition opens_span (s : jsstring) : Prop :=
  exists body post,
    body <> [] /\ lacks backtick body = true /\
    s = backtick :: body ++ backtick :: post.

(** A piece of text that no pass after the first can cut: not empty, on
    one line, without backtick, asterisk or angle bracket, and starting
    with a code unit that is neither white space nor [#] nor [-]. *)
Definition solid (t : jsstring) : bool :=
  match t with
  | [] => false
  | c :: _ => negb (is_space c) && negb (c =? 35) && negb (c =? 45)
  end &&
  forallb not_line_terminator t &&
  lacks backtick t && lacks asterisk t && lacks 60 t && lacks 62 t.

(** * Properties *)

(** ** Strings *)

Lemma str_eqb_eq (a b : jsstring) : str_eqb a b = true <-> a = b.
Proof.
  revert b; induction a as [|x a IH]; intros [|y b]; simpl;
    try (split; (reflexivity || discriminate)).
  unfold char_eqb; rewrite andb_true_iff, N.eqb_eq, IH.
  split; [intros [-> ->]; reflexivity | intros E; inversion E; auto].
Qed.

Lemma str_eqb_neq (a b : jsstring) : str_eqb a b = false <-> a <> b.
Proof.
  rewrite <- str_eqb_eq; destruct (str_eqb a b); split; congruence.
Qed.

(** ** The post registry *)

Section RegistryFacts.

Variable blogs : list Blog.t.

Lemma getBlogBySlug_some (s : jsstring) (r : Blog.t) :
  getBlogBySlug blogs s = Some r -> In r blogs /\ Blog.slug r = s.
Proof.
  unfold getBlogBySlug; intros H; apply find_some in H.
  destruct H as [Hin Heq]; split; [assumption | now apply str_eqb_eq].
Qed.

Lemma getBlogBySlug_none (s : jsstring) :
  getBlogBySlug blogs s = None <-> (forall r, In r blogs -> Blog.slug r <> s).
Proof.
  unfold getBlogBySlug; split.
  - intros H r Hin; apply str_eqb_neq.
    exact (find_none _ _ H r Hin).
  - intros H; induction blogs as [|b l IH]; simpl; [reflexivity|].
    destruct (str_eqb (Blog.slug b) s) eqn:E.
    + apply str_eqb_eq in E; exfalso; apply (H b); [left; reflexivity | exact E].
    + apply IH; intros r Hr; apply H; right; exact Hr.
Qed.

End RegistryFacts.

Lemma slug_unique (l : list Blog.t) (a b : Blog.t) :
  NoDup (map Blog.slug l) -> In a l -> In b l ->
  Blog.slug a = Blog.slug b -> a = b.
Proof.
  induction l as [|x l IH]; simpl; [contradiction|].
  intros ND Ha Hb E; inversion ND as [|? ? Hnot ND']; subst.
  destruct Ha as [->|Ha], Hb as [->|Hb]; auto.
  - exfalso; apply Hnot; rewrite E; now apply in_map.
  - exfalso; apply Hnot; rewrite <- E; now apply in_map.
Qed.

(** C1.  For every record [r] of the data source, [getBlogBySlug] at the
    slug of [r] returns a record of the source whose slug is, code unit
    for code unit, that slug (the first such record, which is [r] itself
    as slugs are unique in the source); and at a string that equals the
    slug of no record it returns [undefined], as a value. *)
Theorem getBlogBySlug_correct (blogs : list Blog.t) :
  (forall r, In r blogs ->
     exists r', getBlogBySlug blogs (Blog.slug r) = Some r' /\
                In r' blogs /\ Blog.slug r' = Blog.slug r /\
                (NoDup (getAllBlogSlugs blogs) -> r' = r)) /\
  (forall s, (forall r, In r blogs -> Blog.slug r <> s) ->
     getBlogBySlug blogs s = None).
Proof.
  split.
  - intros r Hin.
    destruct (getBlogBySlug blogs (Blog.slug r)) as [r'|] eqn:E.
    + destruct (getBlogBySlug_some _ _ E) as [Hin' Hs].
      exists r'; repeat split; auto.
      intros ND; exact (@slug_unique blogs r' r ND Hin' Hin Hs).
    + exfalso.
      exact (proj1 (getBlogBySlug_none blogs (Blog.slug r)) E r Hin eq_refl).
  - intros s H; now apply getBlogBySlug_none.
Qed.

(** The lookup compares code units: a slug in another case is not found. *)
Example getBlogBySlug_case_sensitive :
  getBlogBySlug [post "my-post" None None] (js "my-post")
    = Some (post "my-post" None None) /\
  getBlogBySlug [post "my-post" None None] (js "My-Post") = None.
Proof. split; reflexivity. Qed.

Lemma getBlogBySlug_correct_witness :
  In (post "a" None None) [post "a" None None; post "b" None None] /\
  (exists r', getBlogBySlug [post "a" None None; post "b" None None] (js "a")
                = Some r' /\
              In r' [post "a" None None; post "b" None None] /\
              Blog.slug r' = js "a" /\
              (NoDup (getAllBlogSlugs [post "a" None None; post "b" None None])
               -> r' = post "a" None None)) /\
  getBlogBySlug [post "a" None None; post "b" None None] (js "c") = None.
Proof.
  assert (Hin : In (post "a" None None)
                  [post "a" None None; post "b" None None])
    by (left; reflexivity).
  split; [exact Hin|]. split.
  - exact (proj1 (getBlogBySlug_correct _) _ Hin).
  - apply (proj2 (getBlogBySlug_correct _)).
    intros r [<-|[<-|[]]]; vm_compute; discriminate.
Defined.

(** ** The content loader *)

Section LoaderFacts.

Variable net : jsstring -> fetch_result.

Lemma truthy_nonempty (f : jsstring) : f <> [] -> truthy (Some f) = true.
Proof. destruct f; [congruence | reflexivity]. Qed.

Lemma truthy_false (v : option jsstring) :
  truthy v = false <-> v = None \/ v = Some [].
Proof.
  destruct v as [[|c s]|]; simpl; split; auto; try discriminate.
  intros [H|H]; discriminate.
Qed.

(** With a non-empty [contentFile] the effect issues its one request and
    then runs the promise chain on what the network answers. *)
Lemma useEffect_fetch (b : Blog.t) (f : jsstring) (st : state) :
  Blog.contentFile b = Some f -> f <> [] ->
  useEffect net (Some b) st =
    (fst (on_settled (net (content_url f)) st),
     Fetch (content_url f)
       :: snd (on_settled (net (content_url f)) st)).
Proof.
  intros Hf Hne; unfold useEffect, effect_start; simpl chain.
  rewrite Hf, (truthy_nonempty Hne); simpl text_of.
  destruct (on_settled _ st); reflexivity.
Qed.

(** Otherwise nothing is requested and the state is final at once. *)
Lemma useEffect_inline (b : Blog.t) (st : state) :
  truthy (Blog.contentFile b) = false ->
  useEffect net (Some b) st = (State (or_null (Blog.content b)) false, []).
Proof.
  intros H; unfold useEffect, effect_start; simpl chain; rewrite H; reflexivity.
Qed.

Lemma on_settled_fetches (r : fetch_result) (st : state) :
  fetches (snd (on_settled r st)) = [].
Proof. destruct r as [e|[s [|[|fs]]]]; reflexivity. Qed.

End LoaderFacts.

(** C3, as amended.  With [contentFile] a non-empty string the loader
    issues exactly one request, to the endpoint under that file name, and
    when the answer is a JSON object its [content] field becomes the body.
    With [contentFile] absent or empty no request is issued: a non-empty
    [content] becomes the body, and with [content] absent or empty too the
    loader ends in the absent state, which is shown as the placeholder. *)
Theorem loader_resolves (b : Blog.t) (net : jsstring -> fetch_result)
    (st : state) :
  (forall f, Blog.contentFile b = Some f -> f <> [] ->
     fetches (snd (useEffect net (Some b) st)) = [content_url f] /\
     forall code fields,
       net (content_url f)
         = Fulfilled (Response code (Json (JsonObject fields))) ->
       useEffect net (Some b) st =
         (State (field (js "content") fields) false,
          [Fetch (content_url f)])) /\
  (Blog.contentFile b = None \/ Blog.contentFile b = Some [] ->
     (forall c, Blog.content b = Some c -> c <> [] ->
        useEffect net (Some b) st = (State (Some c) false, [])) /\
     (Blog.content b = None \/ Blog.content b = Some [] ->
        useEffect net (Some b) st = (State None false, []) /\
        render (Some b) (fst (useEffect net (Some b) st)) = ComingSoon)).
Proof.
  split.
  - intros f Hf Hne; rewrite (useEffect_fetch net b st Hf Hne); simpl snd.
    split.
    + simpl fetches; rewrite on_settled_fetches; reflexivity.
    + intros code fields ->; reflexivity.
  - intros Hcf; apply truthy_false in Hcf.
    rewrite (useEffect_inline net b st Hcf); split.
    + intros c -> Hne; unfold or_null; rewrite (truthy_nonempty Hne); reflexivity.
    + intros Hc; apply truthy_false in Hc; unfold or_null; rewrite Hc.
      split; reflexivity.
Qed.

Lemma loader_resolves_witness :
  useEffect (serves (js "# Title")) (Some (post "a" None (Some (js "post.md"))))
      initial
    = (State (Some (js "# Title")) false, [Fetch (js "/api/content/post.md")]) /\
  useEffect offline (Some (post "a" (Some (js "**bold**")) None)) initial
    = (State (Some (js "**bold**")) false, []) /\
  useEffect offline (Some (post "a" None None)) initial = (State None false, []).
Proof.
  split; [|split].
  - assert (Hne : js "post.md" <> []) by discriminate.
    exact (proj2 (proj1 (loader_resolves (post "a" None (Some (js "post.md")))
                           (serves (js "# Title")) initial)
                    (js "post.md") eq_refl Hne)
             200%nat [(js "content", js "# Title")] eq_refl).
  - apply (proj2 (loader_resolves (post "a" (Some (js "**bold**")) None)
                    offline initial) (or_introl eq_refl)).
    + reflexivity.
    + discriminate.
  - apply (proj2 (loader_resolves (post "a" None None) offline initial)
             (or_introl eq_refl)).
    left; reflexivity.
Defined.

(** A record whose [contentFile] is set to the empty string: no request is
    issued, and the inline [content] is taken instead.  A record whose
    [content] is set to the empty string resolves to the absent body, not
    to that string. *)
Lemma loader_empty_string_fields :
  Blog.contentFile (post "a" (Some (js "# Title")) (Some [])) = Some [] /\
  useEffect (serves (js "other")) (Some (post "a" (Some (js "# Title")) (Some [])))
      initial
    = (State (Some (js "# Title")) false, []) /\
  Blog.content (post "a" (Some []) None) = Some [] /\
  useEffect offline (Some (post "a" (Some []) None)) initial
    = (State None false, []).
Proof. repeat split. Qed.

(** C8, as amended.  When the request for the content file fails (the
    fetch rejects, the body is not JSON, or reading the field throws) the
    handler of [catch] logs the error and clears [loading], and nothing
    else: one request and no second one, and the body is left as the
    state held it before the effect ran.  The page shows what the state
    holds, in which the error does not appear.  When the body was absent
    before, as in the state a page starts in, it is absent after, exactly
    as for a record without a body, and the page shows the
    placeholder. *)
Theorem loader_failure_is_silent (b : Blog.t) (f : jsstring)
    (net : jsstring -> fetch_result) (e : error) (st : state) :
  Blog.contentFile b = Some f -> f <> [] ->
  (net (content_url f) = Rejected e \/
   (e = SyntaxError /\
    exists code, net (content_url f) = Fulfilled (Response code Malformed)) \/
   (e = TypeError /\
    exists code,
      net (content_url f) = Fulfilled (Response code (Json JsonNull)))) ->
  useEffect net (Some b) st =
    (State (content st) false,
     [Fetch (content_url f);
      ConsoleError (js "Error loading content:") e]) /\
  fetches (snd (useEffect net (Some b) st)) = [content_url f] /\
  logged (snd (useEffect net (Some b) st)) = [e] /\
  render (Some b) (fst (useEffect net (Some b) st)) =
    (if truthy (content st)
     then Article (parseMarkdown (text_of (content st)))
     else ComingSoon) /\
  (content st = None ->
   render (Some b) (fst (useEffect net (Some b) st)) = ComingSoon /\
   forall b0 net0 st0,
     Blog.contentFile b0 = None -> Blog.content b0 = None ->
     fst (useEffect net0 (Some b0) st0) = fst (useEffect net (Some b) st) /\
     render (Some b0) (fst (useEffect net0 (Some b0) st0))
       = render (Some b) (fst (useEffect net (Some b) st))).
Proof.
  intros Hf Hne Hfail.
  assert (E : useEffect net (Some b) st =
              (State (content st) false,
               [Fetch (content_url f);
                ConsoleError (js "Error loading content:") e])).
  { rewrite (useEffect_fetch net b st Hf Hne).
    destruct Hfail as [->|[[-> [code ->]]|[-> [code ->]]]]; reflexivity. }
  rewrite E. split; [reflexivity|]. split; [reflexivity|].
  split; [reflexivity|]. split; [reflexivity|].
  intros Hc. split; [simpl; rewrite Hc; reflexivity|].
  intros b0 net0 st0 H1 H2.
  rewrite (useEffect_inline net0 b0 st0)
    by (apply truthy_false; left; assumption).
  unfold or_null; rewrite H2; simpl; rewrite Hc; split; reflexivity.
Qed.

Lemma loader_failure_is_silent_witness :
  useEffect offline (Some (post "a" None (Some (js "post.md")))) initial =
    (State None false,
     [Fetch (js "/api/content/post.md");
      ConsoleError (js "Error loading content:") NetworkError]) /\
  render (Some (post "a" None (Some (js "post.md"))))
    (fst (useEffect offline (Some (post "a" None (Some (js "post.md")))) initial))
    = ComingSoon.
Proof.
  assert (Hne : js "post.md" <> []) by discriminate.
  pose proof (@loader_failure_is_silent (post "a" None (Some (js "post.md")))
                (js "post.md") offline NetworkError initial eq_refl Hne
                (or_introl eq_refl)) as H.
  split.
  - exact (proj1 H).
  - exact (proj1 (proj2 (proj2 (proj2 (proj2 H))) eq_refl)).
Defined.

(** The effect runs again when the post changes.  After the body of a
    first post was loaded, a failed request for a second post leaves that
    body in the state, and the page of the second post shows it, not the
    placeholder; a record without a body, from the same state, ends with
    the absent body. *)
Lemma loader_failure_after_a_body :
  useEffect (serves (js "## Post A")) (Some (post "a" None (Some (js "a.md"))))
      initial
    = (State (Some (js "## Post A")) false, [Fetch (js "/api/content/a.md")]) /\
  useEffect offline (Some (post "b" None (Some (js "b.md"))))
      (State (Some (js "## Post A")) false)
    = (State (Some (js "## Post A")) false,
       [Fetch (js "/api/content/b.md");
        ConsoleError (js "Error loading content:") NetworkError]) /\
  render (Some (post "b" None (Some (js "b.md"))))
    (fst (useEffect offline (Some (post "b" None (Some (js "b.md"))))
            (State (Some (js "## Post A")) false)))
    = Article (parseMarkdown (js "## Post A")) /\
  render (Some (post "b" None (Some (js "b.md"))))
    (fst (useEffect offline (Some (post "b" None (Some (js "b.md"))))
            (State (Some (js "## Post A")) false)))
    <> ComingSoon /\
  useEffect offline (Some (post "c" None None))
      (State (Some (js "## Post A")) false)
    = (State None false, []).
Proof.
  split; [reflexivity|]. split; [reflexivity|]. split; [reflexivity|].
  split; [discriminate|reflexivity].
Qed.

(** C9.  When the endpoint cannot read the file it answers 404 with a JSON
    object that has no [content] field.  The request is fulfilled, the
    JSON is read, [data.content] is [undefined]: whatever the state held,
    the loader ends with an absent body through [then], nothing reaches
    [console.error], and the page shows the placeholder. *)
Theorem loader_not_found_response (b : Blog.t) (f : jsstring)
    (net : jsstring -> fetch_result)
    (cwd : jsstring) (readFile : jsstring -> option jsstring)
    (filename : jsstring) (st : state) :
  Blog.contentFile b = Some f -> f <> [] ->
  readFile (Route.filePath cwd filename) = None ->
  net (content_url f) = Fulfilled (Route.GET cwd readFile filename) ->
  Route.GET cwd readFile filename =
    Response 404 (Json (JsonObject [(js "error", js "Content not found")])) /\
  useEffect net (Some b) st
    = (State None false, [Fetch (content_url f)]) /\
  logged (snd (useEffect net (Some b) st)) = [] /\
  on_settled (net (content_url f)) st
    = (setLoading false (setContent None st), []) /\
  render (Some b) (fst (useEffect net (Some b) st)) = ComingSoon.
Proof.
  intros Hf Hne Hmiss Hnet.
  assert (G : Route.GET cwd readFile filename =
              Response 404 (Json (JsonObject [(js "error", js "Content not found")])))
    by (unfold Route.GET; rewrite Hmiss; reflexivity).
  assert (S : on_settled (net (content_url f)) st
              = (setLoading false (setContent None st), []))
    by (rewrite Hnet, G; reflexivity).
  rewrite (useEffect_fetch net b st Hf Hne), S.
  repeat split; assumption.
Qed.

Lemma loader_not_found_response_witness :
  useEffect (fun _ => Fulfilled (Route.GET (js "/srv") empty_disk (js "post.md")))
      (Some (post "a" None (Some (js "post.md"))))
      (State (Some (js "## Post A")) false)
    = (State None false, [Fetch (js "/api/content/post.md")]).
Proof.
  apply (@loader_not_found_response (post "a" None (Some (js "post.md")))
           (js "post.md")
           (fun _ => Fulfilled (Route.GET (js "/srv") empty_disk (js "post.md")))
           (js "/srv") empty_disk (js "post.md")
           (State (Some (js "## Post A")) false) eq_refl).
  - discriminate.
  - reflexivity.
  - reflexivity.
Defined.

(** ** The content endpoint *)

(** C4 (what the handler does).  The handler joins [filename] onto the
    content directory without looking at it.  A [filename] that starts
    with a parent segment is resolved by [path.join] to a path outside
    that directory, and the file found there is served. *)
Theorem GET_serves_file_outside_contentDir
    (readFile : jsstring -> option jsstring) (text : jsstring) :
  readFile (js "/srv/portfolio/app/data/blogs.json") = Some text ->
  Route.filePath (js "/srv/portfolio") (js "../blogs.json")
    = js "/srv/portfolio/app/data/blogs.json" /\
  Route.contentDir (js "/srv/portfolio") = js "/srv/portfolio/app/data/content" /\
  startsWith (Route.filePath (js "/srv/portfolio") (js "../blogs.json"))
    (Route.contentDir (js "/srv/portfolio") ++ [Route.slash]) = false /\
  Route.GET (js "/srv/portfolio") readFile (js "../blogs.json")
    = Response 200 (Json (JsonObject [(js "content", text)])).
Proof.
  intros H.
  assert (P : Route.filePath (js "/srv/portfolio") (js "../blogs.json")
              = js "/srv/portfolio/app/data/blogs.json") by (vm_compute; reflexivity).
  repeat split; try (vm_compute; reflexivity).
  unfold Route.GET; rewrite P, H; reflexivity.
Qed.

Lemma GET_serves_file_outside_contentDir_witness :
  Route.GET (js "/srv/portfolio") disk_with_registry (js "../blogs.json")
    = Response 200 (Json (JsonObject [(js "content", js "[]")])).
Proof.
  apply (@GET_serves_file_outside_contentDir disk_with_registry (js "[]")).
  vm_compute; reflexivity.
Defined.

(** A plain file name stays inside the content directory. *)
Example filePath_plain :
  Route.filePath (js "/srv/portfolio") (js "post.md")
    = js "/srv/portfolio/app/data/content/post.md".
Proof. vm_compute; reflexivity. Qed.

(** ** The matcher on small inputs

    What [replace] yields for patterns and inputs whose result in
    JavaScript is well known: empty matches, the two anchors under the
    [m] flag, the forms of the template, greedy and lazy quantifiers, a
    group that did not take part, and captures reset by an iteration. *)

Example replace_small_inputs :
  replace (js "aaa") (Star (Chr 97)) (Template (js "x")) = js "xx" /\
  replace (js "aaa") (LazyStar (Chr 97)) (Template (js "x")) = js "xaxaxax" /\
  replace (js "abc") (Star (Chr 98)) (Template (js "-")) = js "-a--c-" /\
  replace (lines ["a"; "b"]) Bol (Template (js ">")) = lines [">a"; ">b"] /\
  replace (lines ["a"; "b"]) Eol (Template (js ";")) = lines ["a;"; "b;"] /\
  replace (js "x") (Group 1 (Chr 120)) (Template (js "[$1][$2][$&][$$]"))
    = js "[x][$2][x][$]" /\
  replace (js "<a><b>") (Seq [Chr 60; LazyStar Dot; Chr 62]) (Template (js "T"))
    = js "TT" /\
  replace (js "<a><b>") (Seq [Chr 60; Star Dot; Chr 62]) (Template (js "T"))
    = js "T" /\
  replace (js "ab b") (Seq [Opt (Group 1 (Chr 97)); Chr 98]) (Template (js "[$1]"))
    = js "[a] []" /\
  replace (js "aXbX")
    (Plus (Group 1 (Seq [Opt (Chr 97); Opt (Group 2 (Chr 98)); Chr 88])))
    (Template (js "[$1|$2]")) = js "[bX|b]".
Proof. repeat split; vm_compute; reflexivity. Qed.

(** ** The matcher on inputs of a known shape *)

Section MatcherFacts.

Lemma last_of_nil (p : option char) : last_of p [] = p.
Proof. reflexivity. Qed.

Lemma last_of_cons (p : option char) (c : char) (s : jsstring) :
  last_of p (c :: s) = last_of (Some c) s.
Proof.
  unfold last_of; simpl.
  destruct (rev s) as [|x l] eqn:E; simpl; reflexivity.
Qed.

Lemma last_of_app (p : option char) (a b : jsstring) :
  last_of p (a ++ b) = last_of (last_of p a) b.
Proof.
  revert p; induction a as [|c a IH]; intros p; simpl; [reflexivity|].
  now rewrite !last_of_cons, IH.
Qed.

Lemma startsWith_head (x y : char) (s p : jsstring) :
  char_eqb x y = false -> startsWith (y :: s) (x :: p) = false.
Proof. intros H; simpl; now rewrite H. Qed.

Lemma char_eqb_refl (c : char) : char_eqb c c = true.
Proof. apply N.eqb_refl. Qed.

Lemma matcher_Chars (pc : char -> bool) (p : option char) (ch : char)
    (s : jsstring) cs (k : continuation) :
  matcher (Chars pc) (MState p (ch :: s) cs) k =
    if pc ch then k (MState (Some ch) s cs) else None.
Proof. reflexivity. Qed.

Lemma matcher_Cat (r1 r2 : regex) (x : mstate) (k : continuation) :
  matcher (Cat r1 r2) x k = matcher r1 x (fun y => matcher r2 y k).
Proof. reflexivity. Qed.

Lemma matcher_Group (i : nat) (r : regex) (x : mstate) (k : continuation) :
  matcher (Group i r) x k =
    matcher r x (fun y =>
      k (MState (prev y) (rest y) (set_cap i (Some (consumed x y)) (caps y)))).
Proof. reflexivity. Qed.

Lemma matcher_Repeat (min : nat) (max : option nat) (greedy : bool)
    (r : regex) (x : mstate) (k : continuation) :
  matcher (Repeat min max greedy r) x k =
    repeat_matcher (matcher r) (groups_of r) greedy
      (S (min + List.length (rest x))) min max x k.
Proof. reflexivity. Qed.

Lemma Lit_cons (c d : char) (s : jsstring) :
  Lit (c :: d :: s) = Cat (Chr c) (Lit (d :: s)).
Proof. reflexivity. Qed.

(** A literal matches exactly where the input starts with it. *)
Lemma matcher_Lit (lit : jsstring) (p : option char) (s : jsstring) cs
    (k : continuation) :
  matcher (Lit lit) (MState p (lit ++ s) cs) k = k (MState (last_of p lit) s cs).
Proof.
  revert p; induction lit as [|c [|d lit] IH]; intros p.
  - reflexivity.
  - simpl app; unfold Lit, Chr; rewrite matcher_Chars, char_eqb_refl; reflexivity.
  - rewrite Lit_cons, matcher_Cat; simpl app; unfold Chr at 1.
    rewrite matcher_Chars, char_eqb_refl.
    change (d :: lit ++ s) with ((d :: lit) ++ s).
    rewrite IH, (last_of_cons p c); reflexivity.
Qed.

Lemma matcher_Lit_fail (lit : jsstring) (p : option char) (s : jsstring) cs
    (k : continuation) :
  startsWith s lit = false -> matcher (Lit lit) (MState p s cs) k = None.
Proof.
  revert p s; induction lit as [|c [|d lit] IH]; intros p s H.
  - destruct s; discriminate.
  - destruct s as [|x s]; [reflexivity|].
    simpl in H; unfold Lit, Chr; rewrite matcher_Chars.
    rewrite andb_true_r in H; now rewrite H.
  - destruct s as [|x s]; [reflexivity|].
    rewrite Lit_cons, matcher_Cat; unfold Chr at 1; rewrite matcher_Chars.
    destruct (char_eqb c x) eqn:E; [|reflexivity].
    apply IH. simpl in H; rewrite E in H; exact H.
Qed.

(** What a capture group records when its body runs from the start of
    [a ++ s] to [s]. *)
Lemma consumed_app (p q : option char) (a s : jsstring) cs cs' :
  consumed (MState p (a ++ s) cs) (MState q s cs') = a.
Proof.
  unfold consumed; simpl.
  rewrite length_app, Nat.add_sub, firstn_app, Nat.sub_diag, firstn_all.
  simpl; apply app_nil_r.
Qed.

Lemma length_cons_neq (c : char) (s : jsstring) :
  Nat.eqb (List.length s) (List.length (c :: s)) = false.
Proof. apply Nat.eqb_neq; simpl; lia. Qed.

(** A greedy quantifier over a class runs to the end of the longest run
    of the class; if the rest of the pattern matches from there, that is
    the match. *)
Lemma repeat_greedy_run (pc : char -> bool) (run : jsstring) :
  (forall c, In c run -> pc c = true) ->
  forall (fuel min : nat) (pv : option char) (s : jsstring) cs
         (k : continuation) (z : mstate),
    match s with [] => True | c :: _ => pc c = false end ->
    (List.length run < fuel)%nat -> (min <= List.length run)%nat ->
    k (MState (last_of pv run) s cs) = Some z ->
    repeat_matcher (matcher (Chars pc)) [] true fuel min None
      (MState pv (run ++ s) cs) k = Some z.
Proof.
  induction run as [|c run IH]; intros Hrun fuel min pv s cs k z Hstop Hfuel Hmin Hk.
  - destruct fuel as [|fuel]; [simpl in Hfuel; lia|].
    assert (min = 0)%nat by (simpl in Hmin; lia); subst min.
    simpl. destruct s as [|c s]; simpl.
    + exact Hk.
    + rewrite Hstop; exact Hk.
  - destruct fuel as [|fuel]; [simpl in Hfuel; lia|].
    assert (Hc : pc c = true) by (apply Hrun; left; reflexivity).
    assert (Hrec : repeat_matcher (matcher (Chars pc)) [] true fuel
                     (Nat.pred min) None (MState (Some c) (run ++ s) cs) k
                   = Some z).
    { apply IH; auto.
      - intros c' Hc'; apply Hrun; right; exact Hc'.
      - simpl in Hfuel; lia.
      - simpl in Hmin; lia.
      - rewrite last_of_cons in Hk; exact Hk. }
    cbn [repeat_matcher app rest prev caps clear_caps fold_left option_map].
    rewrite matcher_Chars, Hc.
    cbn [rest]. rewrite length_cons_neq, andb_false_r, Hrec.
    destruct (negb (Nat.eqb min 0)); reflexivity.
Qed.

(** A lazy quantifier over the class of all code units stops at the first
    position from which the rest of the pattern matches. *)
Lemma repeat_lazy_scan (pc : char -> bool) (body : jsstring) :
  (forall c, In c body -> pc c = true) ->
  forall (fuel : nat) (pv : option char) (s : jsstring) cs
         (k : continuation) (z : mstate),
    (forall b1 c b2, body = b1 ++ c :: b2 ->
       k (MState (last_of pv b1) (c :: b2 ++ s) cs) = None) ->
    k (MState (last_of pv body) s cs) = Some z ->
    (List.length body < fuel)%nat ->
    repeat_matcher (matcher (Chars pc)) [] false fuel 0 None
      (MState pv (body ++ s) cs) k = Some z.
Proof.
  induction body as [|c body IH]; intros Hall fuel pv s cs k z Hbefore Hk Hfuel;
    (destruct fuel as [|fuel]; [simpl in Hfuel; lia|]).
  - rewrite last_of_nil in Hk. simpl. now rewrite Hk.
  - cbn [repeat_matcher app rest prev caps clear_caps fold_left option_map
         Nat.eqb negb].
    pose proof (Hbefore [] c body eq_refl) as H0; rewrite last_of_nil in H0.
    rewrite H0, matcher_Chars, (Hall c (or_introl eq_refl)).
    cbn [rest]. rewrite length_cons_neq. cbn [andb].
    apply IH.
    + intros c' Hc'; apply Hall; right; exact Hc'.
    + intros b1 c' b2 E.
      specialize (Hbefore (c :: b1) c' b2); rewrite last_of_cons in Hbefore.
      apply Hbefore; simpl; now rewrite E.
    + rewrite last_of_cons in Hk; exact Hk.
    + simpl in Hfuel; lia.
Qed.

End MatcherFacts.

(** ** Global replacement *)

Section ReplaceFacts.

Variable r : regex.
Variable rep : replacement.

(** Where the pattern does not match, the code unit is copied. *)
Lemma replace_go_copy (p : option char) (c : char) (s : jsstring) :
  match_at r p (c :: s) = None ->
  replace_go r rep p 0 (c :: s) = c :: replace_go r rep (Some c) 0 s.
Proof. intros H; simpl; rewrite H; reflexivity. Qed.

(** The code units of a match are passed over. *)
Lemma replace_go_skip (a s : jsstring) (p : option char) :
  replace_go r rep p (List.length a) (a ++ s) = replace_go r rep (last_of p a) 0 s.
Proof.
  revert p; induction a as [|c a IH]; intros p.
  - reflexivity.
  - simpl List.length; simpl app.
    rewrite last_of_cons, <- IH; reflexivity.
Qed.

(** Where the pattern matches a non-empty [a], the replacement is emitted
    and the scan resumes after [a]. *)
Lemma replace_go_match (p : option char) (a s : jsstring) (y : mstate) :
  a <> [] ->
  match_at r p (a ++ s) = Some y -> rest y = s ->
  replace_go r rep p 0 (a ++ s) =
    replacement_text r rep a (caps y) ++ replace_go r rep (last_of p a) 0 s.
Proof.
  intros Ha Hm Hrest.
  destruct a as [|c a]; [congruence|].
  assert (E : firstn (List.length ((c :: a) ++ s) - List.length (rest y))
                ((c :: a) ++ s) = c :: a).
  { rewrite Hrest, length_app, Nat.add_sub, firstn_app, Nat.sub_diag, firstn_all.
    simpl; now rewrite app_nil_r. }
  change (replace_go r rep p 0 ((c :: a) ++ s)) with
    (match match_at r p ((c :: a) ++ s) with
     | Some y =>
         let matched :=
           firstn (List.length ((c :: a) ++ s) - List.length (rest y))
             ((c :: a) ++ s) in
         replacement_text r rep matched (caps y) ++
         match List.length matched with
         | O => c :: replace_go r rep (Some c) 0 (a ++ s)
         | S n => replace_go r rep (Some c) n (a ++ s)
         end
     | None => c :: replace_go r rep (Some c) 0 (a ++ s)
     end).
  rewrite Hm; cbv zeta; rewrite E.
  change (List.length (c :: a)) with (S (List.length a)); cbv iota.
  rewrite replace_go_skip, last_of_cons; reflexivity.
Qed.

(** A pattern that matches nowhere leaves the string as it is. *)
Lemma replace_go_id (s : jsstring) :
  forall p,
    (forall a b, s = a ++ b -> match_at r (last_of p a) b = None) ->
    replace_go r rep p 0 s = s.
Proof.
  induction s as [|c s IH]; intros p H.
  - pose proof (H [] [] eq_refl) as H0; rewrite last_of_nil in H0.
    simpl; now rewrite H0.
  - pose proof (H [] (c :: s) eq_refl) as H0; rewrite last_of_nil in H0.
    rewrite (@replace_go_copy p c s H0).
    f_equal; apply IH; intros a b E.
    rewrite <- (last_of_cons p c a); apply H; simpl; now rewrite E.
Qed.

End ReplaceFacts.

(** ** Patterns without [^]

    Such a pattern never looks at the code unit before the position, so a
    global replacement treats the text after a match as it would treat
    that text alone. *)

Section PrevIrrelevant.

Lemma same_result_orelse (a a' b b' : option mstate) :
  same_result a a' -> same_result b b' ->
  same_result (match a with Some z => Some z | None => b end)
              (match a' with Some z => Some z | None => b' end).
Proof. destruct a, a'; simpl; tauto. Qed.

Lemma repeat_matcher_respects (m : mstate -> continuation -> option mstate)
    (gs : list nat) (greedy : bool) :
  respects m ->
  forall fuel min max, respects (repeat_matcher m gs greedy fuel min max).
Proof.
  intros Hm fuel; induction fuel as [|fuel IH]; intros min max x x' c c' Hx Hc.
  - exact I.
  - destruct Hx as [Hr Hcs].
    assert (Hxr : same_tail (MState (prev x) (rest x) (clear_caps gs (caps x)))
                    (MState (prev x') (rest x') (clear_caps gs (caps x'))))
      by (split; simpl; congruence).
    assert (Hd : forall y y', same_tail y y' ->
              same_result
                (if Nat.eqb min 0 &&
                    Nat.eqb (List.length (rest y)) (List.length (rest x))
                 then None
                 else repeat_matcher m gs greedy fuel (Nat.pred min)
                        (option_map Nat.pred max) y c)
                (if Nat.eqb min 0 &&
                    Nat.eqb (List.length (rest y')) (List.length (rest x'))
                 then None
                 else repeat_matcher m gs greedy fuel (Nat.pred min)
                        (option_map Nat.pred max) y' c')).
    { intros y y' Hy. destruct Hy as [Hyr Hyc].
      rewrite <- Hyr, <- Hr.
      destruct (Nat.eqb min 0 &&
                Nat.eqb (List.length (rest y)) (List.length (rest x))).
      - exact I.
      - apply IH; [split; assumption | exact Hc]. }
    assert (Hcx : same_result (c x) (c' x')) by (apply Hc; split; assumption).
    pose proof (Hm _ _ _ _ Hxr Hd) as Hmd.
    simpl. destruct max as [[|n]|]; try exact Hcx;
      (destruct (Nat.eqb min 0); simpl negb; cbv iota;
       [destruct greedy; apply same_result_orelse; assumption | exact Hmd]).
Qed.

Lemma matcher_respects (r : regex) : no_bol r = true -> respects (matcher r).
Proof.
  induction r as [|pc| | |r1 IH1 r2 IH2|i r IH|min max greedy r IH];
    intros Hnb x x' c c' Hx Hc; simpl in Hnb.
  - apply Hc; exact Hx.
  - destruct Hx as [Hr Hcs]; simpl; rewrite <- Hr.
    destruct (rest x) as [|ch s]; [exact I|].
    destruct (pc ch); [|exact I].
    apply Hc; split; simpl; congruence.
  - discriminate.
  - pose proof Hx as [Hr Hcs]; simpl; rewrite <- Hr.
    destruct (rest x) as [|ch s]; [now apply Hc|].
    destruct (is_line_terminator ch); [now apply Hc | exact I].
  - apply andb_true_iff in Hnb; destruct Hnb as [H1 H2].
    simpl; apply (IH1 H1); [exact Hx|].
    intros y y' Hy; apply (IH2 H2); assumption.
  - simpl; apply (IH Hnb); [exact Hx|].
    intros y y' [Hyr Hyc]; apply Hc; split; simpl; [exact Hyr|].
    destruct Hx as [Hr _]; unfold consumed; now rewrite Hyr, Hyc, Hr.
  - rewrite !matcher_Repeat. destruct Hx as [Hr Hcs]. rewrite <- Hr.
    apply repeat_matcher_respects; [exact (IH Hnb) | split; assumption | exact Hc].
Qed.

Lemma match_at_prev (r : regex) (p p' : option char) (s : jsstring) :
  no_bol r = true -> same_result (match_at r p s) (match_at r p' s).
Proof.
  intros H; unfold match_at; apply (matcher_respects r H).
  - split; reflexivity.
  - intros y y' Hy; exact Hy.
Qed.

Lemma replace_go_prev (r : regex) (rep : replacement) (s : jsstring) :
  no_bol r = true ->
  forall skip p p', replace_go r rep p skip s = replace_go r rep p' skip s.
Proof.
  intros H; induction s as [|ch s IH]; intros skip p p'.
  - destruct skip as [|n]; [|reflexivity]; simpl.
    pose proof (match_at_prev r p p' [] H) as E.
    destruct (match_at r p []) as [y|], (match_at r p' []) as [y'|];
      simpl in E; try contradiction; [|reflexivity].
    destruct E as [E1 E2]; rewrite ?E1, ?E2; reflexivity.
  - destruct skip as [|n]; [|apply IH]; simpl.
    pose proof (match_at_prev r p p' (ch :: s) H) as E.
    destruct (match_at r p (ch :: s)) as [y|], (match_at r p' (ch :: s)) as [y'|];
      simpl in E; try contradiction; [|reflexivity].
    destruct E as [E1 E2]; rewrite ?E1, ?E2; reflexivity.
Qed.

End PrevIrrelevant.

(** ** The bound on iterations is never reached

    A matcher only calls its continuation further into the input, so the
    [fuel] that [matcher] hands to [repeat_matcher] is enough: any larger
    amount gives the same result. *)

Section Fuel.

Lemma repeat_matcher_forward (m : mstate -> continuation -> option mstate)
    (gs : list nat) (greedy : bool) :
  forward m ->
  forall fuel min max, forward (repeat_matcher m gs greedy fuel min max).
Proof.
  intros Hm fuel; induction fuel as [|fuel IH]; intros min max x c c' Hc.
  - reflexivity.
  - simpl. rewrite (Hc x (le_n _)).
    rewrite (Hm (MState (prev x) (rest x) (clear_caps gs (caps x))) _
               (fun y =>
                  if Nat.eqb min 0 &&
                     Nat.eqb (List.length (rest y)) (List.length (rest x))
                  then None
                  else repeat_matcher m gs greedy fuel (Nat.pred min)
                         (option_map Nat.pred max) y c')).
    + reflexivity.
    + intros y Hy; simpl in Hy.
      destruct (Nat.eqb min 0 &&
                Nat.eqb (List.length (rest y)) (List.length (rest x)));
        [reflexivity|].
      apply IH; intros y' Hy'; apply Hc; lia.
Qed.

Lemma matcher_forward (r : regex) : forward (matcher r).
Proof.
  induction r as [|pc| | |r1 IH1 r2 IH2|i r IH|min max greedy r IH];
    intros x c c' Hc.
  - apply Hc; lia.
  - simpl. destruct (rest x) as [|ch s] eqn:E; [reflexivity|].
    destruct (pc ch); [|reflexivity]. apply Hc; simpl; lia.
  - simpl. rewrite (Hc x (le_n _)); reflexivity.
  - simpl. rewrite (Hc x (le_n _)); reflexivity.
  - rewrite !matcher_Cat; apply IH1; intros y Hy.
    apply IH2; intros y' Hy'; apply Hc; lia.
  - rewrite !matcher_Group; apply IH; intros y Hy.
    apply Hc; simpl; exact Hy.
  - rewrite !matcher_Repeat.
    apply repeat_matcher_forward; [exact IH | exact Hc].
Qed.

Lemma repeat_matcher_fuel (m : mstate -> continuation -> option mstate)
    (gs : list nat) (greedy : bool) :
  forward m ->
  forall fuel1 fuel2 min max x (c : continuation),
    (min + List.length (rest x) < fuel1)%nat ->
    (min + List.length (rest x) < fuel2)%nat ->
    repeat_matcher m gs greedy fuel1 min max x c =
    repeat_matcher m gs greedy fuel2 min max x c.
Proof.
  intros Hm fuel1; induction fuel1 as [|fuel1 IH];
    intros fuel2 min max x c H1 H2; [lia|].
  destruct fuel2 as [|fuel2]; [lia|].
  simpl.
  rewrite (Hm (MState (prev x) (rest x) (clear_caps gs (caps x))) _
             (fun y =>
                if Nat.eqb min 0 &&
                   Nat.eqb (List.length (rest y)) (List.length (rest x))
                then None
                else repeat_matcher m gs greedy fuel2 (Nat.pred min)
                       (option_map Nat.pred max) y c)).
  - reflexivity.
  - intros y Hy; simpl in Hy.
    destruct (Nat.eqb min 0) eqn:Emin; simpl andb.
    + destruct (Nat.eqb (List.length (rest y)) (List.length (rest x))) eqn:El;
        [reflexivity|].
      apply Nat.eqb_eq in Emin; apply Nat.eqb_neq in El; subst min.
      apply IH; simpl; lia.
    + apply Nat.eqb_neq in Emin; apply IH; lia.
Qed.

(** The quantifier of [matcher], with any larger bound on its iterations. *)
Theorem matcher_Repeat_fuel (min : nat) (max : option nat) (greedy : bool)
    (r : regex) (x : mstate) (k : continuation) (extra : nat) :
  matcher (Repeat min max greedy r) x k =
    repeat_matcher (matcher r) (groups_of r) greedy
      (S (min + List.length (rest x)) + extra) min max x k.
Proof.
  rewrite matcher_Repeat.
  apply repeat_matcher_fuel; [apply matcher_forward | lia | lia].
Qed.

End Fuel.

(** ** The fenced-code pass *)

Section FencedBlocks.

Lemma startsWith_app_long (a b p : jsstring) :
  (List.length p <= List.length a)%nat ->
  startsWith (a ++ b) p = startsWith a p.
Proof.
  revert a; induction p as [|x p IH]; intros a H; [reflexivity|].
  destruct a as [|y a]; [simpl in H; lia|].
  simpl; rewrite IH by (simpl in H; lia); reflexivity.
Qed.

Lemma closes_first_suffix (body b1 b2 : jsstring) (c : char) (post : jsstring) :
  closes_first body = true -> body = b1 ++ c :: b2 ->
  startsWith (c :: b2 ++ fence ++ post) fence = false.
Proof.
  revert body; induction b1 as [|x b1 IH]; intros body H E; subst body.
  - simpl app in H. cbn [closes_first] in H.
    apply andb_true_iff in H; destruct H as [H _].
    apply negb_true_iff in H.
    change (c :: b2 ++ fence ++ post) with ((c :: b2) ++ fence ++ post).
    rewrite app_assoc, startsWith_app_long; [exact H|].
    rewrite length_app; simpl; lia.
  - simpl app in H; cbn [closes_first] in H.
    apply andb_true_iff in H; destruct H as [_ H].
    exact (IH _ H eq_refl).
Qed.

Lemma forallb_In (p : char -> bool) (s : jsstring) :
  forallb p s = true -> forall c, In c s -> p c = true.
Proof. intros H c Hc; exact (proj1 (forallb_forall p s) H c Hc). Qed.

Lemma length_app_neq (a s : jsstring) :
  a <> [] -> Nat.eqb (List.length s) (List.length (a ++ s)) = false.
Proof.
  intros H; apply Nat.eqb_neq; rewrite length_app.
  destruct a; [congruence | simpl; lia].
Qed.

Lemma repeat_matcher_done (m : mstate -> continuation -> option mstate)
    (gs : list nat) (greedy : bool) (fuel min : nat) (x : mstate)
    (k : continuation) :
  repeat_matcher m gs greedy (S fuel) min (Some 0%nat) x k = k x.
Proof. reflexivity. Qed.

(** At the opening fence of a block the pattern matches the block, with
    the tag in group 1 and the enclosed text in group 2. *)
Lemma match_at_fence (p : option char) (tag body post : jsstring) :
  forallb is_word tag = true -> closes_first body = true ->
  match_at fence_re p (fenced tag body ++ post) =
    Some (MState (Some backtick) post [lang_of tag; Some body]).
Proof.
  intros Htag Hbody.
  unfold match_at, fenced, fence_re, Seq.
  replace ((fence ++ tag ++ newline :: body ++ fence) ++ post)
    with (fence ++ tag ++ newline :: body ++ fence ++ post)
    by (rewrite <- !app_assoc; simpl; rewrite <- !app_assoc; reflexivity).
  change (clear_caps _ []) with [@None jsstring; @None jsstring].
  rewrite matcher_Cat, matcher_Lit.
  change (last_of p (js "```")) with (Some backtick).
  rewrite matcher_Cat.
  assert (Hopt : forall (k : continuation) z,
    k (MState (last_of (Some backtick) tag) (newline :: body ++ fence ++ post)
         [lang_of tag; None]) = Some z ->
    matcher (Opt (Group 1 (Plus Word)))
      (MState (Some backtick) (tag ++ newline :: body ++ fence ++ post)
         [None; None]) k = Some z).
  { intros k z Hk. unfold Opt. rewrite matcher_Repeat.
    cbn [repeat_matcher Nat.add rest prev caps groups_of Nat.eqb negb andb
         option_map Nat.pred].
    change (clear_caps [1%nat] [None; None]) with [@None jsstring; @None jsstring].
    rewrite matcher_Group. unfold Plus. rewrite matcher_Repeat.
    destruct tag as [|t tag].
    - simpl. exact Hk.
    - unfold Word.
      erewrite (@repeat_greedy_run is_word (t :: tag) (forallb_In _ _ Htag) _ 1%nat
                 (Some backtick) (newline :: body ++ fence ++ post) [None; None]).
      + reflexivity.
      + reflexivity.
      + simpl; rewrite !length_app; simpl; lia.
      + simpl; lia.
      + cbn [rest prev caps].
        rewrite length_app_neq by discriminate.
        rewrite consumed_app.
        change (List.length ((t :: tag) ++ newline :: body ++ fence ++ post))
          with (S (List.length (tag ++ newline :: body ++ fence ++ post))).
        rewrite repeat_matcher_done. exact Hk. }
  apply Hopt.
  rewrite matcher_Cat. unfold Chr at 1. rewrite matcher_Chars, char_eqb_refl.
  rewrite matcher_Cat, matcher_Group. unfold LazyStar, SpaceOrNot.
  rewrite matcher_Repeat.
  apply repeat_lazy_scan.
  - intros c _; apply orb_negb_r.
  - intros b1 c b2 E. cbn [rest prev caps].
    apply matcher_Lit_fail. eapply closes_first_suffix; eassumption.
  - cbn [rest prev caps]. rewrite consumed_app.
    change (fence ++ post) with (js "```" ++ post). rewrite matcher_Lit.
    reflexivity.
  - cbn [rest Nat.add]. rewrite length_app; lia.
Qed.

Lemma match_at_fence_fail (p : option char) (s : jsstring) :
  startsWith s fence = false -> match_at fence_re p s = None.
Proof.
  intros H; unfold match_at, fence_re, Seq.
  rewrite matcher_Cat; apply matcher_Lit_fail; exact H.
Qed.

Lemma fenced_nonempty (tag body : jsstring) : fenced tag body <> [].
Proof. discriminate. Qed.

Lemma closes_first_head (c : char) (pre rest : jsstring) :
  closes_first (c :: pre) = true ->
  startsWith (c :: pre ++ fence ++ rest) fence = false.
Proof.
  intros H; exact (@closes_first_suffix (c :: pre) [] pre c rest H eq_refl).
Qed.

(** The first pass on a text in which the first run of three backticks
    opens a block: the text before the block is copied, the block is
    replaced by the element of the callback, and the pass goes on after
    the closing fence. *)
Lemma codeBlocks_fenced (pre tag body post : jsstring) :
  closes_first pre = true ->
  forallb is_word tag = true -> closes_first body = true ->
  codeBlocks (pre ++ fenced tag body ++ post) =
    pre ++ code_block (lang_of tag) body ++ codeBlocks post.
Proof.
  intros Hpre Htag Hbody; unfold codeBlocks, replace.
  generalize (@None char) at 1; induction pre as [|c pre IH]; intros p.
  - change ([] ++ fenced tag body ++ post) with (fenced tag body ++ post).
    rewrite (@replace_go_match fence_re (Callback fence_callback) p
               (fenced tag body) post
               (MState (Some backtick) post [lang_of tag; Some body])
               (@fenced_nonempty tag body)
               (match_at_fence p tag body post Htag Hbody) eq_refl).
    rewrite (@replace_go_prev fence_re (Callback fence_callback) post eq_refl
               0%nat _ None).
    reflexivity.
  - change ((c :: pre) ++ fenced tag body ++ post)
      with (c :: pre ++ fenced tag body ++ post).
    rewrite replace_go_copy.
    + cbn [closes_first] in Hpre.
      apply andb_true_iff in Hpre; destruct Hpre as [_ Hpre].
      rewrite (IH Hpre); reflexivity.
    + apply match_at_fence_fail.
      unfold fenced; rewrite <- app_assoc.
      exact (@closes_first_head c pre _ Hpre).
Qed.

(** A text without three backticks in a row is left alone by the first
    pass. *)
Lemma codeBlocks_id (s : jsstring) :
  includes s fence = false -> codeBlocks s = s.
Proof.
  intros H; unfold codeBlocks, replace; apply replace_go_id; intros a b E.
  apply match_at_fence_fail; rewrite E in H.
  revert H; clear E; induction a as [|c a IH]; intros H.
  - simpl app in H. destruct b as [|x b]; [reflexivity|].
    simpl in H; apply orb_false_iff in H; tauto.
  - simpl in H; apply orb_false_iff in H; apply IH; tauto.
Qed.

End FencedBlocks.

(** ** The inline-code pass *)

Section InlineCode.

Lemma match_at_inline (p : option char) (body post : jsstring) :
  body <> [] -> forallb not_backtick body = true ->
  match_at inline_re p (backtick :: body ++ backtick :: post) =
    Some (MState (Some backtick) post [Some body]).
Proof.
  intros Hne Hbody.
  unfold match_at, inline_re, Seq.
  change (clear_caps _ []) with [@None jsstring].
  rewrite matcher_Cat; unfold Chr at 1; rewrite matcher_Chars, char_eqb_refl.
  rewrite matcher_Cat, matcher_Group; unfold Plus, NotChr.
  rewrite matcher_Repeat.
  apply repeat_greedy_run.
  - intros c Hc. pose proof (forallb_In _ _ Hbody c Hc) as H.
    unfold not_backtick, char_eqb in H; unfold char_eqb.
    now rewrite N.eqb_sym.
  - reflexivity.
  - cbn [rest Nat.add]; rewrite length_app; lia.
  - destruct body; [congruence | simpl; lia].
  - cbn [rest prev caps]. rewrite consumed_app.
    unfold Chr; rewrite matcher_Chars, char_eqb_refl. reflexivity.
Qed.

Lemma match_at_inline_fail (p : option char) (c : char) (s : jsstring) :
  not_backtick c = true -> match_at inline_re p (c :: s) = None.
Proof.
  intros H; unfold match_at, inline_re, Seq.
  rewrite matcher_Cat; unfold Chr at 1; rewrite matcher_Chars.
  unfold not_backtick, char_eqb in H; apply negb_true_iff in H.
  unfold char_eqb; rewrite N.eqb_sym, H; reflexivity.
Qed.

Lemma inline_template_text (matched body : jsstring) :
  replacement_text inline_re (Template inline_template) matched [Some body]
    = inline_open ++ body ++ js "</code>".
Proof. vm_compute; reflexivity. Qed.

(** The second pass on a text whose first backtick opens a span: the
    span is replaced by a [code] element that holds its text as it is. *)
Lemma inlineCode_span (pre body post : jsstring) :
  forallb not_backtick pre = true ->
  body <> [] -> forallb not_backtick body = true ->
  inlineCode (pre ++ backtick :: body ++ backtick :: post) =
    pre ++ inline_open ++ body ++ js "</code>" ++ inlineCode post.
Proof.
  intros Hpre Hne Hbody; unfold inlineCode, replace.
  generalize (@None char) at 1; induction pre as [|c pre IH]; intros p.
  - assert (E : (backtick :: body ++ [backtick]) ++ post
                = backtick :: body ++ backtick :: post)
      by (simpl; rewrite <- app_assoc; reflexivity).
    change ([] ++ backtick :: body ++ backtick :: post)
      with (backtick :: body ++ backtick :: post).
    rewrite <- E.
    assert (M : match_at inline_re p ((backtick :: body ++ [backtick]) ++ post)
                = Some (MState (Some backtick) post [Some body]))
      by (rewrite E; apply match_at_inline; assumption).
    clear E.
    rewrite (@replace_go_match inline_re (Template inline_template) p
               (backtick :: body ++ [backtick]) post _
               ltac:(discriminate) M eq_refl).
    cbn [caps]. rewrite inline_template_text.
    rewrite (@replace_go_prev inline_re (Template inline_template) post eq_refl
               0%nat _ None).
    rewrite <- !app_assoc; reflexivity.
  - simpl in Hpre; apply andb_true_iff in Hpre; destruct Hpre as [Hc Hpre].
    change ((c :: pre) ++ backtick :: body ++ backtick :: post)
      with (c :: pre ++ backtick :: body ++ backtick :: post).
    rewrite replace_go_copy by (apply match_at_inline_fail; exact Hc).
    rewrite (IH Hpre); reflexivity.
Qed.

End InlineCode.

(** ** [trim] and [escapeHtml] *)

Section TrimEscape.

Lemma drop_while_app (p : char -> bool) (a s : jsstring) :
  forallb p a = true -> drop_while p (a ++ s) = drop_while p s.
Proof.
  induction a as [|c a IH]; simpl; [reflexivity|].
  intros H; apply andb_true_iff in H; destruct H as [Hc Ha].
  rewrite Hc; exact (IH Ha).
Qed.

Lemma forallb_rev (p : char -> bool) (s : jsstring) :
  forallb p (rev s) = forallb p s.
Proof.
  induction s as [|c s IH]; [reflexivity|].
  simpl; rewrite forallb_app, IH; simpl.
  rewrite andb_true_r; apply andb_comm.
Qed.

Lemma drop_while_stop (p : char -> bool) (s : jsstring) :
  match s with [] => True | c :: _ => p c = false end -> drop_while p s = s.
Proof. destruct s as [|c s]; simpl; [reflexivity | intros ->; reflexivity]. Qed.

Lemma drop_while_split (p : char -> bool) (s : jsstring) :
  exists a, s = a ++ drop_while p s /\ forallb p a = true /\
            match drop_while p s with [] => True | c :: _ => p c = false end.
Proof.
  induction s as [|c s (a & E & Ha & Hd)]; simpl.
  - exists []; repeat split.
  - destruct (p c) eqn:Hc.
    + exists (c :: a); simpl; rewrite Hc, Ha; repeat split; [congruence | exact Hd].
    + exists []; repeat split; exact Hc.
Qed.

(** [trim] removes a run of white space at either end and nothing else. *)
Lemma trim_strips (ws1 core ws2 : jsstring) :
  forallb is_space ws1 = true -> forallb is_space ws2 = true ->
  starts_black core -> starts_black (rev core) ->
  trim (ws1 ++ core ++ ws2) = core.
Proof.
  intros H1 H2 Hs He; unfold trim, trimStart, trimEnd.
  rewrite drop_while_app by exact H1.
  destruct core as [|c core].
  - simpl app. replace (drop_while is_space ws2) with (@nil char).
    + reflexivity.
    + rewrite <- (app_nil_r ws2), drop_while_app by exact H2; reflexivity.
  - rewrite (@drop_while_stop is_space ((c :: core) ++ ws2)) by exact Hs.
    rewrite rev_app_distr, drop_while_app
      by (rewrite forallb_rev; exact H2).
    rewrite drop_while_stop by exact He.
    apply rev_involutive.
Qed.

(** Every string is its trimmed form between two runs of white space. *)
Lemma trim_decompose (s : jsstring) :
  exists ws1 ws2,
    s = ws1 ++ trim s ++ ws2 /\
    forallb is_space ws1 = true /\ forallb is_space ws2 = true /\
    starts_black (rev (trim s)) /\
    (trim s <> [] -> starts_black (trim s)).
Proof.
  unfold trim, trimEnd, trimStart.
  destruct (drop_while_split is_space s) as (ws1 & E1 & H1 & Hd1).
  destruct (drop_while_split is_space (rev (drop_while is_space s)))
    as (w & E2 & H2 & Hd2).
  exists ws1, (rev w); repeat split.
  - rewrite <- rev_app_distr, <- E2, rev_involutive; exact E1.
  - exact H1.
  - rewrite forallb_rev; exact H2.
  - rewrite rev_involutive; exact Hd2.
  - intros Hne.
    set (t := drop_while is_space s) in *.
    set (u := drop_while is_space (rev t)) in *.
    assert (Et : t = rev u ++ rev w)
      by (rewrite <- rev_app_distr, <- E2, rev_involutive; reflexivity).
    destruct (rev u) as [|c l] eqn:Eu; [congruence|].
    rewrite Et in Hd1; exact Hd1.
Qed.

Lemma escape_char_entity (c : char) :
  (c =? 38) || (c =? 60) || (c =? 62) || (c =? 34) || (c =? 39) = true ->
  text_of (entity [c]) = escape_char c.
Proof.
  intros H.
  repeat (apply orb_true_iff in H; destruct H as [H|H]);
    apply N.eqb_eq in H; subst c; reflexivity.
Qed.

(** [escapeHtml] replaces code unit by code unit. *)
Lemma escapeHtml_flat_map (text : jsstring) :
  escapeHtml text = flat_map escape_char text.
Proof.
  unfold escapeHtml, replace; generalize (@None char).
  induction text as [|c text IH]; intros p; [reflexivity|].
  destruct ((c =? 38) || (c =? 60) || (c =? 62) || (c =? 34) || (c =? 39))
    eqn:Hc.
  - assert (M : match_at escape_re p ([c] ++ text)
                = Some (MState (Some c) text []))
      by (unfold match_at, escape_re; simpl app; rewrite matcher_Chars, Hc;
          reflexivity).
    change (c :: text) with ([c] ++ text) at 1.
    rewrite (@replace_go_match escape_re _ p [c] text _ ltac:(discriminate)
               M eq_refl).
    cbn [replacement_text]. rewrite (escape_char_entity c Hc), IH.
    reflexivity.
  - assert (M : match_at escape_re p (c :: text) = None)
      by (unfold match_at, escape_re; rewrite matcher_Chars, Hc; reflexivity).
    rewrite (@replace_go_copy escape_re _ p c text M), IH.
    simpl flat_map. unfold escape_char at 2.
    repeat (apply orb_false_iff in Hc; destruct Hc as [Hc ?]).
    now rewrite Hc, H2, H1, H0, H.
Qed.

Lemma escapeHtml_app (a b : jsstring) :
  escapeHtml (a ++ b) = escapeHtml a ++ escapeHtml b.
Proof. rewrite !escapeHtml_flat_map; apply flat_map_app. Qed.

(** The five characters and what [map] holds for them. *)
Lemma escapeHtml_table :
  escapeHtml (js "&") = js "&amp;" /\ escapeHtml (js "<") = js "&lt;" /\
  escapeHtml (js ">") = js "&gt;" /\ escapeHtml [dquote] = js "&quot;" /\
  escapeHtml (js "'") = js "&#039;".
Proof. repeat split. Qed.

Lemma escape_char_plain (c : char) :
  (c =? 38) || is_markup c = false -> escape_char c = [c].
Proof.
  unfold is_markup; intros H.
  apply orb_false_iff in H; destruct H as [H1 H].
  apply orb_false_iff in H; destruct H as [H H5].
  apply orb_false_iff in H; destruct H as [H H4].
  apply orb_false_iff in H; destruct H as [H2 H3].
  unfold escape_char; now rewrite H1, H2, H3, H4, H5.
Qed.

(** No angle bracket or quote is left in escaped text. *)
Lemma escapeHtml_no_markup (text : jsstring) :
  forallb (fun c => negb (is_markup c)) (escapeHtml text) = true.
Proof.
  rewrite escapeHtml_flat_map.
  induction text as [|c text IH]; [reflexivity|].
  simpl flat_map.
  rewrite forallb_app, IH, andb_true_r.
  unfold escape_char.
  destruct (c =? 38) eqn:E1; [reflexivity|].
  destruct (c =? 60) eqn:E2; [reflexivity|].
  destruct (c =? 62) eqn:E3; [reflexivity|].
  destruct (c =? 34) eqn:E4; [reflexivity|].
  destruct (c =? 39) eqn:E5; [reflexivity|].
  simpl; unfold is_markup; now rewrite E2, E3, E4, E5.
Qed.

End TrimEscape.

(** ** Texts the later passes leave alone *)

Section Inert.

Lemma no_line_starts_split (marks : jsstring) (a b : jsstring) :
  forall p, no_line_starts marks p (a ++ b) = true ->
            at_bol (last_of p a) = true -> startsWith b marks = false.
Proof.
  induction a as [|c a IH]; intros p H Hb.
  - rewrite last_of_nil in Hb. simpl app in H.
    destruct b; simpl in H; rewrite Hb in H; simpl in H;
      apply andb_true_iff in H; destruct H as [H _];
      now apply negb_true_iff in H.
  - rewrite last_of_cons in Hb. simpl in H.
    apply andb_true_iff in H; destruct H as [_ H].
    exact (IH (Some c) H Hb).
Qed.

Lemma includes_split (a b pat : jsstring) :
  includes (a ++ b) pat = false -> startsWith b pat = false.
Proof.
  induction a as [|c a IH]; intros H.
  - simpl app in H. destruct b; simpl in H; apply orb_false_iff in H; tauto.
  - simpl in H. apply orb_false_iff in H. apply IH; tauto.
Qed.

Lemma forallb_split (q : char -> bool) (a : jsstring) (c : char) (b : jsstring) :
  forallb q (a ++ c :: b) = true -> q c = true.
Proof.
  rewrite forallb_app; simpl; intros H.
  apply andb_true_iff in H; destruct H as [_ H].
  apply andb_true_iff in H; tauto.
Qed.

(** A pattern that begins with a literal. *)
Lemma match_at_literal (lit : jsstring) (r : regex) (p : option char)
    (s : jsstring) :
  startsWith s lit = false -> match_at (Cat (Lit lit) r) p s = None.
Proof.
  intros H; unfold match_at; rewrite matcher_Cat.
  apply matcher_Lit_fail; exact H.
Qed.

Lemma replace_literal_id (ch : char) (lit : jsstring) (r : regex)
    (rep : replacement) (s : jsstring) :
  forallb (fun c => negb (char_eqb c ch)) s = true ->
  replace s (Cat (Lit (ch :: lit)) r) rep = s.
Proof.
  intros H; unfold replace; apply replace_go_id; intros a b E.
  apply match_at_literal.
  destruct b as [|c b]; [reflexivity|].
  rewrite E in H; apply forallb_split in H; apply negb_true_iff in H.
  apply startsWith_head; unfold char_eqb in *; rewrite N.eqb_sym; exact H.
Qed.

Lemma inlineCode_inert (html : jsstring) :
  forallb not_backtick html = true -> inlineCode html = html.
Proof.
  intros H; unfold inlineCode, inline_re, Seq.
  apply (@replace_literal_id backtick []); exact H.
Qed.

Lemma bold_inert (html : jsstring) :
  forallb not_asterisk html = true -> bold html = html.
Proof.
  intros H; unfold bold, bold_re, Seq.
  apply (@replace_literal_id asterisk [asterisk]); exact H.
Qed.

Lemma matcher_Bol (x : mstate) (k : continuation) :
  matcher Bol x k = if at_bol (prev x) then k x else None.
Proof. simpl; destruct (prev x); reflexivity. Qed.

Lemma match_at_line_pattern (marks : jsstring) (r : regex) (p : option char)
    (s : jsstring) :
  at_bol p = false \/ startsWith s marks = false ->
  match_at (Cat Bol (Cat (Lit marks) r)) p s = None.
Proof.
  intros H; unfold match_at; rewrite matcher_Cat, matcher_Bol.
  cbn [prev]. destruct (at_bol p); [|reflexivity].
  destruct H as [H|H]; [discriminate|].
  rewrite matcher_Cat; apply matcher_Lit_fail; exact H.
Qed.

Lemma replace_line_pattern_id (marks : jsstring) (r : regex) (rep : replacement)
    (s : jsstring) :
  no_line_starts marks None s = true ->
  replace s (Cat Bol (Cat (Lit marks) r)) rep = s.
Proof.
  intros H; unfold replace; apply replace_go_id; intros a b E.
  apply match_at_line_pattern.
  destruct (at_bol (last_of None a)) eqn:Hb; [right | left; reflexivity].
  rewrite E in H; exact (@no_line_starts_split marks a b None H Hb).
Qed.

Lemma listWrap_inert (html : jsstring) :
  includes html (js "<li") = false -> listWrap html = html.
Proof.
  intros H; unfold listWrap, replace; apply replace_go_id; intros a b E.
  rewrite E in H; apply includes_split in H.
  unfold match_at, list_re, Plus. rewrite matcher_Repeat.
  cbn [repeat_matcher Nat.add Nat.eqb negb].
  rewrite matcher_Group. unfold Seq. rewrite matcher_Cat.
  apply matcher_Lit_fail; exact H.
Qed.

Lemma split_go_no_sep (sep : jsstring) (s : jsstring) :
  forall cur, includes s sep = false -> sep <> [] ->
              split_go sep 0 cur s = [rev cur ++ s].
Proof.
  induction s as [|c s IH]; intros cur H Hsep.
  - simpl; now rewrite app_nil_r.
  - simpl in H. apply orb_false_iff in H; destruct H as [H1 H2].
    cbn [split_go]. rewrite H1, IH by assumption.
    simpl; now rewrite <- app_assoc.
Qed.

Lemma paragraphs_inert (html : jsstring) :
  includes html [newline; newline] = false ->
  startsWith (trim html) (js "<") = true ->
  paragraphs html = html.
Proof.
  intros H1 H2; unfold paragraphs, split.
  rewrite split_go_no_sep by (assumption || discriminate).
  simpl. unfold paragraph. now rewrite H2.
Qed.

(** The passes after the second on an inert text. *)
Lemma afterCodeBlocks_rest_inert (html : jsstring) :
  inert html = true ->
  paragraphs (lists (bold (headers html))) = html.
Proof.
  unfold inert; intros H.
  repeat (apply andb_true_iff in H; destruct H as [H ?]).
  unfold lists, headers.
  unfold header3, header2, header1, header_re, Seq.
  rewrite (@replace_line_pattern_id (js "### ") _ _ html H6).
  rewrite (@replace_line_pattern_id (js "## ") _ _ html H5).
  rewrite (@replace_line_pattern_id (js "# ") _ _ html H4).
  rewrite (@bold_inert html H7).
  unfold listItems, item_re, Seq.
  rewrite (@replace_line_pattern_id (js "- ") _ _ html H3).
  rewrite listWrap_inert by (now apply negb_true_iff).
  apply paragraphs_inert; [now apply negb_true_iff | assumption].
Qed.

(** Nothing after the first pass touches an inert text. *)
Lemma afterCodeBlocks_inert (html : jsstring) :
  inert html = true -> afterCodeBlocks html = html.
Proof.
  unfold inert; intros H.
  repeat (apply andb_true_iff in H; destruct H as [H ?]).
  unfold afterCodeBlocks, lists, headers.
  rewrite (@inlineCode_inert html H).
  unfold header3, header2, header1, header_re, Seq.
  rewrite (@replace_line_pattern_id (js "### ") _ _ html H6).
  rewrite (@replace_line_pattern_id (js "## ") _ _ html H5).
  rewrite (@replace_line_pattern_id (js "# ") _ _ html H4).
  rewrite (@bold_inert html H7).
  unfold listItems, item_re, Seq.
  rewrite (@replace_line_pattern_id (js "- ") _ _ html H3).
  rewrite listWrap_inert by (now apply negb_true_iff).
  apply paragraphs_inert; [now apply negb_true_iff | assumption].
Qed.

End Inert.

(** ** One construct, end to end *)

Section EndToEnd.

Lemma parseMarkdown_nonempty (c : char) (s : jsstring) :
  parseMarkdown (c :: s) = afterCodeBlocks (codeBlocks (c :: s)).
Proof. reflexivity. Qed.

Lemma parseMarkdown_fenced (pre tag body post : jsstring) :
  parseMarkdown (pre ++ fenced tag body ++ post) =
    afterCodeBlocks (codeBlocks (pre ++ fenced tag body ++ post)).
Proof. destruct pre; reflexivity. Qed.

(** A block whose element, with the text around it, is inert comes out of
    [parseMarkdown] as the first pass made it. *)
Lemma parseMarkdown_fenced_inert (pre tag body post : jsstring) :
  closes_first pre = true ->
  forallb is_word tag = true -> closes_first body = true ->
  inert (pre ++ code_block (lang_of tag) body ++ codeBlocks post) = true ->
  parseMarkdown (pre ++ fenced tag body ++ post) =
    pre ++ code_block (lang_of tag) body ++ codeBlocks post.
Proof.
  intros Hpre Htag Hbody Hin.
  rewrite parseMarkdown_fenced, codeBlocks_fenced by assumption.
  apply afterCodeBlocks_inert; exact Hin.
Qed.

Lemma span_has_no_fence (body : jsstring) :
  body <> [] -> forallb not_backtick body = true ->
  includes (backtick :: body ++ [backtick]) fence = false.
Proof.
  intros Hne Hb.
  assert (Hin : includes (body ++ [backtick]) fence = false).
  { clear Hne; induction body as [|c body IH]; [reflexivity|].
    simpl in Hb; apply andb_true_iff in Hb; destruct Hb as [Hc Hb].
    change (includes ((c :: body) ++ [backtick]) fence)
      with (startsWith (c :: body ++ [backtick]) fence ||
            includes (body ++ [backtick]) fence).
    rewrite (IH Hb), orb_false_r.
    apply startsWith_head.
    unfold not_backtick, char_eqb in *; apply negb_true_iff in Hc.
    rewrite N.eqb_sym; exact Hc. }
  change (includes (backtick :: body ++ [backtick]) fence)
    with (startsWith (backtick :: body ++ [backtick]) fence ||
          includes (body ++ [backtick]) fence).
  rewrite Hin, orb_false_r.
  destruct body as [|c body]; [congruence|].
  simpl in Hb; apply andb_true_iff in Hb; destruct Hb as [Hc _].
  unfold not_backtick, char_eqb in Hc; apply negb_true_iff in Hc.
  change (startsWith (backtick :: (c :: body) ++ [backtick]) fence)
    with (char_eqb backtick backtick &&
          startsWith (c :: body ++ [backtick]) [backtick; backtick]).
  rewrite (@startsWith_head backtick c (body ++ [backtick]) [backtick]).
  - apply andb_false_r.
  - unfold char_eqb; rewrite N.eqb_sym; exact Hc.
Qed.

(** A span whose element is inert comes out of [parseMarkdown] as the
    second pass made it. *)
Lemma parseMarkdown_span_inert (body : jsstring) :
  body <> [] ->
  inert (inline_open ++ body ++ js "</code>") = true ->
  parseMarkdown (backtick :: body ++ [backtick]) =
    inline_open ++ body ++ js "</code>".
Proof.
  intros Hne Hin.
  assert (Hb : forallb not_backtick body = true).
  { unfold inert in Hin.
    do 8 (apply andb_true_iff in Hin; destruct Hin as [Hin _]).
    rewrite !forallb_app in Hin.
    apply andb_true_iff in Hin; destruct Hin as [_ Hin].
    apply andb_true_iff in Hin; tauto. }
  rewrite parseMarkdown_nonempty.
  rewrite codeBlocks_id by (apply span_has_no_fence; assumption).
  unfold afterCodeBlocks at 1.
  assert (E : inlineCode (backtick :: body ++ [backtick]) =
              inline_open ++ body ++ js "</code>").
  { change (backtick :: body ++ [backtick])
      with ([] ++ backtick :: body ++ backtick :: []).
    rewrite (@inlineCode_span [] body [] eq_refl Hne Hb).
    change (inlineCode []) with (@nil char).
    change ([] ++ inline_open ++ body ++ js "</code>" ++ [])
      with (inline_open ++ body ++ js "</code>" ++ []).
    now rewrite app_nil_r. }
  rewrite E.
  apply afterCodeBlocks_rest_inert; exact Hin.
Qed.

End EndToEnd.

(** ** The renderer on the inputs of the specification *)

(** C6.  [parseMarkdown] turns [## Setup] into one [h2] element whose
    text is [Setup] and whose [id] attribute is the header text as
    written.  The header passes run in the order [###], [##], [#]: the
    first leaves this input alone, the second produces the element, the
    third leaves the element alone. *)
Theorem parseMarkdown_h2_Setup :
  parseMarkdown (js "## Setup") = h2_element "Setup" /\
  h2_element "Setup" =
    js "<h2 id=" ++ quoted (js "Setup") ++ js " class=" ++
    quoted (js "text-3xl font-bold mt-12 mb-6") ++ js ">Setup</h2>" /\
  (forall html, headers html = header1 (header2 (header3 html))) /\
  header3 (js "## Setup") = js "## Setup" /\
  header2 (js "## Setup") = h2_element "Setup" /\
  header1 (h2_element "Setup") = h2_element "Setup".
Proof. repeat split; vm_compute; reflexivity. Qed.

(** C7.  Three consecutive lines that start with a hyphen and a space
    become three [li] elements, in order, inside one [ul] element. *)
Theorem parseMarkdown_list_of_three :
  parseMarkdown (lines ["- a"; "- b"; "- c"]) =
    ul_open ++
    join [newline] [li_element "a"; li_element "b"; li_element "c"] ++
    js "</ul>" /\
  occurrences (js "<ul") (parseMarkdown (lines ["- a"; "- b"; "- c"])) = 1%nat /\
  occurrences (js "</ul>") (parseMarkdown (lines ["- a"; "- b"; "- c"])) = 1%nat /\
  occurrences (js "<li") (parseMarkdown (lines ["- a"; "- b"; "- c"])) = 3%nat /\
  occurrences (js "</li>") (parseMarkdown (lines ["- a"; "- b"; "- c"])) = 3%nat.
Proof. repeat split; vm_compute; reflexivity. Qed.

(** The element of a block that is surrounded by blank lines and
    indented, in the output of [parseMarkdown]. *)
Example parseMarkdown_trims_block :
  parseMarkdown (lines ["```"; ""; "   x < y  "; ""; "```"]) =
    pre_open ++ quoted (js "language-typescript") ++ js ">x &lt; y</code></pre>".
Proof. vm_compute; reflexivity. Qed.

(** * Further properties *)

(** ** The carousel of the home page *)

Section CarouselFacts.

Import Carousel.
Local Open Scope Z_scope.

Variable blogs : list Blog.t.

Lemma ceil_div_4 (n : Z) : 0 <= n -> ceil_div n 4 = (n + 3) / 4.
Proof.
  intros Hn; unfold ceil_div.
  pose proof (Z.div_mod (- n) 4 ltac:(lia)) as E1.
  pose proof (Z.mod_pos_bound (- n) 4 ltac:(lia)) as B1.
  pose proof (Z.div_mod (n + 3) 4 ltac:(lia)) as E2.
  pose proof (Z.mod_pos_bound (n + 3) 4 ltac:(lia)) as B2.
  lia.
Qed.

Lemma totalPages_eq :
  totalPages blogs = Int ((Z.of_nat (List.length blogs) + 3) / 4).
Proof. unfold totalPages; simpl to_integer; rewrite ceil_div_4 by lia; reflexivity. Qed.

Lemma totalPages_bounds :
  let t := to_integer (totalPages blogs) in
  let n := Z.of_nat (List.length blogs) in
  4 * (t - 1) < n <= 4 * t \/ (n = 0 /\ t = 0).
Proof.
  rewrite totalPages_eq; simpl to_integer; cbv zeta.
  pose proof (Z.div_mod (Z.of_nat (List.length blogs) + 3) 4 ltac:(lia)) as E.
  pose proof (Z.mod_pos_bound (Z.of_nat (List.length blogs) + 3) 4 ltac:(lia)) as B.
  lia.
Qed.

Lemma chunks_concat (A : Type) (t : nat) :
  forall l : list A,
    (List.length l <= 4 * t)%nat ->
    concat (map (fun i => firstn 4 (skipn (4 * i) l)) (seq 0 t)) = l.
Proof.
  induction t as [|t IH]; intros l H.
  - destruct l; [reflexivity | simpl in H; lia].
  - change (seq 0 (S t)) with (0%nat :: seq 1 t).
    rewrite <- seq_shift. cbn [map concat]. rewrite map_map.
    change (skipn (4 * 0) l) with l.
    rewrite (map_ext (fun i => firstn 4 (skipn (4 * S i) l))
               (fun i => firstn 4 (skipn (4 * i) (skipn 4 l)))).
    + rewrite IH by (rewrite length_skipn; lia).
      apply firstn_skipn.
    + intros i. rewrite skipn_skipn. f_equal. f_equal. lia.
Qed.

(** The page at a natural index. *)
Lemma currentBlogs_chunk (i : nat) :
  currentBlogs blogs (Int (Z.of_nat i)) = firstn 4 (skipn (4 * i) blogs).
Proof.
  unfold currentBlogs, slice, mul, add, blogsPerPage; cbn [to_integer].
  set (n := List.length blogs).
  assert (H1 : (Z.of_nat i * 4 <? 0) = false) by (apply Z.ltb_ge; lia).
  assert (H2 : ((Z.of_nat i + 1) * 4 <? 0) = false) by (apply Z.ltb_ge; lia).
  rewrite H1, H2.
  destruct (Nat.le_gt_cases n (4 * i)) as [Hle|Hgt].
  - replace (Z.to_nat (Z.min (Z.of_nat i * 4) (Z.of_nat n))) with n by lia.
    rewrite !(skipn_all2 blogs) by (fold n; lia).
    now rewrite !firstn_nil.
  - replace (Z.to_nat (Z.min (Z.of_nat i * 4) (Z.of_nat n)))
      with (4 * i)%nat by lia.
    destruct (Nat.le_gt_cases n (4 * i + 4)) as [Hle2|Hgt2].
    + replace (Z.to_nat
                 (Z.max (Z.min ((Z.of_nat i + 1) * 4) (Z.of_nat n) -
                         Z.min (Z.of_nat i * 4) (Z.of_nat n)) 0))
        with (n - 4 * i)%nat by lia.
      rewrite !firstn_all2; try reflexivity; rewrite length_skipn; fold n; lia.
    + replace (Z.to_nat
                 (Z.max (Z.min ((Z.of_nat i + 1) * 4) (Z.of_nat n) -
                         Z.min (Z.of_nat i * 4) (Z.of_nat n)) 0))
        with 4%nat by lia.
      reflexivity.
Qed.

Lemma dots_eq :
  dots blogs =
    map (fun i => Int (Z.of_nat i))
      (seq 0 (Z.to_nat ((Z.of_nat (List.length blogs) + 3) / 4))).
Proof. unfold dots, indices; rewrite totalPages_eq; reflexivity. Qed.

Lemma valid_page_nat (p : number) :
  valid_page blogs p ->
  exists i : nat, p = Int (Z.of_nat i) /\ (4 * i < List.length blogs)%nat.
Proof.
  intros (z & -> & Hz). pose proof totalPages_bounds as B; cbv zeta in B.
  exists (Z.to_nat z); split; [f_equal; lia | lia].
Qed.

End CarouselFacts.

(** X1.  The pages of the carousel split the registry: shown one after the
    other, in the order of the dots, they give every post once and in
    order.  Every page the carousel can show holds between one and four
    posts, and four when a further page follows. *)
Theorem carousel_pages_partition (blogs : list Blog.t) :
  concat (map (Carousel.currentBlogs blogs) (Carousel.dots blogs)) = blogs /\
  (forall p, valid_page blogs p ->
     (1 <= List.length (Carousel.currentBlogs blogs p) <= 4)%nat) /\
  (forall p, valid_page blogs p ->
     valid_page blogs (Carousel.add p (Carousel.Int 1)) ->
     List.length (Carousel.currentBlogs blogs p) = 4%nat).
Proof.
  split; [|split].
  - rewrite dots_eq, map_map.
    rewrite (map_ext _ (fun i => firstn 4 (skipn (4 * i) blogs)))
      by (intros i; apply currentBlogs_chunk).
    apply chunks_concat.
    pose proof (Z.div_mod (Z.of_nat (List.length blogs) + 3) 4 ltac:(lia)) as E.
    pose proof (Z.mod_pos_bound (Z.of_nat (List.length blogs) + 3) 4 ltac:(lia)).
    lia.
  - intros p Hp. destruct (valid_page_nat Hp) as (i & -> & Hi).
    rewrite currentBlogs_chunk, length_firstn, length_skipn. lia.
  - intros p Hp Hq. destruct (valid_page_nat Hp) as (i & -> & Hi).
    destruct (valid_page_nat Hq) as (j & Ej & Hj).
    simpl in Ej. injection Ej as Ej.
    rewrite currentBlogs_chunk, length_firstn, length_skipn. lia.
Qed.

Lemma carousel_pages_partition_witness :
  (1 <= List.length
          (Carousel.currentBlogs
             [post "a" None None; post "b" None None; post "c" None None;
              post "d" None None; post "e" None None] (Carousel.Int 1)) <= 4)%nat.
Proof.
  apply (proj1 (proj2 (carousel_pages_partition
                         [post "a" None None; post "b" None None;
                          post "c" None None; post "d" None None;
                          post "e" None None]))).
  exists 1%Z; split; [reflexivity | vm_compute; split; congruence].
Defined.

(** X2.  The two arrows keep the page among the pages the carousel can show,
    undo each other, and wrap around at the two ends. *)
Theorem carousel_arrows (blogs : list Blog.t) (p : Carousel.number) :
  valid_page blogs p ->
  valid_page blogs (Carousel.nextPage blogs p) /\
  valid_page blogs (Carousel.prevPage blogs p) /\
  Carousel.prevPage blogs (Carousel.nextPage blogs p) = p /\
  Carousel.nextPage blogs (Carousel.prevPage blogs p) = p /\
  (Carousel.add p (Carousel.Int 1) = Carousel.totalPages blogs ->
   Carousel.nextPage blogs p = Carousel.Int 0) /\
  (p = Carousel.Int 0 ->
   Carousel.add (Carousel.prevPage blogs p) (Carousel.Int 1)
     = Carousel.totalPages blogs).
Proof.
  intros (z & -> & Hz).
  unfold Carousel.nextPage, Carousel.prevPage, valid_page.
  rewrite totalPages_eq in *. simpl Carousel.to_integer in *.
  set (t := ((Z.of_nat (List.length blogs) + 3) / 4)%Z) in *.
  assert (Ht : (t =? 0)%Z = false) by (apply Z.eqb_neq; lia).
  unfold Carousel.add, Carousel.sub, Carousel.rem; rewrite !Ht.
  assert (N : Z.rem (z + 1) t
              = if (z + 1 =? t)%Z then 0%Z else (z + 1)%Z).
  { rewrite Z.rem_mod_nonneg by lia.
    destruct (Z.eqb_spec (z + 1) t) as [E|E].
    - rewrite E; apply Z.mod_same; lia.
    - apply Z.mod_small; lia. }
  assert (P : Z.rem (z - 1 + t) t
              = if (z =? 0)%Z then (t - 1)%Z else (z - 1)%Z).
  { rewrite Z.rem_mod_nonneg by lia.
    destruct (Z.eqb_spec z 0) as [E|E].
    - subst z; replace (0 - 1 + t)%Z with (t - 1)%Z by lia.
      apply Z.mod_small; lia.
    - replace (z - 1 + t)%Z with (z - 1 + 1 * t)%Z by lia.
      rewrite Z.mod_add by lia. apply Z.mod_small; lia. }
  rewrite N, P.
  assert (Q : Z.rem ((if (z + 1 =? t)%Z then 0 else z + 1) - 1 + t) t = z).
  { rewrite Z.rem_mod_nonneg by (destruct (z + 1 =? t)%Z; lia).
    destruct (Z.eqb_spec (z + 1) t) as [E|E].
    - replace (0 - 1 + t)%Z with z by lia. apply Z.mod_small; lia.
    - replace (z + 1 - 1 + t)%Z with (z + 1 * t)%Z by lia.
      rewrite Z.mod_add by lia. apply Z.mod_small; lia. }
  assert (R : Z.rem ((if (z =? 0)%Z then t - 1 else z - 1) + 1) t = z).
  { rewrite Z.rem_mod_nonneg by (destruct (z =? 0)%Z; lia).
    destruct (Z.eqb_spec z 0) as [E|E].
    - subst z. replace (t - 1 + 1)%Z with t by lia. apply Z.mod_same; lia.
    - replace (z - 1 + 1)%Z with z by lia. apply Z.mod_small; lia. }
  rewrite Q, R.
  repeat split.
  - eexists; split; [reflexivity|]. destruct (Z.eqb_spec (z + 1) t); lia.
  - eexists; split; [reflexivity|]. destruct (Z.eqb_spec z 0); lia.
  - intros E; injection E as E. apply Z.eqb_eq in E. now rewrite E.
  - intros E; injection E as E. subst z. simpl. f_equal. lia.
Qed.

Lemma carousel_arrows_witness :
  Carousel.nextPage
    [post "a" None None; post "b" None None; post "c" None None;
     post "d" None None; post "e" None None] (Carousel.Int 1) = Carousel.Int 0.
Proof.
  apply (@carousel_arrows
           [post "a" None None; post "b" None None; post "c" None None;
            post "d" None None; post "e" None None] (Carousel.Int 1)).
  - exists 1%Z; split; [reflexivity | vm_compute; split; congruence].
  - reflexivity.
Defined.

(** X3.  Starting from the first page, [k] clicks on the right arrow show page
    [k] modulo the number of pages: every page is reached, and the first
    one again after as many clicks as there are pages. *)
Theorem carousel_next_cycle (blogs : list Blog.t) (k : nat) :
  blogs <> [] ->
  Nat.iter k (Carousel.nextPage blogs) Carousel.firstPage =
    Carousel.Int
      (Z.of_nat k mod Carousel.to_integer (Carousel.totalPages blogs)).
Proof.
  intros Hne. rewrite totalPages_eq. simpl Carousel.to_integer.
  set (t := ((Z.of_nat (List.length blogs) + 3) / 4)%Z).
  assert (Ht : (0 < t)%Z).
  { unfold t. destruct blogs as [|b l]; [congruence|].
    apply Z.div_str_pos. simpl List.length. lia. }
  induction k as [|k IH].
  - simpl. rewrite Z.mod_0_l by lia. reflexivity.
  - change (Nat.iter (S k) (Carousel.nextPage blogs) Carousel.firstPage)
      with (Carousel.nextPage blogs
              (Nat.iter k (Carousel.nextPage blogs) Carousel.firstPage)).
    rewrite IH. unfold Carousel.nextPage. rewrite totalPages_eq. fold t.
    unfold Carousel.add, Carousel.rem.
    replace (t =? 0)%Z with false by (symmetry; apply Z.eqb_neq; lia).
    f_equal.
    pose proof (Z.mod_pos_bound (Z.of_nat k) t Ht).
    rewrite Z.rem_mod_nonneg by lia.
    rewrite Nat2Z.inj_succ, <- Z.add_1_r.
    rewrite Zplus_mod_idemp_l. reflexivity.
Qed.

Lemma carousel_next_cycle_witness :
  Nat.iter 7 (Carousel.nextPage
                [post "a" None None; post "b" None None; post "c" None None;
                 post "d" None None; post "e" None None]) Carousel.firstPage
    = Carousel.Int 1.
Proof.
  apply (@carousel_next_cycle
           [post "a" None None; post "b" None None; post "c" None None;
            post "d" None None; post "e" None None] 7).
  discriminate.
Defined.

(** X4.  On every page the carousel can show, the line "Showing a-b of n"
    names as many posts as the page holds, within the registry. *)
Theorem carousel_showing_counts (blogs : list Blog.t) (p : Carousel.number) :
  valid_page blogs p ->
  exists a b : Z,
    Carousel.showingFrom p = Carousel.Int a /\
    Carousel.showingTo blogs p = Carousel.Int b /\
    (b - a + 1)%Z = Z.of_nat (List.length (Carousel.currentBlogs blogs p)) /\
    (1 <= a <= b)%Z /\ (b <= Z.of_nat (List.length blogs))%Z.
Proof.
  intros Hp. destruct (valid_page_nat Hp) as (i & -> & Hi).
  exists (Z.of_nat i * 4 + 1)%Z,
         (Z.min ((Z.of_nat i + 1) * 4) (Z.of_nat (List.length blogs))).
  split; [reflexivity|]. split; [reflexivity|].
  rewrite currentBlogs_chunk, length_firstn, length_skipn. lia.
Qed.

Lemma carousel_showing_counts_witness :
  exists a b : Z,
    Carousel.showingFrom (Carousel.Int 1) = Carousel.Int a /\
    Carousel.showingTo
      [post "a" None None; post "b" None None; post "c" None None;
       post "d" None None; post "e" None None] (Carousel.Int 1)
      = Carousel.Int b /\
    (b - a + 1)%Z = 1%Z.
Proof.
  destruct (@carousel_showing_counts
              [post "a" None None; post "b" None None; post "c" None None;
               post "d" None None; post "e" None None] (Carousel.Int 1))
    as (a & b & Ha & Hb & Hc & _).
  - exists 1%Z; split; [reflexivity | vm_compute; split; congruence].
  - exists a, b; repeat split; assumption.
Defined.

(** X5.  With an empty registry there is no page and no dot, and the first
    click on either arrow sets the page to [NaN].  On any registry [NaN]
    stays [NaN] under both arrows, shows no post, and is what the line
    above the carousel then prints. *)
Theorem carousel_empty_registry :
  Carousel.totalPages [] = Carousel.Int 0 /\
  Carousel.dots [] = [] /\
  (forall p, Carousel.nextPage [] p = Carousel.NaN /\
             Carousel.prevPage [] p = Carousel.NaN) /\
  (forall blogs,
     Carousel.nextPage blogs Carousel.NaN = Carousel.NaN /\
     Carousel.prevPage blogs Carousel.NaN = Carousel.NaN /\
     Carousel.currentBlogs blogs Carousel.NaN = [] /\
     Carousel.showingFrom Carousel.NaN = Carousel.NaN /\
     Carousel.showingTo blogs Carousel.NaN = Carousel.NaN).
Proof.
  split; [reflexivity|]. split; [reflexivity|]. split.
  - intros [|z]; split; reflexivity.
  - intros blogs; repeat split.
    unfold Carousel.currentBlogs, Carousel.slice.
    cbn [Carousel.mul Carousel.add Carousel.to_integer].
    change (0 <? 0)%Z with false; cbv iota.
    rewrite Z.min_l by lia. reflexivity.
Qed.

(** ** The registry and the pages that read it *)

(** X6.  [getAllBlogSlugs] lists one slug per record, in the order of the
    registry, and these are exactly the strings [getBlogBySlug] finds a
    record for.  Of several records with one slug the lookup returns the
    first: a record is found under its slug when no record before it has
    that slug, and is shadowed by an earlier record otherwise. *)
Theorem registry_slugs_and_lookup (blogs : list Blog.t) :
  List.length (getAllBlogSlugs blogs) = List.length blogs /\
  (forall i r, nth_error blogs i = Some r ->
     nth_error (getAllBlogSlugs blogs) i = Some (Blog.slug r)) /\
  (forall s, In s (getAllBlogSlugs blogs) <->
             exists r, getBlogBySlug blogs s = Some r) /\
  (forall before r after,
     blogs = before ++ r :: after ->
     (~ In (Blog.slug r) (getAllBlogSlugs before) ->
      getBlogBySlug blogs (Blog.slug r) = Some r) /\
     (In (Blog.slug r) (getAllBlogSlugs before) ->
      exists r0, getBlogBySlug blogs (Blog.slug r) = Some r0 /\ In r0 before)).
Proof.
  split; [apply length_map|]. split.
  - intros i r H; unfold getAllBlogSlugs; rewrite nth_error_map, H; reflexivity.
  - split.
    + intros s; split.
      * intros Hin. destruct (getBlogBySlug blogs s) as [r|] eqn:E.
        -- exists r; reflexivity.
        -- exfalso. unfold getAllBlogSlugs in Hin; apply in_map_iff in Hin.
           destruct Hin as (r & Hr & Hin).
           exact (proj1 (getBlogBySlug_none blogs s) E r Hin Hr).
      * intros [r E]. destruct (getBlogBySlug_some _ _ E) as [Hin <-].
        unfold getAllBlogSlugs; now apply in_map.
    + intros before r after ->. unfold getBlogBySlug, getAllBlogSlugs.
      induction before as [|x before [IH1 IH2]].
      * simpl. rewrite (proj2 (str_eqb_eq _ _) eq_refl). split; [auto|tauto].
      * simpl. destruct (str_eqb (Blog.slug x) (Blog.slug r)) eqn:E.
        -- apply str_eqb_eq in E. split.
           ++ intros H; exfalso; apply H; left; exact E.
           ++ intros _; exists x; split; [reflexivity | left; reflexivity].
        -- apply str_eqb_neq in E. split.
           ++ intros H; apply IH1; intros F; apply H; right; exact F.
           ++ intros [F|F]; [congruence|].
              destruct (IH2 F) as (r0 & Hr0 & Hin).
              exists r0; split; [exact Hr0 | right; exact Hin].
Qed.

Lemma registry_slugs_and_lookup_witness :
  getBlogBySlug [post "a" None None; post "b" (Some (js "x")) None;
                 post "b" None None] (js "b")
    = Some (post "b" (Some (js "x")) None).
Proof.
  apply (proj1 (proj2 (proj2 (proj2 (registry_slugs_and_lookup
           [post "a" None None; post "b" (Some (js "x")) None;
            post "b" None None])))
           [post "a" None None] (post "b" (Some (js "x")) None)
           [post "b" None None] eq_refl)).
  intros [H|[]]; vm_compute in H; discriminate.
Defined.

(** X7.  The post page shows "not found" exactly for the strings that are the
    slug of no record; for these the effect requests nothing and clears
    [loading].  So the page of every slug that [getAllBlogSlugs] lists,
    and of every record of the registry, is a post page. *)
Theorem post_page_not_found (blogs : list Blog.t) (s : jsstring)
    (net : jsstring -> fetch_result) (st : state) :
  (render (getBlogBySlug blogs s) st = NotFound <->
   ~ In s (getAllBlogSlugs blogs)) /\
  (~ In s (getAllBlogSlugs blogs) ->
   useEffect net (getBlogBySlug blogs s) st = (State None false, [])) /\
  (forall r, In r blogs ->
     render (getBlogBySlug blogs (Blog.slug r)) st <> NotFound).
Proof.
  assert (N : getBlogBySlug blogs s = None <-> ~ In s (getAllBlogSlugs blogs)).
  { rewrite getBlogBySlug_none. unfold getAllBlogSlugs. split.
    - intros H F; apply in_map_iff in F; destruct F as (r & Hr & Hin).
      exact (H r Hin Hr).
    - intros H r Hin Hr; apply H; rewrite <- Hr; now apply in_map. }
  split; [|split].
  - rewrite <- N. destruct (getBlogBySlug blogs s) as [r|]; simpl.
    + split; [|discriminate].
      destruct (loading st); [discriminate|].
      destruct (truthy (content st)); discriminate.
    + split; reflexivity.
  - intros H; apply N in H; rewrite H; reflexivity.
  - intros r Hin.
    destruct (getBlogBySlug blogs (Blog.slug r)) as [r'|] eqn:E.
    + simpl. destruct (loading st); [discriminate|].
      destruct (truthy (content st)); discriminate.
    + exfalso. exact (proj1 (getBlogBySlug_none blogs _) E r Hin eq_refl).
Qed.

Lemma post_page_not_found_witness :
  useEffect offline (getBlogBySlug [post "a" None None] (js "b")) initial
    = (State None false, []).
Proof.
  apply (proj1 (proj2 (post_page_not_found [post "a" None None] (js "b")
                         offline initial))).
  intros [H|[]]; vm_compute in H; discriminate.
Defined.

(** ** The loader on every path *)

(** X8.  Whatever the record, the state and the answer of the network, one run
    of the effect ends with [loading] cleared, has requested at most one
    file and logged at most one error, and logs only after a request.
    Until a request settles the state is untouched, so a page that was
    loading keeps showing the spinner. *)
Theorem loader_always_settles (net : jsstring -> fetch_result)
    (blog : option Blog.t) (st : state) :
  loading (fst (useEffect net blog st)) = false /\
  (List.length (fetches (snd (useEffect net blog st))) <= 1)%nat /\
  (List.length (logged (snd (useEffect net blog st))) <= 1)%nat /\
  (logged (snd (useEffect net blog st)) <> [] ->
   fetches (snd (useEffect net blog st)) <> []) /\
  (forall url, snd (effect_start blog st) = Some url ->
     fst (fst (effect_start blog st)) = st /\
     (forall b, blog = Some b -> loading st = true ->
        render blog (fst (fst (effect_start blog st))) = Spinner)).
Proof.
  unfold useEffect, effect_start.
  destruct (truthy (chain blog Blog.contentFile)) eqn:T.
  - set (url := content_url (text_of (chain blog Blog.contentFile))).
    destruct (net url) as [e|[code [|[|fields]]]] eqn:E;
      unfold on_settled; rewrite ?E; simpl;
      (repeat split; try lia; try discriminate;
       intros b -> L; simpl; rewrite L; reflexivity).
  - simpl. repeat split; try lia; try congruence; discriminate.
Qed.

Lemma loader_always_settles_witness :
  render (Some (post "a" None (Some (js "post.md"))))
    (fst (fst (effect_start (Some (post "a" None (Some (js "post.md")))) initial)))
    = Spinner.
Proof.
  apply (proj2 (proj2 (proj2 (proj2 (proj2
           (loader_always_settles offline
              (Some (post "a" None (Some (js "post.md")))) initial))))
           (js "/api/content/post.md") eq_refl)
           (post "a" None (Some (js "post.md"))) eq_refl eq_refl).
Defined.

(** X9.  The handler of [catch] does not touch [content]: after a failed
    request the body is what the state held before the effect ran.  From
    a state that still holds the body of another post, the page shows
    that body, rendered, under the new post. *)
Theorem loader_failure_keeps_content (b : Blog.t) (f : jsstring)
    (net : jsstring -> fetch_result) (st : state) :
  Blog.contentFile b = Some f -> f <> [] ->
  (forall code fields,
     net (content_url f)
       <> Fulfilled (Response code (Json (JsonObject fields)))) ->
  content (fst (useEffect net (Some b) st)) = content st /\
  (forall old, content st = Some old -> old <> [] ->
     render (Some b) (fst (useEffect net (Some b) st))
       = Article (parseMarkdown old)).
Proof.
  intros Hf Hne Hfail.
  rewrite (useEffect_fetch net b st Hf Hne).
  destruct (net (content_url f)) as [e|[code [|[|fields]]]] eqn:E; simpl.
  - split; [reflexivity|].
    intros old -> Ho; destruct old; [congruence | reflexivity].
  - split; [reflexivity|].
    intros old -> Ho; destruct old; [congruence | reflexivity].
  - split; [reflexivity|].
    intros old -> Ho; destruct old; [congruence | reflexivity].
  - exfalso; exact (Hfail code fields eq_refl).
Qed.

Lemma loader_failure_keeps_content_witness :
  render (Some (post "b" None (Some (js "b.md"))))
    (fst (useEffect offline (Some (post "b" None (Some (js "b.md"))))
            (State (Some (js "## Post A")) false)))
    = Article (parseMarkdown (js "## Post A")).
Proof.
  assert (Hne : js "b.md" <> []) by discriminate.
  assert (Hfail : forall code fields,
            offline (content_url (js "b.md"))
              <> Fulfilled (Response code (Json (JsonObject fields))))
    by (intros code fields; discriminate).
  assert (Ho : js "## Post A" <> []) by discriminate.
  exact (proj2 (@loader_failure_keeps_content
                  (post "b" None (Some (js "b.md"))) (js "b.md") offline
                  (State (Some (js "## Post A")) false) eq_refl Hne Hfail)
           (js "## Post A") eq_refl Ho).
Defined.

(** ** The endpoint, the loader and the renderer together *)

(** X10.  When the endpoint finds the file of a post and the request of the
    loader is answered by the endpoint, the body of the post is the text
    of the file, whatever the state held; the page shows that text
    rendered, or the placeholder when the file is empty.  A post with a
    non-empty inline [content] and no file shows that content
    rendered. *)
Theorem post_page_shows_body (b : Blog.t) (net : jsstring -> fetch_result)
    (st : state) :
  (forall f cwd readFile filename text,
     Blog.contentFile b = Some f -> f <> [] ->
     readFile (Route.filePath cwd filename) = Some text ->
     net (content_url f) = Fulfilled (Route.GET cwd readFile filename) ->
     useEffect net (Some b) st = (State (Some text) false, [Fetch (content_url f)]) /\
     render (Some b) (fst (useEffect net (Some b) st)) =
       match text with
       | [] => ComingSoon
       | _ => Article (parseMarkdown text)
       end) /\
  (forall c,
     Blog.contentFile b = None -> Blog.content b = Some c -> c <> [] ->
     render (Some b) (fst (useEffect net (Some b) st))
       = Article (parseMarkdown c)).
Proof.
  split.
  - intros f cwd readFile filename text Hf Hne Hfile Hnet.
    rewrite (useEffect_fetch net b st Hf Hne), Hnet.
    unfold Route.GET; rewrite Hfile. simpl.
    split; [reflexivity|]. destruct text; reflexivity.
  - intros c Hf Hc Hne.
    rewrite (useEffect_inline net b st)
      by (apply truthy_false; left; exact Hf).
    rewrite Hc. destruct c; [congruence | reflexivity].
Qed.

Lemma post_page_shows_body_witness :
  render (Some (post "a" None (Some (js "post.md"))))
    (fst (useEffect
            (fun _ => Fulfilled (Route.GET (js "/srv/portfolio")
                                   disk_with_post (js "post.md")))
            (Some (post "a" None (Some (js "post.md")))) initial))
    = Article (parseMarkdown (js "# Title")) /\
  render (Some (post "a" (Some (js "**bold**")) None))
    (fst (useEffect offline (Some (post "a" (Some (js "**bold**")) None)) initial))
    = Article (parseMarkdown (js "**bold**")).
Proof.
  split.
  - assert (Hne : js "post.md" <> []) by discriminate.
    exact (proj2 (proj1 (post_page_shows_body
                           (post "a" None (Some (js "post.md")))
                           (fun _ => Fulfilled (Route.GET (js "/srv/portfolio")
                                                  disk_with_post (js "post.md")))
                           initial)
                    (js "post.md") (js "/srv/portfolio") disk_with_post
                    (js "post.md") (js "# Title") eq_refl Hne eq_refl eq_refl)).
  - assert (Hne : js "**bold**" <> []) by discriminate.
    exact (proj2 (post_page_shows_body (post "a" (Some (js "**bold**")) None)
                    offline initial)
             (js "**bold**") eq_refl eq_refl Hne).
Defined.

(** ** [split] and [join] *)

Section SplitJoin.

Variable h : char.
Variable sep' : jsstring.

Lemma startsWith_self (s t : jsstring) : startsWith (s ++ t) s = true.
Proof.
  induction s as [|c s IH]; simpl; [reflexivity|].
  now rewrite char_eqb_refl, IH.
Qed.

Lemma split_go_piece (p : jsstring) :
  lacks h p = true ->
  forall cur s,
    split_go (h :: sep') 0 cur (p ++ s) =
    split_go (h :: sep') 0 (rev p ++ cur) s.
Proof.
  induction p as [|c p IH]; intros H cur s; [reflexivity|].
  simpl in H; apply andb_true_iff in H; destruct H as [Hc Hp].
  apply negb_true_iff in Hc.
  change ((c :: p) ++ s) with (c :: p ++ s).
  cbn [split_go].
  rewrite (@startsWith_head h c (p ++ s) sep')
    by (unfold char_eqb in *; rewrite N.eqb_sym; exact Hc).
  rewrite (IH Hp). simpl rev. now rewrite <- app_assoc.
Qed.

Lemma split_go_skip (sep a : jsstring) :
  forall cur s,
    split_go sep (List.length a) cur (a ++ s) = split_go sep 0 cur s.
Proof.
  induction a as [|c a IH]; intros cur s; [reflexivity|].
  simpl. apply IH.
Qed.

Lemma split_go_sep (cur s : jsstring) :
  split_go (h :: sep') 0 cur ((h :: sep') ++ s) =
    rev cur :: split_go (h :: sep') 0 [] s.
Proof.
  change ((h :: sep') ++ s) with (h :: sep' ++ s).
  cbn [split_go].
  change (h :: sep' ++ s) with ((h :: sep') ++ s). rewrite startsWith_self.
  simpl List.length. simpl pred.
  now rewrite split_go_skip.
Qed.

(** Pieces without the first code unit of the separator come back from
    [split] as they went into [join]. *)
Lemma split_join (ps : list jsstring) :
  ps <> [] -> (forall p, In p ps -> lacks h p = true) ->
  split (join (h :: sep') ps) (h :: sep') = ps.
Proof.
  unfold split. induction ps as [|p ps IH]; intros Hne H; [congruence|].
  destruct ps as [|q ps].
  - simpl join. rewrite <- (app_nil_r p) at 1.
    rewrite split_go_piece by (apply H; left; reflexivity).
    simpl. now rewrite app_nil_r, rev_involutive.
  - change (join (h :: sep') (p :: q :: ps))
      with (p ++ (h :: sep') ++ join (h :: sep') (q :: ps)).
    rewrite split_go_piece by (apply H; left; reflexivity).
    rewrite split_go_sep, app_nil_r, rev_involutive.
    f_equal. apply IH; [discriminate|].
    intros x Hx; apply H; right; exact Hx.
Qed.

End SplitJoin.

(** ** The path the endpoint reads *)

Section PlainPaths.

Lemma plain_segment_spec (s : jsstring) :
  plain_segment s = true ->
  str_eqb s [] = false /\ lacks Route.slash s = true /\
  str_eqb s (js ".") = false /\ str_eqb s Route.dotdot = false.
Proof.
  unfold plain_segment; intros H.
  repeat (apply andb_true_iff in H; destruct H as [H ?]).
  repeat split; try assumption; now apply negb_true_iff.
Qed.

(** Names are pushed on the stack of [normalize]. *)
Lemma normalize_segments_plain (above : bool) (ps : list jsstring) :
  forallb plain_segment ps = true ->
  forall stack rest,
    Route.normalize_segments above stack (ps ++ rest) =
    Route.normalize_segments above (rev ps ++ stack) rest.
Proof.
  induction ps as [|p ps IH]; intros H stack rest; [reflexivity|].
  simpl in H; apply andb_true_iff in H; destruct H as [Hp Hps].
  destruct (plain_segment_spec _ Hp) as (H1 & _ & H3 & H4).
  change ((p :: ps) ++ rest) with (p :: ps ++ rest).
  cbn [Route.normalize_segments]. rewrite H1, H3, H4. cbn [orb].
  rewrite (IH Hps). simpl rev. now rewrite <- app_assoc.
Qed.

Lemma join_nonempty (c : char) (ps : list jsstring) (p : jsstring) :
  p <> [] -> In p ps -> join [c] ps <> [].
Proof.
  intros Hp Hin. destruct ps as [|q ps]; [contradiction|].
  destruct ps as [|r ps].
  - destruct Hin as [->|[]]; exact Hp.
  - change (join [c] (q :: r :: ps)) with (q ++ [c] ++ join [c] (r :: ps)).
    destruct q; discriminate.
Qed.

Lemma join_app (c : char) (a b : list jsstring) :
  a <> [] -> b <> [] ->
  join [c] (a ++ b) = join [c] a ++ c :: join [c] b.
Proof.
  intros Ha Hb. induction a as [|x a IH]; [congruence|].
  destruct a as [|y a].
  - destruct b as [|z b]; [congruence|]. reflexivity.
  - change (join [c] ((x :: y :: a) ++ b))
      with (x ++ [c] ++ join [c] ((y :: a) ++ b)).
    rewrite IH by discriminate.
    change (join [c] (x :: y :: a)) with (x ++ [c] ++ join [c] (y :: a)).
    now rewrite <- !app_assoc.
Qed.

Lemma join_plain_last (ps : list jsstring) :
  ps <> [] -> forallb plain_segment ps = true ->
  exists x r, rev (join [Route.slash] ps) = x :: r /\
              char_eqb Route.slash x = false.
Proof.
  induction ps as [|p ps IH]; intros Hne H; [congruence|].
  simpl in H; apply andb_true_iff in H; destruct H as [Hp Hps].
  destruct ps as [|q ps].
  - destruct (plain_segment_spec _ Hp) as (H1 & H2 & _).
    simpl join. destruct (rev p) as [|x r] eqn:E.
    + apply (f_equal (@rev char)) in E; rewrite rev_involutive in E.
      subst p; discriminate.
    + exists x, r; split; [reflexivity|].
      assert (Hin : In x p) by (apply in_rev; rewrite E; left; reflexivity).
      unfold lacks in H2.
      pose proof (proj1 (forallb_forall _ _) H2 x Hin) as Hx.
      apply negb_true_iff in Hx. unfold char_eqb in *.
      now rewrite N.eqb_sym.
  - destruct (IH ltac:(discriminate) Hps) as (x & r & E & Hx).
    change (join [Route.slash] (p :: q :: ps))
      with (p ++ [Route.slash] ++ join [Route.slash] (q :: ps)).
    rewrite !rev_app_distr, E.
    exists x, ((r ++ rev [Route.slash]) ++ rev p); split; [reflexivity | exact Hx].
Qed.

(** [normalize] leaves an absolute path of names as it is. *)
Lemma normalize_absolute (ps : list jsstring) :
  ps <> [] -> forallb plain_segment ps = true ->
  Route.normalize (absolute ps) = absolute ps.
Proof.
  intros Hne Hps. unfold Route.normalize, absolute.
  assert (Hlack : forall p, In p ps -> lacks Route.slash p = true).
  { intros p Hin.
    exact (proj1 (proj2 (plain_segment_spec _
                           (proj1 (forallb_forall _ _) Hps p Hin)))). }
  assert (Hsplit : split (Route.slash :: join [Route.slash] ps) [Route.slash]
                   = [] :: ps).
  { change (Route.slash :: join [Route.slash] ps)
      with (join [Route.slash] ([] :: ps)) || idtac.
    destruct ps as [|p ps']; [congruence|].
    change (Route.slash :: join [Route.slash] (p :: ps'))
      with (join [Route.slash] ([] :: p :: ps')).
    apply (@split_join Route.slash []); [discriminate|].
    intros x [<-|Hx]; [reflexivity | apply Hlack; exact Hx]. }
  rewrite Hsplit.
  change (startsWith (Route.slash :: join [Route.slash] ps) [Route.slash])
    with (char_eqb Route.slash Route.slash && true).
  rewrite char_eqb_refl. cbn [andb negb].
  change ([] :: ps) with ([[]] ++ ps).
  assert (N : Route.normalize_segments false [] ([[]] ++ ps) = ps).
  { simpl app. cbn [Route.normalize_segments]. simpl str_eqb. cbn [orb].
    rewrite <- (app_nil_r ps) at 1.
    rewrite (normalize_segments_plain false ps Hps).
    simpl. now rewrite app_nil_r, rev_involutive. }
  rewrite N.
  destruct (join [Route.slash] ps) as [|c j] eqn:J.
  - exfalso. destruct ps as [|p ps']; [congruence|].
    apply (@join_nonempty Route.slash (p :: ps') p); [|left; reflexivity|exact J].
    intros ->. simpl in Hps. discriminate.
  - destruct (join_plain_last Hne Hps) as (x & r & E & Hx).
    rewrite J in E.
    change (rev (Route.slash :: c :: j)) with (rev (c :: j) ++ [Route.slash]).
    rewrite E.
    change (startsWith ((x :: r) ++ [Route.slash]) [Route.slash])
      with (char_eqb Route.slash x && true).
    rewrite Hx. cbn [andb]. now rewrite app_nil_r.
Qed.

(** A last segment [.] is dropped and a last segment [..] removes the name
    before it. *)
Lemma normalize_absolute_dots (ps : list jsstring) (last t : jsstring) :
  forallb plain_segment (ps ++ [last]) = true ->
  t = js "." \/ t = Route.dotdot ->
  Route.normalize (absolute ((ps ++ [last]) ++ [t])) =
    if str_eqb t (js ".") then absolute (ps ++ [last])
    else match ps with
         | [] => [Route.slash]
         | _ => absolute ps
         end.
Proof.
  intros Hps Ht. unfold Route.normalize.
  assert (Hlack : forall p, In p ([] :: (ps ++ [last]) ++ [t]) ->
                            lacks Route.slash p = true).
  { intros p [<-|Hin]; [reflexivity|].
    apply in_app_or in Hin; destruct Hin as [Hin|[<-|[]]].
    - exact (proj1 (proj2 (plain_segment_spec _
                             (proj1 (forallb_forall _ _) Hps p Hin)))).
    - destruct Ht as [->| ->]; reflexivity. }
  assert (Hsplit : split (absolute ((ps ++ [last]) ++ [t])) [Route.slash]
                   = [] :: (ps ++ [last]) ++ [t]).
  { unfold absolute.
    destruct ((ps ++ [last]) ++ [t]) as [|p l] eqn:E;
      [destruct ps; discriminate|].
    change (Route.slash :: join [Route.slash] (p :: l))
      with (join [Route.slash] ([] :: p :: l)).
    apply (@split_join Route.slash []); [discriminate | exact Hlack]. }
  assert (Hne : (ps ++ [last]) <> []) by (destruct ps; discriminate).
  assert (J : join [Route.slash] ((ps ++ [last]) ++ [t]) =
              join [Route.slash] (ps ++ [last]) ++ Route.slash :: t)
    by (rewrite join_app by (assumption || discriminate); reflexivity).
  assert (Hrev : exists r, rev (absolute ((ps ++ [last]) ++ [t])) = 46 :: r).
  { unfold absolute. rewrite J.
    change (rev (Route.slash :: join [Route.slash] (ps ++ [last]) ++ Route.slash :: t))
      with (rev (join [Route.slash] (ps ++ [last]) ++ Route.slash :: t)
            ++ [Route.slash]).
    rewrite rev_app_distr.
    destruct Ht as [->| ->]; eexists; reflexivity. }
  destruct Hrev as [r Hrev].
  remember (absolute ((ps ++ [last]) ++ [t])) as path eqn:Hpath.
  destruct path as [|c0 path']; [discriminate|].
  rewrite Hsplit, Hrev.
  assert (Habs : startsWith (c0 :: path') [Route.slash] = true).
  { unfold absolute in Hpath; injection Hpath as -> _. reflexivity. }
  rewrite Habs.
  change (startsWith (46 :: r) [Route.slash]) with false.
  cbn [negb].
  change ([] :: (ps ++ [last]) ++ [t]) with ([[]] ++ (ps ++ [last]) ++ [t]).
  assert (N : Route.normalize_segments false [] ([[]] ++ (ps ++ [last]) ++ [t])
              = Route.normalize_segments false (rev (ps ++ [last])) [t]).
  { simpl app. cbn [Route.normalize_segments]. simpl str_eqb. cbn [orb].
    rewrite (normalize_segments_plain false (ps ++ [last]) Hps).
    now rewrite app_nil_r. }
  rewrite N. rewrite rev_app_distr. simpl rev. simpl app.
  assert (Hlast : str_eqb last Route.dotdot = false).
  { rewrite forallb_app in Hps. apply andb_true_iff in Hps.
    destruct Hps as [_ Hl]. simpl in Hl. rewrite andb_true_r in Hl.
    exact (proj2 (proj2 (proj2 (plain_segment_spec _ Hl)))). }
  destruct Ht as [->| ->].
  - cbn [Route.normalize_segments]. simpl str_eqb. cbn [orb].
    change (rev (last :: rev ps)) with (rev (rev ps) ++ [last]).
    rewrite rev_involutive.
    destruct (join [Route.slash] (ps ++ [last])) as [|c j] eqn:E.
    + exfalso. apply (@join_nonempty Route.slash (ps ++ [last]) last).
      * intros ->. rewrite forallb_app in Hps. apply andb_true_iff in Hps.
        destruct Hps as [_ Hl]. discriminate.
      * apply in_or_app; right; left; reflexivity.
      * exact E.
    + unfold absolute. rewrite E. simpl. now rewrite app_nil_r.
  - cbn [Route.normalize_segments].
    change (str_eqb Route.dotdot []) with false.
    change (str_eqb Route.dotdot (js ".")) with false.
    change (str_eqb Route.dotdot Route.dotdot) with true.
    cbn [orb]. rewrite Hlast.
    cbn [Route.normalize_segments]. rewrite rev_involutive.
    change (str_eqb Route.dotdot (js ".")) with false. cbv iota.
    destruct ps as [|p ps']; [reflexivity|].
    destruct (join [Route.slash] (p :: ps')) as [|c j] eqn:E.
    + exfalso. apply (@join_nonempty Route.slash (p :: ps') p).
      * intros ->. simpl in Hps. discriminate.
      * left; reflexivity.
      * exact E.
    + unfold absolute. rewrite E. simpl. now rewrite app_nil_r.
Qed.

End PlainPaths.

Lemma path_join_under (segs : list jsstring) (names : list jsstring) :
  segs <> [] -> names <> [] ->
  (forall n, In n names -> n <> []) ->
  Route.path_join (absolute segs :: names) =
    Route.normalize (absolute (segs ++ names)).
Proof.
  intros Hs Hn Hne. unfold Route.path_join.
  assert (F : filter (fun a => negb (str_eqb a [])) (absolute segs :: names)
              = absolute segs :: names).
  { simpl. f_equal. rewrite forallb_filter_id; [reflexivity|].
    apply forallb_forall; intros n Hin.
    apply negb_true_iff, str_eqb_neq, Hne, Hin. }
  rewrite F. f_equal.
  destruct names as [|n names]; [congruence|].
  change (join [Route.slash] (absolute segs :: n :: names))
    with (absolute segs ++ [Route.slash] ++ join [Route.slash] (n :: names)).
  unfold absolute. rewrite join_app by (assumption || discriminate).
  reflexivity.
Qed.

(** X11.  The handler on names without a slash.  For a working directory that
    is an absolute path of names, a file name that is itself a name is
    read inside the content directory, under that name.  The three other
    strings without a slash are read as directories: the empty string
    and [.] as the content directory, [..] as the directory above it. *)
Theorem GET_path_of_name (segs : list jsstring)
    (readFile : jsstring -> option jsstring) :
  segs <> [] -> forallb plain_segment segs = true ->
  Route.contentDir (absolute segs) =
    absolute (segs ++ [js "app"; js "data"; js "content"]) /\
  (forall filename,
     plain_segment filename = true ->
     Route.filePath (absolute segs) filename =
       Route.contentDir (absolute segs) ++ Route.slash :: filename /\
     Route.GET (absolute segs) readFile filename =
       match readFile (Route.contentDir (absolute segs) ++ Route.slash :: filename)
       with
       | Some text => Response 200 (Json (JsonObject [(js "content", text)]))
       | None =>
           Response 404 (Json (JsonObject [(js "error", js "Content not found")]))
       end) /\
  Route.filePath (absolute segs) [] = Route.contentDir (absolute segs) /\
  Route.filePath (absolute segs) (js ".") = Route.contentDir (absolute segs) /\
  Route.filePath (absolute segs) Route.dotdot =
    absolute (segs ++ [js "app"; js "data"]).
Proof.
  intros Hne Hsegs.
  assert (Hdir : forallb plain_segment
                   (segs ++ [js "app"; js "data"; js "content"]) = true)
    by (rewrite forallb_app, Hsegs; reflexivity).
  assert (C : Route.contentDir (absolute segs) =
              absolute (segs ++ [js "app"; js "data"; js "content"])).
  { unfold Route.contentDir.
    rewrite path_join_under;
      [|exact Hne | discriminate
       | intros n [<-|[<-|[<-|[]]]]; discriminate].
    apply normalize_absolute; [destruct segs; discriminate | exact Hdir]. }
  split; [exact C|]. split; [|split; [|split]].
  - intros filename Hf.
    assert (P : Route.filePath (absolute segs) filename =
                Route.contentDir (absolute segs) ++ Route.slash :: filename).
    { unfold Route.filePath.
      rewrite path_join_under;
        [|exact Hne | discriminate
         | intros n [<-|[<-|[<-|[<-|[]]]]]; try discriminate;
           intros ->; discriminate].
      rewrite normalize_absolute;
        [|destruct segs; discriminate
         |rewrite forallb_app, Hsegs; simpl; rewrite Hf; reflexivity].
      rewrite C. unfold absolute.
      change (segs ++ [js "app"; js "data"; js "content"; filename])
        with (segs ++ [js "app"; js "data"; js "content"] ++ [filename]).
      rewrite app_assoc.
      rewrite (@join_app Route.slash
                 (segs ++ [js "app"; js "data"; js "content"]) [filename])
        by (destruct segs; discriminate).
      reflexivity. }
    split; [exact P|]. unfold Route.GET; rewrite P; reflexivity.
  - rewrite C. unfold Route.filePath, Route.contentDir in *.
    unfold Route.path_join in *. simpl filter in *. exact C.
  - rewrite C. unfold Route.filePath.
    rewrite path_join_under;
      [|exact Hne | discriminate
       | intros n [<-|[<-|[<-|[<-|[]]]]]; discriminate].
    change (segs ++ [js "app"; js "data"; js "content"; js "."])
      with (segs ++ [js "app"; js "data"] ++ [js "content"] ++ [js "."]).
    rewrite !app_assoc.
    rewrite (@normalize_absolute_dots (segs ++ [js "app"; js "data"])
               (js "content") (js "."));
      [|rewrite <- app_assoc; exact Hdir | left; reflexivity].
    rewrite <- app_assoc. reflexivity.
  - unfold Route.filePath.
    rewrite path_join_under;
      [|exact Hne | discriminate
       | intros n [<-|[<-|[<-|[<-|[]]]]]; discriminate].
    change (segs ++ [js "app"; js "data"; js "content"; Route.dotdot])
      with (segs ++ [js "app"; js "data"] ++ [js "content"] ++ [Route.dotdot]).
    rewrite !app_assoc.
    rewrite (@normalize_absolute_dots (segs ++ [js "app"; js "data"])
               (js "content") Route.dotdot);
      [|rewrite <- app_assoc; exact Hdir | right; reflexivity].
    change (str_eqb Route.dotdot (js ".")) with false. cbv iota.
    destruct (segs ++ [js "app"; js "data"]) eqn:E; [|reflexivity].
    destruct segs; discriminate.
Qed.

Lemma GET_path_of_name_witness :
  Route.filePath (absolute [js "srv"; js "portfolio"]) (js "post.md") =
    Route.contentDir (absolute [js "srv"; js "portfolio"]) ++
    Route.slash :: js "post.md".
Proof.
  assert (Hne : [js "srv"; js "portfolio"] <> []) by discriminate.
  exact (proj1 (proj1 (proj2 (@GET_path_of_name [js "srv"; js "portfolio"]
                                empty_disk Hne eq_refl))
                  (js "post.md") eq_refl)).
Defined.

(** ** Texts without the code unit a pattern starts with *)

Section Lacks.

Lemma lacks_app (c : char) (a b : jsstring) :
  lacks c (a ++ b) = lacks c a && lacks c b.
Proof. apply forallb_app. Qed.

Lemma lacks_In (c : char) (s : jsstring) (x : char) :
  lacks c s = true -> In x s -> char_eqb c x = false.
Proof.
  intros H Hin. pose proof (proj1 (forallb_forall _ _) H x Hin) as Hx.
  apply negb_true_iff in Hx. unfold char_eqb in *. now rewrite N.eqb_sym.
Qed.

Lemma lacks_startsWith (c : char) (m s : jsstring) :
  lacks c s = true -> startsWith s (c :: m) = false.
Proof.
  intros H. destruct s as [|x s]; [reflexivity|].
  apply startsWith_head. apply (@lacks_In c (x :: s) x H). left; reflexivity.
Qed.

Lemma lacks_includes (c : char) (m s : jsstring) :
  lacks c s = true -> includes s (c :: m) = false.
Proof.
  induction s as [|x s IH]; intros H; [reflexivity|].
  change (includes (x :: s) (c :: m))
    with (startsWith (x :: s) (c :: m) || includes s (c :: m)).
  rewrite (@lacks_startsWith c m (x :: s) H).
  simpl in H; apply andb_true_iff in H; destruct H as [_ H].
  now rewrite IH.
Qed.

Lemma lacks_no_line_starts (c : char) (m s : jsstring) :
  lacks c s = true -> forall p, no_line_starts (c :: m) p s = true.
Proof.
  induction s as [|x s IH]; intros H p.
  - simpl. now rewrite andb_false_r.
  - change (no_line_starts (c :: m) p (x :: s))
      with (negb (at_bol p && startsWith (x :: s) (c :: m)) &&
            no_line_starts (c :: m) (Some x) s).
    rewrite (@lacks_startsWith c m (x :: s) H), andb_false_r.
    simpl in H; apply andb_true_iff in H; destruct H as [_ H].
    now rewrite IH.
Qed.

End Lacks.

(** ** What [escapeHtml] keeps *)

Section Escape.

Lemma escape_char_cases (c : char) :
  (is_special c = false /\ escape_char c = [c]) \/
  (is_special c = true /\ exists e r, escape_char c = 38 :: e :: r /\
     ((c = 38 /\ e = 97) \/ (c = 60 /\ e = 108) \/ (c = 62 /\ e = 103) \/
      (c = 34 /\ e = 113) \/ (c = 39 /\ e = 35))).
Proof.
  unfold is_special, escape_char.
  destruct (N.eqb_spec c 38) as [->|H1];
    [right; split; [reflexivity|]; do 2 eexists; split; [reflexivity|tauto]|].
  destruct (N.eqb_spec c 60) as [->|H2];
    [right; split; [reflexivity|]; do 2 eexists; split; [reflexivity|tauto]|].
  destruct (N.eqb_spec c 62) as [->|H3];
    [right; split; [reflexivity|]; do 2 eexists; split; [reflexivity|tauto]|].
  destruct (N.eqb_spec c 34) as [->|H4];
    [right; split; [reflexivity|]; do 2 eexists; split; [reflexivity|tauto]|].
  destruct (N.eqb_spec c 39) as [->|H5];
    [right; split; [reflexivity|]; do 2 eexists; split; [reflexivity|tauto]|].
  left; split; reflexivity.
Qed.

Lemma escape_char_head (c1 c2 : char) (r1 r2 : jsstring) :
  escape_char c1 ++ r1 = escape_char c2 ++ r2 -> c1 = c2 /\ r1 = r2.
Proof.
  intros E.
  destruct (escape_char_cases c1) as [[S1 E1]|[S1 (e1 & t1 & E1 & D1)]];
  destruct (escape_char_cases c2) as [[S2 E2]|[S2 (e2 & t2 & E2 & D2)]].
  - rewrite E1, E2 in E. injection E as -> ->. split; reflexivity.
  - rewrite E1, E2 in E. injection E as -> _. discriminate.
  - rewrite E1, E2 in E. injection E as <- _. discriminate.
  - assert (c1 = c2).
    { rewrite E1, E2 in E. injection E as He _.
      destruct D1 as [[-> ->]|[[-> ->]|[[-> ->]|[[-> ->]|[-> ->]]]]];
      destruct D2 as [[-> F]|[[-> F]|[[-> F]|[[-> F]|[-> F]]]]];
        try reflexivity; subst e2; discriminate. }
    subst c2. split; [reflexivity|]. exact (app_inv_head _ _ _ E).
Qed.

End Escape.

(** X12.  [escapeHtml] never shortens a text and leaves it as it is exactly
    when none of the five characters occurs in it.  Two texts with the
    same escaped form are the same text: what was escaped can be told
    from what was not, also after escaping twice. *)
Theorem escapeHtml_keeps_text (a : jsstring) :
  (List.length a <= List.length (escapeHtml a))%nat /\
  (escapeHtml a = a <-> forallb (fun c => negb (is_special c)) a = true) /\
  (forall b, escapeHtml a = escapeHtml b -> a = b) /\
  (forall b, escapeHtml (escapeHtml a) = escapeHtml (escapeHtml b) -> a = b).
Proof.
  assert (L : forall t, (List.length t <= List.length (escapeHtml t))%nat).
  { intros t; rewrite escapeHtml_flat_map.
    induction t as [|c t IH]; [apply le_n|].
    simpl flat_map. rewrite length_app.
    destruct (escape_char_cases c) as [[_ ->]|[_ (e & r & -> & _)]];
      simpl; lia. }
  assert (I : forall x y, escapeHtml x = escapeHtml y -> x = y).
  { intros x; rewrite escapeHtml_flat_map.
    induction x as [|c x IH]; intros y; rewrite escapeHtml_flat_map.
    - destruct y as [|d y]; [reflexivity|]. simpl flat_map.
      destruct (escape_char_cases d) as [[_ ->]|[_ (e & r & -> & _)]];
        discriminate.
    - destruct y as [|d y].
      + simpl flat_map.
        destruct (escape_char_cases c) as [[_ ->]|[_ (e & r & -> & _)]];
          discriminate.
      + simpl flat_map. intros E.
        destruct (@escape_char_head c d _ _ E) as [-> E'].
        f_equal. apply IH. now rewrite escapeHtml_flat_map. }
  split; [apply L|]. split; [|split].
  - rewrite escapeHtml_flat_map. induction a as [|c a IH].
    + split; reflexivity.
    + simpl flat_map. cbn [forallb]. rewrite andb_true_iff, <- IH. split.
      * intros E.
        destruct (escape_char_cases c) as [[S Ec]|[S (e & r & Ec & _)]].
        -- rewrite Ec in E. injection E as E. rewrite S. auto.
        -- exfalso. rewrite Ec in E.
           apply (f_equal (@List.length char)) in E.
           pose proof (L a) as La. rewrite escapeHtml_flat_map in La.
           rewrite length_app in E. simpl in E. lia.
      * intros [S E]. apply negb_true_iff in S.
        destruct (escape_char_cases c) as [[_ Ec]|[S' _]]; [|congruence].
        rewrite Ec, E. reflexivity.
  - exact (I a).
  - intros b E. apply I, I, E.
Qed.

Lemma escapeHtml_keeps_text_witness :
  escapeHtml (js "plain text") = js "plain text" /\ js "a<b" = js "a<b".
Proof.
  split.
  - apply (proj2 (proj1 (proj2 (escapeHtml_keeps_text (js "plain text"))))).
    reflexivity.
  - apply (proj1 (proj2 (proj2 (escapeHtml_keeps_text (js "a<b")))) (js "a<b")).
    reflexivity.
Defined.

(** ** Markup written by the author *)

(** X13.  A text in which no pass finds its pattern and which starts with a
    tag passes through [parseMarkdown] as it is: markup the author wrote
    is neither escaped nor wrapped.  Rendering such a text again changes
    nothing. *)
Theorem parseMarkdown_passes_markup (html : jsstring) :
  inert html = true ->
  parseMarkdown html = html /\
  parseMarkdown (parseMarkdown html) = parseMarkdown html.
Proof.
  intros H.
  assert (E : parseMarkdown html = html).
  { destruct html as [|c html]; [reflexivity|].
    rewrite parseMarkdown_nonempty.
    rewrite codeBlocks_id.
    - apply afterCodeBlocks_inert; exact H.
    - unfold inert in H.
      do 8 (apply andb_true_iff in H; destruct H as [H _]).
      apply (@lacks_includes backtick [backtick; backtick]); exact H. }
  split; [exact E | now rewrite E].
Qed.

Lemma parseMarkdown_passes_markup_witness :
  parseMarkdown (lines ["<figure>"; "  <img src='a.png' alt='A & B'>"; "</figure>"])
    = lines ["<figure>"; "  <img src='a.png' alt='A & B'>"; "</figure>"].
Proof.
  apply (@parseMarkdown_passes_markup
           (lines ["<figure>"; "  <img src='a.png' alt='A & B'>"; "</figure>"])).
  reflexivity.
Defined.

(** ** Blank texts *)

Section Blank.

Lemma is_space_not (c x : char) :
  is_space x = true -> is_space c = false -> char_eqb x c = false.
Proof.
  intros Hx Hc. unfold char_eqb. destruct (N.eqb_spec x c) as [->|]; congruence.
Qed.

Lemma blank_lacks (c : char) (s : jsstring) :
  is_space c = false -> forallb is_space s = true -> lacks c s = true.
Proof.
  intros Hc H. apply forallb_forall; intros x Hx.
  apply negb_true_iff, is_space_not; [|exact Hc].
  exact (proj1 (forallb_forall _ _) H x Hx).
Qed.

Lemma trim_blank (s : jsstring) : forallb is_space s = true -> trim s = [].
Proof.
  intros H. unfold trim, trimStart.
  rewrite <- (app_nil_r s), drop_while_app by exact H. reflexivity.
Qed.

Lemma paragraph_blank (s : jsstring) :
  forallb is_space s = true -> paragraph s = [].
Proof. intros H; unfold paragraph; rewrite (@trim_blank s H); reflexivity. Qed.

Lemma split_go_pieces (q : char -> bool) (sep s : jsstring) :
  forallb q s = true ->
  forall skip cur, forallb q cur = true ->
    Forall (fun p => forallb q p = true) (split_go sep skip cur s).
Proof.
  induction s as [|c s IH]; intros H skip cur Hcur.
  - simpl. constructor; [|constructor]. now rewrite forallb_rev.
  - simpl in H; apply andb_true_iff in H; destruct H as [Hc Hs].
    cbn [split_go]. destruct skip as [|n].
    + destruct (startsWith (c :: s) sep).
      * constructor; [now rewrite forallb_rev | apply IH; auto].
      * apply IH; [exact Hs | simpl; now rewrite Hc, Hcur].
    + apply IH; assumption.
Qed.

Lemma join_empty_pieces (ps : list jsstring) :
  Forall (fun p => p = []) ps ->
  forallb (char_eqb newline) (join [newline] ps) = true.
Proof.
  induction ps as [|p ps IH]; intros H; [reflexivity|].
  inversion H as [|? ? Hp Hps]; subst.
  destruct ps as [|q ps]; [reflexivity|].
  change (join [newline] ([] :: q :: ps))
    with (newline :: join [newline] (q :: ps)).
  change (forallb (char_eqb newline) (newline :: join [newline] (q :: ps)))
    with (char_eqb newline newline &&
          forallb (char_eqb newline) (join [newline] (q :: ps))).
  rewrite (IH Hps). reflexivity.
Qed.

End Blank.

(** X14.  A text of white space only renders to nothing that shows: the output
    holds line feeds only, one for each blank line that separates two
    pieces of the text, and is empty when there is none. *)
Theorem parseMarkdown_blank (s : jsstring) :
  forallb is_space s = true ->
  forallb (char_eqb newline) (parseMarkdown s) = true /\
  (includes s [newline; newline] = false -> parseMarkdown s = []).
Proof.
  intros H. destruct s as [|c0 s0]; [split; reflexivity|].
  set (s := c0 :: s0) in *.
  assert (E : parseMarkdown s = paragraphs s).
  { unfold s at 1. rewrite parseMarkdown_nonempty. fold s.
    rewrite codeBlocks_id
      by (apply (@lacks_includes backtick [backtick; backtick]);
          apply blank_lacks; [reflexivity | exact H]).
    unfold afterCodeBlocks, lists, headers.
    rewrite inlineCode_inert by (apply (@blank_lacks backtick); auto).
    unfold header3, header2, header1, header_re, Seq.
    rewrite (@replace_line_pattern_id (js "### ") _ _ s)
      by (apply (@lacks_no_line_starts 35), blank_lacks; auto).
    rewrite (@replace_line_pattern_id (js "## ") _ _ s)
      by (apply (@lacks_no_line_starts 35), blank_lacks; auto).
    rewrite (@replace_line_pattern_id (js "# ") _ _ s)
      by (apply (@lacks_no_line_starts 35), blank_lacks; auto).
    rewrite bold_inert by (apply (@blank_lacks asterisk); auto).
    unfold listItems, item_re, Seq.
    rewrite (@replace_line_pattern_id (js "- ") _ _ s)
      by (apply (@lacks_no_line_starts 45), blank_lacks; auto).
    rewrite listWrap_inert
      by (apply (@lacks_includes 60 (js "li")), blank_lacks; auto).
    reflexivity. }
  rewrite E. split.
  - unfold paragraphs, split. apply join_empty_pieces.
    apply Forall_map.
    eapply Forall_impl; [|exact (@split_go_pieces is_space [newline; newline]
                                    s H 0%nat [] eq_refl)].
    intros p Hp; apply paragraph_blank; exact Hp.
  - intros Hnn. unfold paragraphs, split.
    rewrite split_go_no_sep by (assumption || discriminate).
    simpl. apply paragraph_blank; exact H.
Qed.

Lemma parseMarkdown_blank_witness :
  parseMarkdown (lines ["  "; " "]) = [].
Proof.
  apply (@parseMarkdown_blank (lines ["  "; " "])); reflexivity.
Defined.

(** ** Lines and paragraphs of plain text *)

Section PlainText.

Lemma lacks_join (c : char) (sep : jsstring) (ps : list jsstring) :
  lacks c sep = true -> forallb (lacks c) ps = true ->
  lacks c (join sep ps) = true.
Proof.
  intros Hsep. induction ps as [|p ps IH]; intros H; [reflexivity|].
  simpl in H; apply andb_true_iff in H; destruct H as [Hp Hps].
  destruct ps as [|q ps]; [exact Hp|].
  change (join sep (p :: q :: ps)) with (p ++ sep ++ join sep (q :: ps)).
  now rewrite !lacks_app, Hp, Hsep, IH.
Qed.

Lemma lacks_trim (c : char) (p : jsstring) :
  lacks c p = true -> lacks c (trim p) = true.
Proof.
  intros H. destruct (trim_decompose p) as (w1 & w2 & E & _).
  rewrite E, !lacks_app in H.
  apply andb_true_iff in H; destruct H as [_ H].
  apply andb_true_iff in H; tauto.
Qed.

Lemma no_terminator_lacks_newline (p : jsstring) :
  forallb not_line_terminator p = true -> lacks newline p = true.
Proof.
  intros H. apply forallb_forall; intros x Hx.
  pose proof (proj1 (forallb_forall _ _) H x Hx) as Hn.
  unfold not_line_terminator in Hn. apply negb_true_iff in Hn.
  apply negb_true_iff. unfold char_eqb.
  destruct (N.eqb_spec x newline) as [->|]; [discriminate | reflexivity].
Qed.

(** Inside a line no position is at the start of a line. *)
Lemma no_line_starts_inside (marks piece rest : jsstring) :
  forallb not_line_terminator piece = true ->
  forall c, is_line_terminator c = false ->
    no_line_starts marks (Some c) (piece ++ rest) =
    no_line_starts marks (last_of (Some c) piece) rest.
Proof.
  induction piece as [|x piece IH]; intros H c Hc; [reflexivity|].
  simpl in H; apply andb_true_iff in H; destruct H as [Hx Hp].
  unfold not_line_terminator in Hx; apply negb_true_iff in Hx.
  change (no_line_starts marks (Some c) ((x :: piece) ++ rest))
    with (negb (at_bol (Some c) && startsWith (x :: piece ++ rest) marks) &&
          no_line_starts marks (Some x) (piece ++ rest)).
  simpl at_bol. rewrite Hc. cbn [andb negb].
  rewrite (IH Hp x Hx), last_of_cons. reflexivity.
Qed.

Lemma last_of_not_terminator (piece : jsstring) (c : char) :
  forallb not_line_terminator piece = true -> is_line_terminator c = false ->
  exists x, last_of (Some c) piece = Some x /\ is_line_terminator x = false.
Proof.
  revert c; induction piece as [|y piece IH]; intros c H Hc.
  - exists c; split; [reflexivity | exact Hc].
  - simpl in H; apply andb_true_iff in H; destruct H as [Hy Hp].
    unfold not_line_terminator in Hy; apply negb_true_iff in Hy.
    rewrite last_of_cons. exact (IH y Hp Hy).
Qed.

(** What follows a line does not complete a mark. *)
Lemma startsWith_more (c : char) (marks : jsstring) :
  lacks c marks = true ->
  forall p rest,
    startsWith p marks = false ->
    match rest with [] => True | x :: _ => x = c end ->
    startsWith (p ++ rest) marks = false.
Proof.
  induction marks as [|m marks IH]; intros Hm p rest H Hrest.
  - destruct p; discriminate.
  - simpl in Hm; apply andb_true_iff in Hm; destruct Hm as [Hm0 Hm1].
    apply negb_true_iff in Hm0.
    destruct p as [|x p].
    + destruct rest as [|y rest]; [reflexivity|]. subst y.
      apply startsWith_head. exact Hm0.
    + change (startsWith ((x :: p) ++ rest) (m :: marks))
        with (char_eqb m x && startsWith (p ++ rest) marks).
      change (startsWith (x :: p) (m :: marks))
        with (char_eqb m x && startsWith p marks) in H.
      destruct (char_eqb m x); [|reflexivity].
      cbn [andb] in *. exact (IH Hm1 p rest H Hrest).
Qed.

Lemma startsWith_line (marks : jsstring) :
  lacks newline marks = true ->
  forall p rest,
    startsWith p marks = false ->
    match rest with [] => True | c :: _ => c = newline end ->
    startsWith (p ++ rest) marks = false.
Proof. exact (@startsWith_more newline marks). Qed.

Lemma plain_line_spec (p : jsstring) :
  plain_line p = true ->
  forallb not_line_terminator p = true /\ lacks backtick p = true /\
  lacks asterisk p = true /\ lacks 60 p = true /\
  str_eqb (trim p) [] = false /\
  (forall marks rest, In marks line_marks ->
     match rest with [] => True | c :: _ => c = newline end ->
     startsWith (p ++ rest) marks = false).
Proof.
  unfold plain_line; intros H.
  do 5 (apply andb_true_iff in H; destruct H as [H ?]).
  repeat split; try assumption; try (now apply negb_true_iff).
  intros marks rest Hin Hrest.
  pose proof (proj1 (forallb_forall _ _) H0 marks Hin) as Hm.
  apply negb_true_iff in Hm.
  apply startsWith_line; try assumption.
  destruct Hin as [<-|[<-|[<-|[<-|[]]]]]; reflexivity.
Qed.

Lemma plain_line_nonempty (p : jsstring) : plain_line p = true -> p <> [].
Proof.
  intros H ->. destruct (plain_line_spec _ H) as (_ & _ & _ & _ & F & _).
  discriminate.
Qed.

(** No line of plain paragraphs starts with a mark. *)
Lemma no_line_starts_paragraphs (marks : jsstring) (ps : list jsstring) :
  In marks line_marks -> forallb plain_line ps = true ->
  forall pv, no_line_starts marks pv (join [newline; newline] ps) = true.
Proof.
  intros Hin. induction ps as [|p ps IH]; intros H pv.
  - destruct Hin as [<-|[<-|[<-|[<-|[]]]]]; simpl; now rewrite andb_false_r.
  - simpl in H; apply andb_true_iff in H; destruct H as [Hp Hps].
    destruct (plain_line_spec _ Hp) as (Hlt & _ & _ & _ & _ & Hmarks).
    pose proof (plain_line_nonempty Hp) as Hne.
    assert (Hhead : startsWith [newline] marks = false /\
                    forall r, startsWith (newline :: r) marks = false).
    { destruct Hin as [<-|[<-|[<-|[<-|[]]]]]; split; reflexivity. }
    destruct p as [|x p]; [congruence|].
    assert (Hx : is_line_terminator x = false).
    { simpl in Hlt; apply andb_true_iff in Hlt; destruct Hlt as [Hx _].
      now apply negb_true_iff in Hx. }
    assert (Hp' : forallb not_line_terminator p = true).
    { simpl in Hlt; apply andb_true_iff in Hlt; tauto. }
    destruct ps as [|q ps].
    + simpl join. rewrite <- (app_nil_r (x :: p)).
      change (no_line_starts marks pv ((x :: p) ++ []))
        with (negb (at_bol pv && startsWith ((x :: p) ++ []) marks) &&
              no_line_starts marks (Some x) (p ++ [])).
      rewrite (Hmarks marks [] Hin I), andb_false_r.
      rewrite (no_line_starts_inside marks p [] Hp' x Hx).
      destruct (last_of_not_terminator p x Hp' Hx) as (y & -> & Hy).
      simpl. rewrite Hy. reflexivity.
    + change (join [newline; newline] ((x :: p) :: q :: ps))
        with ((x :: p) ++ newline :: newline :: join [newline; newline] (q :: ps)).
      set (rest := newline :: newline :: join [newline; newline] (q :: ps)).
      change (no_line_starts marks pv ((x :: p) ++ rest))
        with (negb (at_bol pv && startsWith ((x :: p) ++ rest) marks) &&
              no_line_starts marks (Some x) (p ++ rest)).
      rewrite (Hmarks marks rest Hin eq_refl), andb_false_r.
      rewrite (no_line_starts_inside marks p rest Hp' x Hx).
      destruct (last_of_not_terminator p x Hp' Hx) as (y & -> & Hy).
      unfold rest.
      change (no_line_starts marks (Some y)
                (newline :: newline :: join [newline; newline] (q :: ps)))
        with (negb (at_bol (Some y) &&
                    startsWith (newline :: newline ::
                                join [newline; newline] (q :: ps)) marks) &&
              (negb (at_bol (Some newline) &&
                     startsWith (newline :: join [newline; newline] (q :: ps))
                       marks) &&
               no_line_starts marks (Some newline)
                 (join [newline; newline] (q :: ps)))).
      rewrite !(proj2 Hhead), !andb_false_r. cbn [negb andb].
      apply IH; exact Hps.
Qed.

End PlainText.

(** X15.  Paragraphs of plain text, one line each and a blank line between
    them, come out one [div] each, on a line each; nothing else of the
    text changes. *)
Theorem parseMarkdown_plain_paragraphs (ps : list jsstring) :
  ps <> [] -> forallb plain_line ps = true ->
  parseMarkdown (join [newline; newline] ps) =
    join [newline] (map div_element ps).
Proof.
  intros Hne H.
  set (s := join [newline; newline] ps).
  assert (Hall : forall p, In p ps -> plain_line p = true)
    by (apply forallb_forall; exact H).
  assert (Hlacks : forall c, c <> newline ->
            (forall p, plain_line p = true -> lacks c p = true) ->
            lacks c s = true).
  { intros c Hc Hp. apply lacks_join.
    - unfold lacks; cbn [forallb]; unfold char_eqb.
      rewrite (proj2 (N.eqb_neq newline c)) by congruence. reflexivity.
    - apply forallb_forall; intros p Hin; apply Hp, Hall, Hin. }
  assert (Hbt : lacks backtick s = true).
  { apply Hlacks; [discriminate|]. intros p Hp.
    now destruct (plain_line_spec _ Hp) as (_ & ? & _). }
  assert (Hast : lacks asterisk s = true).
  { apply Hlacks; [discriminate|]. intros p Hp.
    now destruct (plain_line_spec _ Hp) as (_ & _ & ? & _). }
  assert (Hlt : lacks 60 s = true).
  { apply Hlacks; [discriminate|]. intros p Hp.
    now destruct (plain_line_spec _ Hp) as (_ & _ & _ & ? & _). }
  assert (Hs : s <> []).
  { unfold s. destruct ps as [|p ps]; [congruence|].
    pose proof (plain_line_nonempty (Hall p (or_introl eq_refl))) as Hp.
    destruct p as [|x p]; [congruence|].
    destruct ps; discriminate. }
  assert (E : parseMarkdown s = paragraphs s).
  { assert (E0 : parseMarkdown s = afterCodeBlocks (codeBlocks s)).
    { revert Hs. generalize s. intros [|c t] Hn; [congruence | reflexivity]. }
    rewrite E0, codeBlocks_id
      by (exact (@lacks_includes backtick [backtick; backtick] s Hbt)).
    unfold afterCodeBlocks, lists, headers.
    rewrite (@inlineCode_inert s Hbt).
    unfold header3, header2, header1, header_re, Seq.
    rewrite (@replace_line_pattern_id (js "### ") _ _ s)
      by (apply no_line_starts_paragraphs; [simpl; tauto | exact H]).
    rewrite (@replace_line_pattern_id (js "## ") _ _ s)
      by (apply no_line_starts_paragraphs; [simpl; tauto | exact H]).
    rewrite (@replace_line_pattern_id (js "# ") _ _ s)
      by (apply no_line_starts_paragraphs; [simpl; tauto | exact H]).
    rewrite (@bold_inert s Hast).
    unfold listItems, item_re, Seq.
    rewrite (@replace_line_pattern_id (js "- ") _ _ s)
      by (apply no_line_starts_paragraphs; [simpl; tauto | exact H]).
    rewrite listWrap_inert
      by (exact (@lacks_includes 60 (js "li") s Hlt)).
    reflexivity. }
  rewrite E. unfold paragraphs, s.
  rewrite (@split_join newline [newline] ps Hne).
  - f_equal. apply map_ext_in; intros p Hin.
    destruct (plain_line_spec _ (Hall p Hin)) as (_ & _ & _ & Hp & Ht & _).
    unfold paragraph, div_element.
    pose proof (@lacks_startsWith 60 [] (trim p) (@lacks_trim 60 p Hp)) as Hsw.
    change [60] with (js "<") in Hsw. rewrite Hsw, Ht.
    reflexivity.
  - intros p Hin. apply no_terminator_lacks_newline.
    now destruct (plain_line_spec _ (Hall p Hin)) as (? & _).
Qed.

Lemma parseMarkdown_plain_paragraphs_witness :
  parseMarkdown
    (join [newline; newline]
       [js "Hello, world."; js "Second paragraph & more."]) =
  join [newline]
    [div_element (js "Hello, world."); div_element (js "Second paragraph & more.")].
Proof.
  apply (@parseMarkdown_plain_paragraphs
           [js "Hello, world."; js "Second paragraph & more."]).
  - discriminate.
  - vm_compute; reflexivity.
Defined.

(** ** The line passes, line by line *)

Section LinePasses.

Variable marks : jsstring.
Variable tpl : jsstring.
Variable element : jsstring -> jsstring.

Hypothesis marks_nonempty : marks <> [].
Hypothesis marks_one_line : lacks newline marks = true.
Hypothesis tpl_element : forall matched t,
  replacement_text (header_re marks) (Template tpl) matched [Some t] = element t.

Lemma startsWith_split (l m : jsstring) :
  startsWith l m = true -> l = m ++ skipn (List.length m) l.
Proof.
  revert l; induction m as [|x m IH]; intros l H; [reflexivity|].
  destruct l as [|y l]; [discriminate|].
  simpl in H; apply andb_true_iff in H; destruct H as [Hxy Hm].
  apply N.eqb_eq in Hxy; subst y.
  simpl. f_equal. exact (IH l Hm).
Qed.

Lemma startsWith_newline (s : jsstring) :
  startsWith (newline :: s) marks = false.
Proof.
  destruct marks as [|m ms]; [congruence|].
  simpl in marks_one_line.
  apply andb_true_iff in marks_one_line; destruct marks_one_line as [H _].
  apply negb_true_iff in H. apply startsWith_head; exact H.
Qed.

Lemma groups_of_Lit (s : jsstring) : groups_of (Lit s) = [].
Proof. induction s as [|c [|d s] IH]; [reflexivity | reflexivity | exact IH]. Qed.

Lemma groups_of_header_re : groups_of (header_re marks) = [1%nat].
Proof. unfold header_re, Seq. cbn [groups_of]. now rewrite groups_of_Lit. Qed.

(** Where a line starts with the marks, the pattern matches the line to
    its end, with what follows the marks in group 1. *)
Lemma match_at_line (pv : option char) (t post : jsstring) :
  at_bol pv = true -> forallb not_line_terminator t = true ->
  match post with [] => True | c :: _ => c = newline end ->
  match_at (header_re marks) pv (marks ++ t ++ post) =
    Some (MState (last_of pv (marks ++ t)) post [Some t]).
Proof.
  intros Hpv Ht Hpost.
  unfold match_at. rewrite groups_of_header_re.
  change (clear_caps [1%nat] []) with [@None jsstring].
  unfold header_re, Seq.
  rewrite matcher_Cat, matcher_Bol; cbn [prev]; rewrite Hpv.
  rewrite matcher_Cat, matcher_Lit.
  rewrite matcher_Cat, matcher_Group; unfold Star, Dot.
  rewrite matcher_Repeat.
  apply repeat_greedy_run.
  - intros c Hc. exact (proj1 (forallb_forall _ _) Ht c Hc).
  - destruct post as [|c post]; [exact I | subst c; reflexivity].
  - cbn [rest Nat.add]; rewrite length_app; lia.
  - lia.
  - cbn [rest prev caps]. rewrite consumed_app, last_of_app.
    destruct post as [|c post]; [reflexivity | subst c; reflexivity].
Qed.

(** Inside a line the pattern does not match. *)
Lemma replace_go_line (l post : jsstring) :
  forallb not_line_terminator l = true ->
  forall c, is_line_terminator c = false ->
    replace_go (header_re marks) (Template tpl) (Some c) 0 (l ++ post) =
    l ++ replace_go (header_re marks) (Template tpl)
           (last_of (Some c) l) 0 post.
Proof.
  induction l as [|x l IH]; intros H c Hc; [reflexivity|].
  simpl in H; apply andb_true_iff in H; destruct H as [Hx Hl].
  unfold not_line_terminator in Hx; apply negb_true_iff in Hx.
  change ((x :: l) ++ post) with (x :: l ++ post).
  rewrite replace_go_copy
    by (apply match_at_line_pattern; left; exact Hc).
  rewrite (IH Hl x Hx), last_of_cons. reflexivity.
Qed.

(** The pass on lines joined by line feeds. *)
Lemma replace_go_lines (ls : list jsstring) :
  forallb (forallb not_line_terminator) ls = true ->
  forall pv, at_bol pv = true ->
    replace_go (header_re marks) (Template tpl) pv 0 (join [newline] ls) =
    join [newline] (map (line_pass marks element) ls).
Proof.
  assert (Hnil : forall p,
            replace_go (header_re marks) (Template tpl) p 0 [] = []).
  { intros p. cbn [replace_go].
    assert (E : match_at (header_re marks) p [] = None).
    { apply match_at_line_pattern.
      right. destruct marks; [congruence | reflexivity]. }
    rewrite E. reflexivity. }
  induction ls as [|l ls IH]; intros H pv Hpv; [apply Hnil|].
  simpl in H; apply andb_true_iff in H; destruct H as [Hl Hls].
  set (tail := match ls with [] => [] | _ => newline :: join [newline] ls end).
  set (tail' := match ls with
                | [] => []
                | _ => newline :: join [newline] (map (line_pass marks element) ls)
                end).
  assert (Ej : join [newline] (l :: ls) = l ++ tail).
  { unfold tail; destruct ls; [simpl; now rewrite app_nil_r | reflexivity]. }
  assert (Ej' : join [newline] (map (line_pass marks element) (l :: ls)) =
                line_pass marks element l ++ tail').
  { unfold tail'; destruct ls; [simpl; now rewrite app_nil_r | reflexivity]. }
  assert (Htail : forall p,
            replace_go (header_re marks) (Template tpl) p 0 tail = tail').
  { intros p. unfold tail, tail'. destruct ls as [|l2 ls']; [apply Hnil|].
    rewrite replace_go_copy
      by (apply match_at_line_pattern; right; apply startsWith_newline).
    f_equal. apply IH; [exact Hls | reflexivity]. }
  assert (Hshape : match tail with [] => True | c :: _ => c = newline end).
  { unfold tail; destruct ls; [exact I | reflexivity]. }
  rewrite Ej, Ej'. unfold line_pass.
  destruct (startsWith l marks) eqn:Hsw.
  - pose proof (startsWith_split _ _ Hsw) as El.
    set (t := skipn (List.length marks) l) in *.
    assert (Ht : forallb not_line_terminator t = true).
    { rewrite El, forallb_app in Hl. apply andb_true_iff in Hl; tauto. }
    rewrite El.
    pose proof (@match_at_line pv t tail Hpv Ht Hshape) as M.
    rewrite app_assoc in M.
    assert (Hne : marks ++ t <> []).
    { destruct marks; [congruence | discriminate]. }
    rewrite (@replace_go_match (header_re marks) (Template tpl) pv
               (marks ++ t) tail _ Hne M eq_refl).
    cbn [caps]. rewrite tpl_element, Htail. reflexivity.
  - destruct l as [|x l]; [exact (Htail pv)|].
    assert (Hx : is_line_terminator x = false).
    { simpl in Hl; apply andb_true_iff in Hl; destruct Hl as [Hx _].
      now apply negb_true_iff in Hx. }
    assert (Hl' : forallb not_line_terminator l = true).
    { simpl in Hl; apply andb_true_iff in Hl; tauto. }
    change ((x :: l) ++ tail) with (x :: l ++ tail).
    rewrite replace_go_copy.
    + rewrite (@replace_go_line l tail Hl' x Hx), Htail. reflexivity.
    + apply match_at_line_pattern; right.
      change (x :: l ++ tail) with ((x :: l) ++ tail).
      apply startsWith_line; assumption.
Qed.

End LinePasses.

Lemma h3_template_text (matched t : jsstring) :
  replacement_text (header_re (js "### ")) (Template h3_template) matched
    [Some t] = h3_of t.
Proof.
  unfold h3_of, quoted. cbn. rewrite <- ?app_assoc. reflexivity.
Qed.

Lemma h2_template_text (matched t : jsstring) :
  replacement_text (header_re (js "## ")) (Template h2_template) matched
    [Some t] = h2_of t.
Proof.
  unfold h2_of, quoted. cbn. rewrite <- ?app_assoc. reflexivity.
Qed.

Lemma h1_template_text (matched t : jsstring) :
  replacement_text (header_re (js "# ")) (Template h1_template) matched
    [Some t] = h1_of t.
Proof.
  unfold h1_of, quoted. cbn. rewrite <- ?app_assoc. reflexivity.
Qed.

Lemma item_template_text (matched t : jsstring) :
  replacement_text (header_re (js "- ")) (Template item_template) matched
    [Some t] = li_of t.
Proof.
  unfold li_of, quoted. cbn. rewrite <- ?app_assoc. reflexivity.
Qed.

Lemma header3_lines (ls : list jsstring) :
  forallb (forallb not_line_terminator) ls = true ->
  header3 (join [newline] ls) =
    join [newline] (map (line_pass (js "### ") h3_of) ls).
Proof.
  intros H. unfold header3, replace.
  apply (@replace_go_lines (js "### ") h3_template h3_of);
    [discriminate | reflexivity | exact h3_template_text | exact H | reflexivity].
Qed.

Lemma header2_lines (ls : list jsstring) :
  forallb (forallb not_line_terminator) ls = true ->
  header2 (join [newline] ls) =
    join [newline] (map (line_pass (js "## ") h2_of) ls).
Proof.
  intros H. unfold header2, replace.
  apply (@replace_go_lines (js "## ") h2_template h2_of);
    [discriminate | reflexivity | exact h2_template_text | exact H | reflexivity].
Qed.

Lemma header1_lines (ls : list jsstring) :
  forallb (forallb not_line_terminator) ls = true ->
  header1 (join [newline] ls) =
    join [newline] (map (line_pass (js "# ") h1_of) ls).
Proof.
  intros H. unfold header1, replace.
  apply (@replace_go_lines (js "# ") h1_template h1_of);
    [discriminate | reflexivity | exact h1_template_text | exact H | reflexivity].
Qed.

Lemma listItems_lines (ls : list jsstring) :
  forallb (forallb not_line_terminator) ls = true ->
  listItems (join [newline] ls) =
    join [newline] (map (line_pass (js "- ") li_of) ls).
Proof.
  intros H. unfold listItems, replace.
  apply (@replace_go_lines (js "- ") item_template li_of);
    [discriminate | reflexivity | exact item_template_text | exact H | reflexivity].
Qed.

(** X16.  Each of the four line passes works line by line: a line that starts
    with the marks of the pass becomes the element of the pass around the
    rest of the line, taken as it is; every other line is copied. *)
Theorem line_passes_by_line (ls : list jsstring) :
  forallb (forallb not_line_terminator) ls = true ->
  header3 (join [newline] ls) =
    join [newline] (map (line_pass (js "### ") h3_of) ls) /\
  header2 (join [newline] ls) =
    join [newline] (map (line_pass (js "## ") h2_of) ls) /\
  header1 (join [newline] ls) =
    join [newline] (map (line_pass (js "# ") h1_of) ls) /\
  listItems (join [newline] ls) =
    join [newline] (map (line_pass (js "- ") li_of) ls).
Proof.
  intros H. repeat split.
  - exact (header3_lines ls H).
  - exact (header2_lines ls H).
  - exact (header1_lines ls H).
  - exact (listItems_lines ls H).
Qed.

Lemma line_passes_by_line_witness :
  header2 (join [newline] [js "## One"; js "two ## three"; js "##four"]) =
    join [newline] [h2_of (js "One"); js "two ## three"; js "##four"].
Proof.
  apply (proj1 (proj2 (@line_passes_by_line
                         [js "## One"; js "two ## three"; js "##four"]
                         eq_refl))).
Defined.

(** ** Elements on one line *)

Section Elements.

Lemma trim_head (c : char) (s : jsstring) :
  is_space c = false -> exists s', trim (c :: s) = c :: s'.
Proof.
  intros Hc. destruct (trim_decompose (c :: s)) as (w1 & w2 & E & H1 & H2 & _).
  destruct w1 as [|x w1].
  - destruct (trim (c :: s)) as [|y u].
    + simpl in E. subst w2. simpl in H2. rewrite Hc in H2. discriminate.
    + simpl in E. injection E as -> _. now exists u.
  - simpl in E. injection E as <- _.
    simpl in H1. rewrite Hc in H1. discriminate.
Qed.

Lemma no_line_starts_one_line (marks s : jsstring) :
  forallb not_line_terminator s = true -> startsWith s marks = false ->
  no_line_starts marks None s = true.
Proof.
  intros Hs Hsw. destruct s as [|x s].
  - simpl. now rewrite Hsw.
  - simpl in Hs; apply andb_true_iff in Hs; destruct Hs as [Hx Hs].
    unfold not_line_terminator in Hx; apply negb_true_iff in Hx.
    change (no_line_starts marks None (x :: s))
      with (negb (at_bol None && startsWith (x :: s) marks) &&
            no_line_starts marks (Some x) s).
    rewrite Hsw, andb_false_r. cbn [negb andb].
    rewrite <- (app_nil_r s).
    rewrite (@no_line_starts_inside marks s [] Hs x Hx).
    destruct (@last_of_not_terminator s x Hs Hx) as (y & -> & Hy).
    simpl. rewrite Hy. reflexivity.
Qed.

(** What inertness gives, pass by pass. *)
Lemma inert_passes (html : jsstring) :
  inert html = true ->
  inlineCode html = html /\ header3 html = html /\ header2 html = html /\
  header1 html = html /\ bold html = html /\ listItems html = html /\
  listWrap html = html /\ paragraphs html = html.
Proof.
  unfold inert; intros H.
  repeat (apply andb_true_iff in H; destruct H as [H ?]).
  repeat split.
  - exact (@inlineCode_inert html H).
  - exact (@replace_line_pattern_id (js "### ") _ _ html H6).
  - exact (@replace_line_pattern_id (js "## ") _ _ html H5).
  - exact (@replace_line_pattern_id (js "# ") _ _ html H4).
  - exact (@bold_inert html H7).
  - exact (@replace_line_pattern_id (js "- ") _ _ html H3).
  - apply listWrap_inert. now apply negb_true_iff.
  - apply paragraphs_inert; [now apply negb_true_iff | assumption].
Qed.

Lemma lacks_includes_app (c : char) (m t s : jsstring) :
  lacks c t = true -> includes (t ++ s) (c :: m) = includes s (c :: m).
Proof.
  induction t as [|x t IH]; intros H; [reflexivity|].
  simpl in H; apply andb_true_iff in H; destruct H as [Hx Ht].
  apply negb_true_iff in Hx.
  change (includes ((x :: t) ++ s) (c :: m))
    with (startsWith (x :: t ++ s) (c :: m) || includes (t ++ s) (c :: m)).
  rewrite (@startsWith_head c x (t ++ s) m), (IH Ht); [reflexivity|].
  unfold char_eqb in *. now rewrite N.eqb_sym.
Qed.

Lemma plain_text_spec (t : jsstring) :
  plain_text t = true ->
  forallb not_line_terminator t = true /\ lacks backtick t = true /\
  lacks asterisk t = true /\ lacks 60 t = true.
Proof.
  unfold plain_text; intros H.
  do 3 (apply andb_true_iff in H; destruct H as [H ?]). tauto.
Qed.

Variables front middle back : jsstring.

Hypothesis front_plain : plain_text front = true.
Hypothesis middle_plain : plain_text middle = true.
Hypothesis back_plain : plain_text back = true.
Hypothesis front_li : forall s,
  includes (js "<" ++ front ++ s) (js "<li") = includes s (js "<li").
Hypothesis back_li : includes (js "<" ++ back) (js "<li") = false.

(** An element on one line: an opening angle bracket, then plain text up
    to the last opening angle bracket, which starts the closing tag;
    neither bracket starts [<li]. *)
Lemma element_inert (t1 t2 : jsstring) :
  plain_text t1 = true -> plain_text t2 = true ->
  inert (js "<" ++ front ++ t1 ++ middle ++ t2 ++ js "<" ++ back) = true.
Proof.
  intros H1 H2.
  destruct (plain_text_spec _ H1) as (L1 & B1 & A1 & M1).
  destruct (plain_text_spec _ H2) as (L2 & B2 & A2 & M2).
  destruct (plain_text_spec _ front_plain) as (Lf & Bf & Af & Mf).
  destruct (plain_text_spec _ middle_plain) as (Lm & Bm & Am & Mm).
  destruct (plain_text_spec _ back_plain) as (Lb & Bb & Ab & Mb).
  set (E := js "<" ++ front ++ t1 ++ middle ++ t2 ++ js "<" ++ back).
  assert (HL : forallb not_line_terminator E = true).
  { unfold E. rewrite !forallb_app.
    rewrite L1, L2, Lf, Lm, Lb. reflexivity. }
  assert (HB : lacks backtick E = true).
  { unfold E. rewrite !lacks_app.
    rewrite B1, B2, Bf, Bm, Bb. reflexivity. }
  assert (HA : lacks asterisk E = true).
  { unfold E. rewrite !lacks_app.
    rewrite A1, A2, Af, Am, Ab. reflexivity. }
  assert (Hmarks : forall marks, In marks line_marks ->
            no_line_starts marks None E = true).
  { intros marks Hin. apply no_line_starts_one_line; [exact HL|].
    unfold E. destruct Hin as [<-|[<-|[<-|[<-|[]]]]]; reflexivity. }
  assert (Hli : includes E (js "<li") = false).
  { unfold E. rewrite front_li.
    rewrite (@lacks_includes_app 60 (js "li") t1 _ M1).
    rewrite (@lacks_includes_app 60 (js "li") middle _ Mm).
    rewrite (@lacks_includes_app 60 (js "li") t2 _ M2).
    exact back_li. }
  assert (Hnn : includes E [newline; newline] = false).
  { apply (@lacks_includes newline [newline]).
    apply no_terminator_lacks_newline. exact HL. }
  assert (Htrim : startsWith (trim E) (js "<") = true).
  { destruct (@trim_head 60 (front ++ t1 ++ middle ++ t2 ++ js "<" ++ back)
                eq_refl) as (s' & Es).
    replace (trim E) with (60 :: s') by (symmetry; exact Es).
    reflexivity. }
  unfold inert. fold E.
  change (forallb not_backtick E) with (lacks backtick E).
  change (forallb not_asterisk E) with (lacks asterisk E).
  rewrite HB, HA, Hli, Hnn, Htrim.
  rewrite !Hmarks by (simpl; tauto).
  reflexivity.
Qed.

End Elements.

Lemma h3_of_inert (t : jsstring) : plain_text t = true -> inert (h3_of t) = true.
Proof.
  intros H.
  refine (eq_trans _ (@element_inert (js "h3 id=" ++ [dquote])
            (dquote :: js " class=" ++
             quoted (js "text-2xl font-bold mt-8 mb-4") ++ js ">")
            (js "/h3>") eq_refl eq_refl eq_refl _ eq_refl t t H H)).
  - f_equal; unfold h3_of, quoted; cbn; rewrite <- ?app_assoc; reflexivity.
  - intros s. reflexivity.
Qed.

Lemma h2_of_inert (t : jsstring) : plain_text t = true -> inert (h2_of t) = true.
Proof.
  intros H.
  refine (eq_trans _ (@element_inert (js "h2 id=" ++ [dquote])
            (dquote :: js " class=" ++
             quoted (js "text-3xl font-bold mt-12 mb-6") ++ js ">")
            (js "/h2>") eq_refl eq_refl eq_refl _ eq_refl t t H H)).
  - f_equal; unfold h2_of, quoted; cbn; rewrite <- ?app_assoc; reflexivity.
  - intros s. reflexivity.
Qed.

Lemma h1_of_inert (t : jsstring) : plain_text t = true -> inert (h1_of t) = true.
Proof.
  intros H.
  refine (eq_trans _ (@element_inert
            (js "h1 class=" ++ quoted (js "text-4xl font-bold mt-8 mb-6") ++
             js ">")
            [] (js "/h1>") eq_refl eq_refl eq_refl _ eq_refl t [] H eq_refl)).
  - f_equal; unfold h1_of, quoted; cbn; rewrite <- ?app_assoc; reflexivity.
  - intros s. reflexivity.
Qed.

Lemma strong_of_inert (t : jsstring) :
  plain_text t = true -> inert (strong_of t) = true.
Proof.
  intros H.
  refine (eq_trans _ (@element_inert
            (js "strong class=" ++ quoted (js "font-bold") ++ js ">")
            [] (js "/strong>") eq_refl eq_refl eq_refl _ eq_refl t [] H eq_refl)).
  - f_equal; unfold strong_of, quoted; cbn; rewrite <- ?app_assoc; reflexivity.
  - intros s. reflexivity.
Qed.

(** ** Headers, end to end *)

Lemma one_line (s : jsstring) : join [newline] [s] = s.
Proof. reflexivity. Qed.

(** The passes before the header passes leave a text without backticks
    alone. *)
Lemma parseMarkdown_no_backtick (c : char) (s : jsstring) :
  lacks backtick (c :: s) = true ->
  parseMarkdown (c :: s) =
    paragraphs (lists (bold (headers (c :: s)))).
Proof.
  intros H. rewrite parseMarkdown_nonempty.
  rewrite codeBlocks_id
    by (exact (@lacks_includes backtick [backtick; backtick] (c :: s) H)).
  unfold afterCodeBlocks. now rewrite (@inlineCode_inert (c :: s) H).
Qed.

(** The passes after the header passes leave an inert text alone. *)
Lemma after_headers_inert (html : jsstring) :
  inert html = true -> paragraphs (lists (bold html)) = html.
Proof.
  intros H. destruct (inert_passes html H) as (_ & _ & _ & _ & Hb & Hi & Hw & Hp).
  unfold lists. now rewrite Hb, Hi, Hw, Hp.
Qed.

(** X17.  A header line alone is rendered as the header element of its level
    around the text after the marks, and the [id] attribute of the second
    and third level is that text as written. *)
Theorem parseMarkdown_header (t : jsstring) :
  plain_text t = true ->
  parseMarkdown (js "### " ++ t) = h3_of t /\
  parseMarkdown (js "## " ++ t) = h2_of t /\
  parseMarkdown (js "# " ++ t) = h1_of t.
Proof.
  intros H. destruct (plain_text_spec _ H) as (HL & HB & _ & _).
  assert (Hline : forall marks, forallb not_line_terminator marks = true ->
            forallb (forallb not_line_terminator) [marks ++ t] = true).
  { intros marks Hm. cbn [forallb]. now rewrite forallb_app, Hm, HL. }
  assert (Hbt : forall marks, lacks backtick marks = true ->
            lacks backtick (marks ++ t) = true).
  { intros marks Hm. now rewrite lacks_app, Hm, HB. }
  destruct (inert_passes _ (h3_of_inert t H)) as (_ & _ & H32 & H31 & _).
  destruct (inert_passes _ (h2_of_inert t H)) as (_ & _ & _ & H21 & _).
  repeat split.
  - change (js "### " ++ t) with (35 :: js "## " ++ t).
    rewrite parseMarkdown_no_backtick by (exact (Hbt (js "### ") eq_refl)).
    unfold headers.
    change (35 :: js "## " ++ t) with (join [newline] [js "### " ++ t]).
    rewrite header3_lines by (exact (Hline (js "### ") eq_refl)).
    change (join [newline] (map (line_pass (js "### ") h3_of) [js "### " ++ t]))
      with (h3_of t).
    rewrite H32, H31. apply after_headers_inert, h3_of_inert, H.
  - change (js "## " ++ t) with (35 :: js "# " ++ t).
    rewrite parseMarkdown_no_backtick by (exact (Hbt (js "## ") eq_refl)).
    unfold headers.
    change (35 :: js "# " ++ t) with (join [newline] [js "## " ++ t]).
    rewrite header3_lines by (exact (Hline (js "## ") eq_refl)).
    change (join [newline] (map (line_pass (js "### ") h3_of) [js "## " ++ t]))
      with (join [newline] [js "## " ++ t]).
    rewrite header2_lines by (exact (Hline (js "## ") eq_refl)).
    change (join [newline] (map (line_pass (js "## ") h2_of) [js "## " ++ t]))
      with (h2_of t).
    rewrite H21. apply after_headers_inert, h2_of_inert, H.
  - change (js "# " ++ t) with (35 :: js " " ++ t).
    rewrite parseMarkdown_no_backtick by (exact (Hbt (js "# ") eq_refl)).
    unfold headers.
    change (35 :: js " " ++ t) with (join [newline] [js "# " ++ t]).
    rewrite header3_lines by (exact (Hline (js "# ") eq_refl)).
    change (join [newline] (map (line_pass (js "### ") h3_of) [js "# " ++ t]))
      with (join [newline] [js "# " ++ t]).
    rewrite header2_lines by (exact (Hline (js "# ") eq_refl)).
    change (join [newline] (map (line_pass (js "## ") h2_of) [js "# " ++ t]))
      with (join [newline] [js "# " ++ t]).
    rewrite header1_lines by (exact (Hline (js "# ") eq_refl)).
    change (join [newline] (map (line_pass (js "# ") h1_of) [js "# " ++ t]))
      with (h1_of t).
    apply after_headers_inert, h1_of_inert, H.
Qed.

Lemma parseMarkdown_header_witness :
  parseMarkdown (js "## Say " ++ quoted (js "hi") ++ js " & go") =
    h2_of (js "Say " ++ quoted (js "hi") ++ js " & go").
Proof.
  apply (proj1 (proj2 (@parseMarkdown_header
                         (js "Say " ++ quoted (js "hi") ++ js " & go")
                         eq_refl))).
Defined.

(** ** The bold pass *)

Section Bold.

Lemma match_at_bold (p : option char) (body post : jsstring) :
  body <> [] -> lacks asterisk body = true ->
  match_at bold_re p (js "**" ++ body ++ js "**" ++ post) =
    Some (MState (Some asterisk) post [Some body]).
Proof.
  intros Hne Hbody.
  unfold match_at, bold_re, Seq.
  change (clear_caps _ []) with [@None jsstring].
  rewrite matcher_Cat, matcher_Lit.
  rewrite matcher_Cat, matcher_Group; unfold Plus, NotChr.
  rewrite matcher_Repeat.
  apply repeat_greedy_run.
  - intros c Hc. pose proof (@lacks_In asterisk body c Hbody Hc) as H.
    cbv beta. now rewrite H.
  - reflexivity.
  - cbn [rest Nat.add]; rewrite length_app; lia.
  - destruct body; [congruence | simpl; lia].
  - cbn [rest prev caps]. rewrite consumed_app, matcher_Lit.
    reflexivity.
Qed.

Lemma bold_template_text (matched body : jsstring) :
  replacement_text bold_re (Template bold_template) matched [Some body]
    = strong_of body.
Proof. unfold strong_of, quoted. cbn. rewrite <- ?app_assoc. reflexivity. Qed.

(** The pass on a text whose first asterisks open a span. *)
Lemma bold_span (pre body post : jsstring) :
  lacks asterisk pre = true ->
  body <> [] -> lacks asterisk body = true ->
  bold (pre ++ js "**" ++ body ++ js "**" ++ post) =
    pre ++ strong_of body ++ bold post.
Proof.
  intros Hpre Hne Hbody; unfold bold, replace.
  generalize (@None char) at 1; induction pre as [|c pre IH]; intros p.
  - assert (E : (js "**" ++ body ++ js "**") ++ post
                = js "**" ++ body ++ js "**" ++ post)
      by (now rewrite <- !app_assoc).
    change ([] ++ js "**" ++ body ++ js "**" ++ post)
      with (js "**" ++ body ++ js "**" ++ post).
    rewrite <- E.
    assert (M : match_at bold_re p ((js "**" ++ body ++ js "**") ++ post)
                = Some (MState (Some asterisk) post [Some body]))
      by (rewrite E; apply match_at_bold; assumption).
    clear E.
    rewrite (@replace_go_match bold_re (Template bold_template) p
               (js "**" ++ body ++ js "**") post _
               ltac:(discriminate) M eq_refl).
    cbn [caps]. rewrite bold_template_text.
    rewrite (@replace_go_prev bold_re (Template bold_template) post eq_refl
               0%nat _ None).
    reflexivity.
  - simpl in Hpre; apply andb_true_iff in Hpre; destruct Hpre as [Hc Hpre].
    change ((c :: pre) ++ js "**" ++ body ++ js "**" ++ post)
      with (c :: pre ++ js "**" ++ body ++ js "**" ++ post).
    rewrite replace_go_copy.
    + rewrite (IH Hpre); reflexivity.
    + unfold bold_re, Seq. apply match_at_literal.
      apply startsWith_head. apply negb_true_iff in Hc.
      unfold char_eqb in *. now rewrite N.eqb_sym.
Qed.

End Bold.

(** X18.  The bold pass replaces the first span between double asterisks by a
    [strong] element around the text of the span, which may run over
    several lines, and goes on after the span. *)
Theorem bold_first_span (pre body post : jsstring) :
  lacks asterisk pre = true ->
  body <> [] -> lacks asterisk body = true ->
  bold (pre ++ js "**" ++ body ++ js "**" ++ post) =
    pre ++ strong_of body ++ bold post.
Proof. exact (@bold_span pre body post). Qed.

Lemma bold_first_span_witness :
  bold (js "a **b" ++ [newline] ++ js "c** d **e**") =
    js "a " ++ strong_of (js "b" ++ [newline] ++ js "c") ++ bold (js " d **e**").
Proof.
  apply (@bold_first_span (js "a ") (js "b" ++ [newline] ++ js "c")
           (js " d **e**")).
  - reflexivity.
  - discriminate.
  - reflexivity.
Defined.

(** ** Bold text, end to end *)

Section BoldParagraph.

Lemma trim_app_head (a rest : jsstring) :
  str_eqb (trim a) [] = false ->
  exists c s', In c a /\ trim (a ++ rest) = c :: s'.
Proof.
  intros Hne.
  destruct (trim_decompose a) as (w1 & w2 & E & H1 & _ & _ & Hb).
  destruct (trim a) as [|c u] eqn:Et; [discriminate|].
  assert (Hc : is_space c = false) by (apply Hb; discriminate).
  destruct (@trim_head c (u ++ w2 ++ rest) Hc) as (s' & Es).
  exists c, s'. split.
  - rewrite E. apply in_or_app; right. left; reflexivity.
  - rewrite E. rewrite <- !app_assoc.
    unfold trim, trimStart. rewrite drop_while_app by exact H1.
    change ((c :: u) ++ w2 ++ rest) with (c :: u ++ w2 ++ rest).
    unfold trim, trimStart in Es. exact Es.
Qed.

Lemma headers_one_line (s : jsstring) :
  forallb not_line_terminator s = true ->
  startsWith s (js "### ") = false -> startsWith s (js "## ") = false ->
  startsWith s (js "# ") = false ->
  headers s = s.
Proof.
  intros HL H3 H2 H1. unfold headers, header3, header2, header1, header_re, Seq.
  rewrite (@replace_line_pattern_id (js "### ") _ _ s)
    by (apply no_line_starts_one_line; assumption).
  rewrite (@replace_line_pattern_id (js "## ") _ _ s)
    by (apply no_line_starts_one_line; assumption).
  apply replace_line_pattern_id, no_line_starts_one_line; assumption.
Qed.

Lemma listItems_one_line (s : jsstring) :
  forallb not_line_terminator s = true -> startsWith s (js "- ") = false ->
  listItems s = s.
Proof.
  intros HL H. unfold listItems, item_re, Seq.
  apply replace_line_pattern_id, no_line_starts_one_line; assumption.
Qed.

Lemma paragraphs_one_line (s : jsstring) :
  forallb not_line_terminator s = true -> paragraphs s = paragraph s.
Proof.
  intros HL. unfold paragraphs, split.
  rewrite split_go_no_sep; [reflexivity | | discriminate].
  apply (@lacks_includes newline [newline]).
  apply no_terminator_lacks_newline. exact HL.
Qed.

Lemma strong_of_one_line (t : jsstring) :
  forallb not_line_terminator t = true ->
  forallb not_line_terminator (strong_of t) = true.
Proof.
  intros H. unfold strong_of, quoted. rewrite !forallb_app, H. reflexivity.
Qed.

Lemma strong_of_li (t rest : jsstring) :
  lacks 60 t = true ->
  includes (strong_of t ++ rest) (js "<li") = includes rest (js "<li").
Proof.
  intros H. unfold strong_of. rewrite <- !app_assoc.
  transitivity (includes (t ++ js "</strong>" ++ rest) (js "<li"));
    [reflexivity|].
  rewrite (@lacks_includes_app 60 (js "li") t _ H). reflexivity.
Qed.

End BoldParagraph.

(** X19.  A text that is one bold span is rendered as the [strong] element
    alone, without a [div] around it; a paragraph of plain text that
    contains a bold span is rendered as a [div] with the [strong] element
    in the place of the span. *)
Theorem parseMarkdown_bold (t : jsstring) :
  t <> [] -> plain_text t = true ->
  parseMarkdown (js "**" ++ t ++ js "**") = strong_of t /\
  (forall a b, plain_line a = true -> plain_text b = true ->
     parseMarkdown (a ++ js "**" ++ t ++ js "**" ++ b) =
       div_element (a ++ strong_of t ++ b)).
Proof.
  intros Hne H. destruct (plain_text_spec _ H) as (HL & HB & HA & HM).
  split.
  - set (s := js "**" ++ t ++ js "**").
    assert (Hbt : lacks backtick s = true).
    { unfold s. now rewrite !lacks_app, HB. }
    assert (Hs : forallb not_line_terminator s = true).
    { unfold s. now rewrite !forallb_app, HL. }
    assert (E : parseMarkdown s = paragraphs (lists (bold (headers s)))).
    { exact (@parseMarkdown_no_backtick 42 (42 :: t ++ js "**") Hbt). }
    rewrite E, (@headers_one_line s Hs eq_refl eq_refl eq_refl).
    assert (Eb : bold s = strong_of t).
    { pose proof (@bold_span [] t [] eq_refl Hne HA) as Eb.
      change (bold []) with (@nil char) in Eb.
      rewrite !app_nil_r in Eb. exact Eb. }
    rewrite Eb.
    destruct (inert_passes _ (strong_of_inert t H))
      as (_ & _ & _ & _ & _ & Hi & Hw & Hp).
    unfold lists. now rewrite Hi, Hw, Hp.
  - intros a b Ha Hb.
    destruct (plain_line_spec _ Ha) as (La & Ba & Aa & Ma & Ta & Hmarks).
    destruct (plain_text_spec _ Hb) as (Lb & Bb & Ab & Mb).
    set (s := a ++ js "**" ++ t ++ js "**" ++ b).
    assert (Hbt : lacks backtick s = true).
    { unfold s. now rewrite !lacks_app, Ba, HB, Bb. }
    assert (Hs : forallb not_line_terminator s = true).
    { unfold s. now rewrite !forallb_app, La, HL, Lb. }
    assert (Hane : a <> []) by (exact (plain_line_nonempty Ha)).
    assert (E : parseMarkdown s = paragraphs (lists (bold (headers s)))).
    { unfold s. destruct a as [|x a']; [congruence|].
      exact (@parseMarkdown_no_backtick x _ Hbt). }
    assert (Hsw : forall marks, In marks line_marks ->
              startsWith s marks = false).
    { intros marks Hin. unfold s.
      apply (@startsWith_more asterisk marks).
      - destruct Hin as [<-|[<-|[<-|[<-|[]]]]]; reflexivity.
      - rewrite <- (app_nil_r a). exact (Hmarks marks [] Hin I).
      - reflexivity. }
    rewrite E.
    rewrite (@headers_one_line s Hs) by (apply Hsw; simpl; tauto).
    unfold s. rewrite (@bold_span a t b Aa Hne HA).
    rewrite (@bold_inert b Ab).
    set (s' := a ++ strong_of t ++ b).
    assert (Hs' : forallb not_line_terminator s' = true).
    { unfold s'. now rewrite !forallb_app, La, (strong_of_one_line t HL), Lb. }
    unfold lists.
    rewrite (@listItems_one_line s' Hs').
    + rewrite listWrap_inert.
      * rewrite (@paragraphs_one_line s' Hs').
        destruct (@trim_app_head a (strong_of t ++ b)) as (c & u & Hin & Et).
        { apply negb_true_iff. now apply negb_true_iff in Ta. }
        unfold paragraph. fold s' in Et. rewrite Et.
        pose proof (@lacks_In 60 a c Ma Hin) as Hc.
        change (startsWith (c :: u) (js "<")) with (char_eqb 60 c && true).
        rewrite Hc. reflexivity.
      * unfold s'. rewrite (@lacks_includes_app 60 (js "li") a _ Ma).
        change (includes (strong_of t ++ b) (js "<li") = false).
        rewrite (@strong_of_li t b HM).
        exact (@lacks_includes 60 (js "li") b Mb).
    + unfold s'. apply (@startsWith_more 60 (js "- ")); [reflexivity | | reflexivity].
      rewrite <- (app_nil_r a). apply (Hmarks (js "- ") []); [simpl; tauto | exact I].
Qed.

Lemma parseMarkdown_bold_witness :
  parseMarkdown (js "**now**") = strong_of (js "now") /\
  parseMarkdown (js "Do it **now**, please.") =
    div_element (js "Do it " ++ strong_of (js "now") ++ js ", please.").
Proof.
  split.
  - apply (proj1 (@parseMarkdown_bold (js "now") ltac:(discriminate) eq_refl)).
  - apply (proj2 (@parseMarkdown_bold (js "now") ltac:(discriminate) eq_refl)
             (js "Do it ") (js ", please.")); reflexivity.
Defined.

(** ** A greedy quantifier that gives back *)

Section GreedyBacktrack.

Variable pc : char -> bool.

(** Where the rest of the pattern matches at no position of the run, the
    quantifier fails. *)
Lemma repeat_greedy_fail (fuel : nat) :
  forall (run : jsstring) (pv : option char) (s : jsstring) cs
         (k : continuation),
    (forall c, In c run -> pc c = true) ->
    match s with [] => True | c :: _ => pc c = false end ->
    (forall r1 r2, run = r1 ++ r2 ->
       k (MState (last_of pv r1) (r2 ++ s) cs) = None) ->
    repeat_matcher (matcher (Chars pc)) [] true fuel 0 None
      (MState pv (run ++ s) cs) k = None.
Proof.
  induction fuel as [|fuel IH]; intros run pv s cs k Hrun Hstop Hk;
    [reflexivity|].
  pose proof (Hk [] run eq_refl) as H0. rewrite last_of_nil in H0.
  destruct run as [|c run].
  - simpl in H0 |- *. destruct s as [|c s]; simpl.
    + exact H0.
    + rewrite Hstop. exact H0.
  - assert (Hc : pc c = true) by (apply Hrun; left; reflexivity).
    assert (Hrec : repeat_matcher (matcher (Chars pc)) [] true fuel 0 None
                     (MState (Some c) (run ++ s) cs) k = None).
    { apply IH; auto.
      - intros c' Hc'; apply Hrun; right; exact Hc'.
      - intros r1 r2 E. specialize (Hk (c :: r1) r2).
        rewrite last_of_cons in Hk. apply Hk. simpl; now rewrite E. }
    cbn [repeat_matcher app rest prev caps clear_caps fold_left option_map
         Nat.eqb negb Nat.pred].
    rewrite matcher_Chars, Hc.
    cbn [rest]. rewrite length_cons_neq. cbn [andb]. rewrite Hrec.
    exact H0.
Qed.

(** Where the rest of the pattern matches before [tail] and at no
    position further into the run, the quantifier stops before [tail]. *)
Lemma repeat_greedy_backtrack (body tail : jsstring) :
  forall (fuel : nat) (pv : option char) (s : jsstring) cs
         (k : continuation) (z : mstate),
    (forall c, In c (body ++ tail) -> pc c = true) ->
    match s with [] => True | c :: _ => pc c = false end ->
    (List.length body < fuel)%nat ->
    (forall t1 t2, tail = t1 ++ t2 -> t1 <> [] ->
       k (MState (last_of pv (body ++ t1)) (t2 ++ s) cs) = None) ->
    k (MState (last_of pv body) (tail ++ s) cs) = Some z ->
    repeat_matcher (matcher (Chars pc)) [] true fuel 0 None
      (MState pv (body ++ tail ++ s) cs) k = Some z.
Proof.
  induction body as [|b body IH]; intros fuel pv s cs k z Hrun Hstop Hfuel Hk Hz;
    (destruct fuel as [|fuel]; [simpl in Hfuel; lia|]).
  - rewrite last_of_nil in Hz. simpl app in *.
    destruct tail as [|c tail].
    + simpl app in *. simpl. destruct s as [|c s]; simpl.
      * exact Hz.
      * rewrite Hstop. exact Hz.
    + assert (Hc : pc c = true) by (apply Hrun; left; reflexivity).
      assert (Hrec : repeat_matcher (matcher (Chars pc)) [] true fuel 0 None
                       (MState (Some c) (tail ++ s) cs) k = None).
      { apply repeat_greedy_fail; auto.
        - intros c' Hc'; apply Hrun; right; exact Hc'.
        - intros r1 r2 E. specialize (Hk (c :: r1) r2).
          rewrite last_of_cons in Hk. apply Hk; [simpl; now rewrite E|].
          discriminate. }
      cbn [repeat_matcher app rest prev caps clear_caps fold_left option_map
           Nat.eqb negb Nat.pred].
      rewrite matcher_Chars, Hc.
      cbn [rest]. rewrite length_cons_neq. cbn [andb]. rewrite Hrec.
      exact Hz.
  - assert (Hb : pc b = true) by (apply Hrun; left; reflexivity).
    assert (Hrec : repeat_matcher (matcher (Chars pc)) [] true fuel 0 None
                     (MState (Some b) (body ++ tail ++ s) cs) k = Some z).
    { apply IH; auto.
      - intros c' Hc'; apply Hrun; right; exact Hc'.
      - simpl in Hfuel; lia.
      - intros t1 t2 E Hne. specialize (Hk t1 t2 E Hne).
        change ((b :: body) ++ t1) with (b :: body ++ t1) in Hk.
        rewrite last_of_cons in Hk. exact Hk.
      - rewrite last_of_cons in Hz. exact Hz. }
    cbn [repeat_matcher app rest prev caps clear_caps fold_left option_map
         Nat.eqb negb Nat.pred].
    rewrite matcher_Chars, Hb.
    cbn [rest]. rewrite length_cons_neq. cbn [andb]. rewrite Hrec.
    reflexivity.
Qed.

End GreedyBacktrack.

Section RepeatSteps.

Variable m : mstate -> continuation -> option mstate.
Variable gs : list nat.

(** One more iteration of a greedy quantifier without upper bound. *)
Lemma repeat_matcher_step (fuel min : nat) (x : mstate) (c : continuation)
    (z : mstate) :
  m (MState (prev x) (rest x) (clear_caps gs (caps x)))
    (fun y =>
       if Nat.eqb min 0 && Nat.eqb (List.length (rest y)) (List.length (rest x))
       then None
       else repeat_matcher m gs true fuel (Nat.pred min) None y c) = Some z ->
  repeat_matcher m gs true (S fuel) min None x c = Some z.
Proof.
  intros H. cbn [repeat_matcher option_map]. rewrite H.
  destruct (negb (Nat.eqb min 0)); reflexivity.
Qed.

(** The quantifier stops where its atom does not match. *)
Lemma repeat_matcher_stop (fuel : nat) (x : mstate) (c : continuation) :
  (forall d, m (MState (prev x) (rest x) (clear_caps gs (caps x))) d = None) ->
  repeat_matcher m gs true (S fuel) 0 None x c = c x.
Proof.
  intros H. cbn [repeat_matcher option_map Nat.eqb negb]. now rewrite H.
Qed.

End RepeatSteps.

(** ** The pass that wraps list items *)

Section ListWrap.

(** The group of the pattern: one item and the white space after it. *)
Lemma list_re_group :
  list_re =
  Repeat 1 None true
    (Group 1 (Cat (Lit (js "<li"))
                (Cat (Star Dot) (Cat (Lit (js "</li>")) (Star Space))))).
Proof. reflexivity. Qed.

Lemma li_of_shape (t rest : jsstring) :
  li_of t ++ rest =
  js "<li" ++ (js " class=" ++ quoted (js "ml-4") ++ js ">" ++ t) ++
  js "</li>" ++ rest.
Proof. unfold li_of, quoted. cbn. rewrite <- ?app_assoc. reflexivity. Qed.

Lemma li_of_one_line (t : jsstring) :
  forallb not_line_terminator t = true ->
  forallb not_line_terminator (li_of t) = true.
Proof.
  intros H. unfold li_of, quoted. rewrite !forallb_app, H. reflexivity.
Qed.

(** One item: the first quantifier runs to the end of the line and gives
    back the closing tag; the second takes the white space [ws]. *)
Lemma matcher_item (pv : option char) (t ws post : jsstring) cs
    (d : continuation) (z : mstate) :
  forallb not_line_terminator t = true ->
  forallb is_space ws = true ->
  match ws ++ post with [] => True | c :: _ => is_line_terminator c = true end ->
  match post with [] => True | c :: _ => is_space c = false end ->
  d (MState (last_of (Some 62) ws) post
       (set_cap 1 (Some (li_of t ++ ws)) cs)) = Some z ->
  matcher (Group 1 (Cat (Lit (js "<li"))
             (Cat (Star Dot) (Cat (Lit (js "</li>")) (Star Space)))))
    (MState pv (li_of t ++ ws ++ post) cs) d = Some z.
Proof.
  intros Ht Hws Hline Hpost Hd.
  rewrite matcher_Group.
  set (x0 := MState pv (li_of t ++ ws ++ post) cs).
  set (K := fun y : mstate =>
              d (MState (prev y) (rest y)
                   (set_cap 1 (Some (consumed x0 y)) (caps y)))).
  unfold x0 at 1. rewrite li_of_shape.
  rewrite matcher_Cat, matcher_Lit. cbv beta.
  rewrite matcher_Cat. unfold Star at 1, Dot. rewrite matcher_Repeat.
  apply repeat_greedy_backtrack.
  - intros c Hc.
    assert (Hall : forallb not_line_terminator
                     ((js " class=" ++ quoted (js "ml-4") ++ js ">" ++ t) ++
                      js "</li>") = true).
    { unfold quoted. rewrite !forallb_app, Ht. reflexivity. }
    exact (proj1 (forallb_forall _ _) Hall c Hc).
  - destruct (ws ++ post) as [|c u]; [exact I|]. now rewrite Hline.
  - cbn [rest Nat.add]. rewrite !length_app. lia.
  - intros t1 t2 E Hne. rewrite matcher_Cat. apply matcher_Lit_fail.
    assert (Hhead : forall u, startsWith (u ++ ws ++ post) (js "</li>") = false
                              \/ exists c u', u = c :: u').
    { intros [|c u']; [left | right; eauto].
      simpl app. destruct (ws ++ post) as [|c u]; [reflexivity|].
      apply startsWith_head.
      destruct (N.eqb_spec 60 c) as [<-|Hn]; [discriminate Hline|].
      unfold char_eqb. now apply N.eqb_neq. }
    destruct t1 as [|a1 t1]; [congruence|].
    simpl in E. injection E as <- E.
    destruct t1 as [|a2 t1]; [simpl in E; subst t2; reflexivity|].
    simpl in E. injection E as <- E.
    destruct t1 as [|a3 t1]; [simpl in E; subst t2; reflexivity|].
    simpl in E. injection E as <- E.
    destruct t1 as [|a4 t1]; [simpl in E; subst t2; reflexivity|].
    simpl in E. injection E as <- E.
    destruct t1 as [|a5 t1]; [simpl in E; subst t2; reflexivity|].
    simpl in E. injection E as <- E.
    destruct t1 as [|a6 t1]; [|discriminate E].
    simpl in E. subst t2.
    destruct (Hhead []) as [H|(c & u' & H)]; [exact H | discriminate H].
  - rewrite matcher_Cat, matcher_Lit. cbv beta.
    unfold Star, Space. rewrite matcher_Repeat.
    apply repeat_greedy_run.
    + intros c Hc. exact (proj1 (forallb_forall _ _) Hws c Hc).
    + exact Hpost.
    + cbn [rest Nat.add]. rewrite length_app. lia.
    + lia.
    + unfold K. cbn [prev rest caps].
      assert (Ec : consumed x0 (MState (last_of (last_of (last_of (last_of pv
                     (js "<li"))
                     (js " class=" ++ quoted (js "ml-4") ++ js ">" ++ t))
                     (js "</li>")) ws) post cs) = li_of t ++ ws).
      { unfold x0. rewrite app_assoc. apply consumed_app. }
      rewrite Ec.
      assert (El : last_of (last_of (last_of (last_of pv (js "<li"))
                     (js " class=" ++ quoted (js "ml-4") ++ js ">" ++ t))
                     (js "</li>")) ws = last_of (Some 62) ws).
      { f_equal. }
      rewrite El. exact Hd.
Qed.

(** The group does not match at the end of the input. *)
Lemma matcher_item_end (pv : option char) cs (d : continuation) :
  matcher (Group 1 (Cat (Lit (js "<li"))
             (Cat (Star Dot) (Cat (Lit (js "</li>")) (Star Space)))))
    (MState pv [] cs) d = None.
Proof. reflexivity. Qed.

Lemma join_lines_cons (x y : jsstring) (l : list jsstring) :
  join [newline] (x :: y :: l) = x ++ [newline] ++ join [newline] (y :: l).
Proof. reflexivity. Qed.

Lemma items_head (t : jsstring) (its : list jsstring) :
  exists u, join [newline] (map li_of (t :: its)) = 60 :: u.
Proof.
  destruct its as [|t' its]; eexists.
  - reflexivity.
  - cbn [map]. rewrite join_lines_cons. reflexivity.
Qed.

(** The pattern matches a run of items to its end. *)
Lemma list_loop (its : list jsstring) :
  its <> [] -> forallb (forallb not_line_terminator) its = true ->
  forall (fuel min : nat) (pv : option char) cs,
    (min <= 1)%nat ->
    (List.length (join [newline] (map li_of its)) < fuel)%nat ->
    exists z,
      repeat_matcher
        (matcher (Group 1 (Cat (Lit (js "<li"))
                    (Cat (Star Dot) (Cat (Lit (js "</li>")) (Star Space))))))
        [1%nat] true fuel min None
        (MState pv (join [newline] (map li_of its)) cs) (fun y => Some y)
      = Some z /\ rest z = [].
Proof.
  induction its as [|t its IH]; intros Hne Hall fuel min pv cs Hmin Hfuel;
    [congruence|].
  simpl in Hall; apply andb_true_iff in Hall; destruct Hall as [Ht Hits].
  destruct fuel as [|fuel]; [lia|].
  destruct its as [|t' its'].
  - cbn [map join] in *.
    destruct fuel as [|fuel].
    { exfalso. unfold li_of in Hfuel. rewrite length_app in Hfuel.
      simpl in Hfuel. lia. }
    eexists. split.
    + apply repeat_matcher_step. cbn [prev rest caps].
      rewrite <- (app_nil_r (li_of t)) at 1.
      change (li_of t ++ []) with (li_of t ++ [] ++ []).
      apply matcher_item; try exact Ht; try reflexivity; try exact I.
      cbn [rest].
      assert (Hlen : Nat.eqb (@List.length char []) (List.length (li_of t))
                     = false).
      { apply Nat.eqb_neq. unfold li_of. rewrite length_app. simpl. lia. }
      rewrite Hlen, andb_false_r.
      assert (Hp : Nat.pred min = 0%nat) by lia. rewrite Hp.
      rewrite repeat_matcher_stop by (intros d; apply matcher_item_end).
      reflexivity.
    + reflexivity.
  - cbn [map] in *. rewrite join_lines_cons in *.
    fold (map li_of its') in *.
    set (R := join [newline] (li_of t' :: map li_of its')) in *.
    destruct (IH ltac:(discriminate) Hits fuel (Nat.pred min)
                (last_of (Some 62) [newline])
                (set_cap 1 (Some (li_of t ++ [newline]))
                   (clear_caps [1%nat] cs))
                ltac:(lia)) as (z & Hz & Hr).
    { rewrite !length_app in Hfuel. simpl in Hfuel. lia. }
    exists z. split; [|exact Hr].
    apply repeat_matcher_step. cbn [prev rest caps].
    apply matcher_item; try exact Ht; try reflexivity.
    + destruct (items_head t' its') as (u & Eu).
      change (map li_of (t' :: its')) with (li_of t' :: map li_of its') in Eu.
      fold R in Eu. rewrite Eu. reflexivity.
    + cbn [rest].
      assert (Hlen : Nat.eqb (List.length R)
                       (List.length (li_of t ++ [newline] ++ R)) = false).
      { apply Nat.eqb_neq. rewrite !length_app. simpl. lia. }
      rewrite Hlen, andb_false_r. exact Hz.
Qed.

Lemma match_at_list (pv : option char) (its : list jsstring) :
  its <> [] -> forallb (forallb not_line_terminator) its = true ->
  exists z,
    match_at list_re pv (join [newline] (map li_of its)) = Some z /\
    rest z = [].
Proof.
  intros Hne Hall. unfold match_at. rewrite list_re_group, matcher_Repeat.
  apply list_loop; auto; cbn [rest]; lia.
Qed.

Lemma list_template_text (matched : jsstring) cs :
  replacement_text list_re (Template list_template) matched cs =
    ul_open ++ matched ++ js "</ul>".
Proof. unfold ul_open, quoted. cbn. rewrite <- ?app_assoc. reflexivity. Qed.

(** A run of items that is the whole text goes into one [ul] element. *)
Lemma listWrap_items (its : list jsstring) :
  its <> [] -> forallb (forallb not_line_terminator) its = true ->
  listWrap (join [newline] (map li_of its)) =
    ul_open ++ join [newline] (map li_of its) ++ js "</ul>".
Proof.
  intros Hne Hall. unfold listWrap, replace.
  destruct (match_at_list None Hne Hall) as (z & Hz & Hr).
  set (L := join [newline] (map li_of its)) in *.
  assert (HL : L <> []).
  { unfold L. destruct its as [|t its]; [congruence|].
    destruct (items_head t its) as (u & ->). discriminate. }
  rewrite <- (app_nil_r L) in Hz.
  rewrite <- (app_nil_r L) at 1.
  rewrite (@replace_go_match list_re (Template list_template) None L [] z
             HL Hz Hr).
  rewrite list_template_text.
  assert (Hend : forall p, replace_go list_re (Template list_template) p 0 []
                           = []) by reflexivity.
  now rewrite Hend, app_nil_r.
Qed.

End ListWrap.

(** ** Lists, end to end *)

Section Lists.

Lemma parseMarkdown_without_backtick (s : jsstring) :
  s <> [] -> lacks backtick s = true ->
  parseMarkdown s = paragraphs (lists (bold (headers s))).
Proof.
  intros Hne H. destruct s as [|c s]; [congruence|].
  exact (@parseMarkdown_no_backtick c s H).
Qed.

Lemma item_text_spec (t : jsstring) :
  item_text t = true ->
  forallb not_line_terminator t = true /\ lacks backtick t = true /\
  lacks asterisk t = true.
Proof.
  unfold item_text; intros H.
  do 2 (apply andb_true_iff in H; destruct H as [H ?]). tauto.
Qed.

Lemma items_no_blank_line (its : list jsstring) :
  forallb (forallb not_line_terminator) its = true ->
  includes (join [newline] (map li_of its) ++ js "</ul>") [newline; newline]
    = false.
Proof.
  induction its as [|t its IH]; intros H; [reflexivity|].
  simpl in H; apply andb_true_iff in H; destruct H as [Ht Hits].
  pose proof (no_terminator_lacks_newline _ (li_of_one_line t Ht)) as Hl.
  destruct its as [|t' its'].
  - cbn [map join].
    rewrite (@lacks_includes_app newline [newline] (li_of t) _ Hl).
    reflexivity.
  - cbn [map]. rewrite join_lines_cons, <- !app_assoc.
    rewrite (@lacks_includes_app newline [newline] (li_of t) _ Hl).
    specialize (IH Hits). cbn [map] in IH.
    destruct (items_head t' its') as (u & Eu). cbn [map] in Eu.
    rewrite Eu in IH |- *.
    change (includes ([newline] ++ (60 :: u) ++ js "</ul>") [newline; newline])
      with (includes ((60 :: u) ++ js "</ul>") [newline; newline]).
    exact IH.
Qed.

End Lists.

(** X20.  A text that is a list, one item a line, is rendered as one [ul]
    element that holds one [li] element for each item, in the order of
    the text, each around the text of its item as written. *)
Theorem parseMarkdown_item_lines (items : list jsstring) :
  items <> [] -> forallb item_text items = true ->
  parseMarkdown (join [newline] (map item_line items)) =
    ul_open ++ join [newline] (map li_of items) ++ js "</ul>".
Proof.
  intros Hne H.
  assert (Hall : forall t, In t items -> item_text t = true)
    by (apply forallb_forall; exact H).
  assert (Hitems : forallb (forallb not_line_terminator) items = true).
  { apply forallb_forall; intros t Hin.
    now destruct (item_text_spec _ (Hall t Hin)) as (? & _). }
  assert (Hlines : forallb (forallb not_line_terminator) (map item_line items)
                   = true).
  { apply forallb_forall; intros l Hin. apply in_map_iff in Hin.
    destruct Hin as (t & <- & Hin).
    destruct (item_text_spec _ (Hall t Hin)) as (Ht & _).
    unfold item_line. now rewrite forallb_app, Ht. }
  set (D := join [newline] (map item_line items)).
  assert (HD : D <> []).
  { unfold D. destruct items as [|t [|t' its]]; [congruence | |]; discriminate. }
  assert (Hbt : lacks backtick D = true).
  { apply lacks_join; [reflexivity|].
    apply forallb_forall; intros l Hin. apply in_map_iff in Hin.
    destruct Hin as (t & <- & Hin).
    destruct (item_text_spec _ (Hall t Hin)) as (_ & Ht & _).
    unfold item_line. now rewrite lacks_app, Ht. }
  assert (Hast : lacks asterisk D = true).
  { apply lacks_join; [reflexivity|].
    apply forallb_forall; intros l Hin. apply in_map_iff in Hin.
    destruct Hin as (t & <- & Hin).
    destruct (item_text_spec _ (Hall t Hin)) as (_ & _ & Ht).
    unfold item_line. now rewrite lacks_app, Ht. }
  rewrite (@parseMarkdown_without_backtick D HD Hbt).
  assert (Hh : headers D = D).
  { unfold headers, D.
    rewrite (header3_lines _ Hlines), map_map.
    rewrite (@map_ext _ _ (fun t => line_pass (js "### ") h3_of (item_line t))
               item_line) by reflexivity.
    rewrite (header2_lines _ Hlines), map_map.
    rewrite (@map_ext _ _ (fun t => line_pass (js "## ") h2_of (item_line t))
               item_line) by reflexivity.
    rewrite (header1_lines _ Hlines), map_map.
    now rewrite (@map_ext _ _ (fun t => line_pass (js "# ") h1_of (item_line t))
                   item_line) by reflexivity. }
  rewrite Hh, (@bold_inert D Hast).
  unfold lists, D.
  rewrite (listItems_lines _ Hlines), map_map.
  rewrite (@map_ext _ _ (fun t => line_pass (js "- ") li_of (item_line t))
             li_of) by reflexivity.
  rewrite (listWrap_items Hne Hitems).
  apply paragraphs_inert.
  - assert (Hu : lacks newline ul_open = true) by reflexivity.
    rewrite (@lacks_includes_app newline [newline] ul_open _ Hu).
    exact (items_no_blank_line items Hitems).
  - destruct (@trim_head 60
                (js "ul class=" ++
                 quoted (js "list-disc list-inside space-y-2 my-4") ++
                 js ">" ++ join [newline] (map li_of items) ++ js "</ul>")
                eq_refl) as (s' & Es).
    replace (trim (ul_open ++ join [newline] (map li_of items) ++ js "</ul>"))
      with (60 :: s') by (symmetry; exact Es).
    reflexivity.
Qed.

Lemma parseMarkdown_item_lines_witness :
  parseMarkdown (join [newline] [js "- a < b"; js "- </li>"; js "- "]) =
    ul_open ++
    join [newline] [li_of (js "a < b"); li_of (js "</li>"); li_of []] ++
    js "</ul>".
Proof.
  apply (@parseMarkdown_item_lines [js "a < b"; js "</li>"; []]).
  - discriminate.
  - reflexivity.
Defined.

(** * The passes on any text *)

(** ** A match is a text the pattern can match *)

Section Soundness.

Lemma repeat_matcher_sound (m : mstate -> continuation -> option mstate)
    (L : option char -> jsstring -> jsstring -> Prop) :
  (forall x k z, m x k = Some z ->
     exists w y, rest x = w ++ rest y /\ prev y = last_of (prev x) w /\
                 L (prev x) w (rest y) /\ k y = Some z) ->
  forall fuel gs greedy min max x (c : continuation) z,
    repeat_matcher m gs greedy fuel min max x c = Some z ->
    exists w y, rest x = w ++ rest y /\ prev y = last_of (prev x) w /\
                star L (prev x) w (rest y) /\ c y = Some z.
Proof.
  intros Hm fuel; induction fuel as [|fuel IH];
    intros gs greedy min max x c z H; [discriminate|].
  assert (Hnil : c x = Some z ->
            exists w y, rest x = w ++ rest y /\ prev y = last_of (prev x) w /\
                        star L (prev x) w (rest y) /\ c y = Some z).
  { intros Hc. exists [], x. repeat split; [constructor | exact Hc]. }
  assert (Hstep : forall z',
            m (MState (prev x) (rest x) (clear_caps gs (caps x)))
              (fun y =>
                 if Nat.eqb min 0 &&
                    Nat.eqb (List.length (rest y)) (List.length (rest x))
                 then None
                 else repeat_matcher m gs greedy fuel (Nat.pred min)
                        (option_map Nat.pred max) y c) = Some z' ->
            exists w y, rest x = w ++ rest y /\ prev y = last_of (prev x) w /\
                        star L (prev x) w (rest y) /\ c y = Some z').
  { intros z' Hz. apply Hm in Hz. cbn [prev rest] in Hz.
    destruct Hz as (w1 & y1 & E1 & P1 & L1 & D1).
    destruct (Nat.eqb min 0 &&
              Nat.eqb (List.length (rest y1)) (List.length (rest x)));
      [discriminate|].
    apply IH in D1. destruct D1 as (w2 & y2 & E2 & P2 & L2 & C2).
    exists (w1 ++ w2), y2. repeat split.
    - now rewrite E1, E2, app_assoc.
    - now rewrite P2, P1, last_of_app.
    - constructor.
      + now rewrite <- E2.
      + now rewrite <- P1.
    - exact C2. }
  cbn [repeat_matcher] in H.
  destruct max as [[|n]|]; [exact (Hnil H) | |];
    (destruct (negb (Nat.eqb min 0)); [exact (Hstep z H)|];
     destruct greedy;
     [ match type of H with
       | match ?t with _ => _ end = _ =>
           destruct t as [z'|] eqn:Ht;
             [injection H as <-; exact (Hstep z' eq_refl) | exact (Hnil H)]
       end
     | destruct (c x) as [z'|] eqn:Hc;
         [injection H as <-; exact (Hnil eq_refl) | exact (Hstep z H)] ]).
Qed.

(** A successful match consumed a text the pattern can match, and its
    result is what the continuation made of the state after it. *)
Lemma matcher_sound (r : regex) :
  forall x (k : continuation) z,
    matcher r x k = Some z ->
    exists w y, rest x = w ++ rest y /\ prev y = last_of (prev x) w /\
                lang r (prev x) w (rest y) /\ k y = Some z.
Proof.
  induction r as [|pc| | |r1 IH1 r2 IH2|i r IH|min max greedy r IH];
    intros x k z H.
  - exists [], x. repeat split; exact H.
  - simpl in H. destruct (rest x) as [|ch s] eqn:E; [discriminate|].
    destruct (pc ch) eqn:Hp; [|discriminate].
    exists [ch], (MState (Some ch) s (caps x)). repeat split; try exact H.
    exists ch; split; [reflexivity | exact Hp].
  - simpl in H. exists [], x.
    destruct (prev x) as [ch|] eqn:E.
    + destruct (is_line_terminator ch) eqn:Hl; [|discriminate].
      repeat split; [|exact H]. simpl. exact Hl.
    + repeat split; exact H.
  - simpl in H. exists [], x.
    destruct (rest x) as [|ch s] eqn:E.
    + repeat split; exact H.
    + destruct (is_line_terminator ch) eqn:Hl; [|discriminate].
      repeat split; [exact Hl | exact H].
  - rewrite matcher_Cat in H. apply IH1 in H.
    destruct H as (w1 & y1 & E1 & P1 & L1 & H).
    apply IH2 in H. destruct H as (w2 & y2 & E2 & P2 & L2 & H).
    exists (w1 ++ w2), y2. repeat split.
    + now rewrite E1, E2, app_assoc.
    + now rewrite P2, P1, last_of_app.
    + exists w1, w2. repeat split.
      * now rewrite <- E2.
      * now rewrite <- P1.
    + exact H.
  - rewrite matcher_Group in H. apply IH in H.
    destruct H as (w & y & E & P & L & H).
    exists w, (MState (prev y) (rest y)
                 (set_cap i (Some (consumed x y)) (caps y))).
    repeat split; assumption.
  - rewrite matcher_Repeat in H.
    exact (repeat_matcher_sound (matcher r) (lang r) IH _ _ _ _ _ _ _ H).
Qed.

Lemma match_at_sound (r : regex) (p : option char) (s : jsstring) (y : mstate) :
  match_at r p s = Some y ->
  exists m, s = m ++ rest y /\ lang r p m (rest y).
Proof.
  unfold match_at; intros H. apply matcher_sound in H.
  destruct H as (w & y' & E & _ & L & H). injection H as ->.
  exists w. split; assumption.
Qed.

End Soundness.

(** ** Occurrences *)

Section Occurrences.

Lemma startsWith_app (s t pat : jsstring) :
  startsWith s pat = true -> startsWith (s ++ t) pat = true.
Proof.
  revert s; induction pat as [|x pat IH]; intros s H; [reflexivity|].
  destruct s as [|y s]; [discriminate|].
  simpl in H |- *. apply andb_true_iff in H; destruct H as [Hxy H].
  now rewrite Hxy, (IH s H).
Qed.

Lemma includes_cons (c : char) (s pat : jsstring) :
  includes s pat = true -> includes (c :: s) pat = true.
Proof. intros H. simpl. rewrite H. apply orb_true_r. Qed.

Lemma includes_app_r (a b pat : jsstring) :
  includes b pat = true -> includes (a ++ b) pat = true.
Proof.
  intros H; induction a as [|c a IH]; [exact H|].
  apply includes_cons; exact IH.
Qed.

Lemma includes_app_l (a b pat : jsstring) :
  includes a pat = true -> includes (a ++ b) pat = true.
Proof.
  induction a as [|c a IH]; intros H.
  - destruct pat as [|x pat]; [destruct b; reflexivity|].
    simpl in H. discriminate.
  - simpl in H. apply orb_true_iff in H; destruct H as [H|H].
    + change ((c :: a) ++ b) with (c :: a ++ b).
      change (includes (c :: a ++ b) pat)
        with (startsWith ((c :: a) ++ b) pat || includes (a ++ b) pat).
      now rewrite (startsWith_app _ b _ H).
    + change ((c :: a) ++ b) with (c :: a ++ b).
      apply includes_cons, IH, H.
Qed.

Lemma includes_middle (u e v : jsstring) : includes (u ++ e ++ v) e = true.
Proof.
  apply includes_app_r.
  destruct (e ++ v) as [|c t] eqn:E.
  - destruct e; [reflexivity | discriminate].
  - rewrite <- E. clear E.
    assert (H : startsWith (e ++ v) e = true) by apply startsWith_self.
    destruct (e ++ v); simpl; now rewrite H.
Qed.

Lemma includes_decompose (s e : jsstring) :
  includes s e = true -> exists u v, s = u ++ e ++ v.
Proof.
  induction s as [|c s IH]; intros H.
  - simpl in H. rewrite orb_false_r in H.
    exists [], []. destruct e; [reflexivity | discriminate].
  - simpl in H. apply orb_true_iff in H; destruct H as [H|H].
    + exists [], (skipn (List.length e) (c :: s)).
      exact (startsWith_split _ _ H).
    + destruct (IH H) as (u & v & ->). exists (c :: u), v. reflexivity.
Qed.

End Occurrences.

(** ** A segment no match cuts *)

Section Keep.

Variable r : regex.
Variable rep : replacement.
Variable E : jsstring.

(** No match starts inside the segment. *)
Hypothesis inside : forall p e1 e2 v,
  E = e1 ++ e2 -> e2 <> [] -> match_at r (last_of p e1) (e2 ++ v) = None.

(** The segment is copied. *)
Lemma replace_go_segment (e2 : jsstring) :
  forall e1 v p,
    E = e1 ++ e2 ->
    replace_go r rep (last_of p e1) 0 (e2 ++ v) =
    e2 ++ replace_go r rep (last_of p E) 0 v.
Proof.
  induction e2 as [|c e2 IH]; intros e1 v p HE.
  - rewrite HE, app_nil_r. reflexivity.
  - change ((c :: e2) ++ v) with (c :: e2 ++ v).
    rewrite replace_go_copy
      by (exact (@inside p e1 (c :: e2) v HE ltac:(discriminate))).
    assert (HE' : E = (e1 ++ [c]) ++ e2)
      by (rewrite <- app_assoc; exact HE).
    pose proof (IH (e1 ++ [c]) v p HE') as H.
    rewrite last_of_app in H. cbn [last_of rev app] in H.
    change (last_of (last_of p e1) [c]) with (Some c) in H.
    now rewrite H.
Qed.

Lemma replace_go_prefix (v : jsstring) (p : option char) :
  replace_go r rep p 0 (E ++ v) = E ++ replace_go r rep (last_of p E) 0 v.
Proof. exact (@replace_go_segment E [] v p eq_refl). Qed.

(** A match that starts before the segment ends before it, or runs over
    all of it and puts it into the replacement. *)
Hypothesis cross : forall p a2 v y,
  a2 <> [] -> match_at r p (a2 ++ E ++ v) = Some y ->
  (exists m a3, m <> [] /\ a2 = m ++ a3 /\ rest y = a3 ++ E ++ v) \/
  (exists w, v = w ++ rest y /\
             includes (replacement_text r rep (a2 ++ E ++ w) (caps y)) E = true).

Lemma replace_go_keeps (n : nat) :
  forall u v p,
    (List.length u <= n)%nat ->
    includes (replace_go r rep p 0 (u ++ E ++ v)) E = true.
Proof.
  induction n as [|n IH]; intros u v p Hn.
  - destruct u; [|simpl in Hn; lia].
    simpl app. rewrite replace_go_prefix. apply (@includes_middle [] E).
  - destruct u as [|c u].
    + simpl app. rewrite replace_go_prefix. apply (@includes_middle [] E).
    + destruct (match_at r p ((c :: u) ++ E ++ v)) as [y|] eqn:M.
      * destruct (@cross p (c :: u) v y ltac:(discriminate) M)
          as [(m & a3 & Hm & Ea & Er)|(w & Ev & Hin)].
        -- assert (Et : (c :: u) ++ E ++ v = m ++ (a3 ++ E ++ v))
             by (rewrite Ea, <- app_assoc; reflexivity).
           rewrite Et in M |- *.
           rewrite (@replace_go_match r rep p m (a3 ++ E ++ v) y Hm M Er).
           apply includes_app_r, IH.
           assert (Hl : List.length (c :: u) = List.length (m ++ a3))
             by (now rewrite Ea).
           rewrite length_app in Hl. simpl in Hl, Hn.
           destruct m; [congruence|]. simpl in Hl. lia.
        -- assert (Et : (c :: u) ++ E ++ v = ((c :: u) ++ E ++ w) ++ rest y)
             by (rewrite Ev at 1; rewrite <- !app_assoc; reflexivity).
           rewrite Et in M |- *.
           rewrite (@replace_go_match r rep p ((c :: u) ++ E ++ w) (rest y) y
                      ltac:(discriminate) M eq_refl).
           apply includes_app_l, Hin.
      * change ((c :: u) ++ E ++ v) with (c :: u ++ E ++ v) in M |- *.
        rewrite (@replace_go_copy r rep p c (u ++ E ++ v) M).
        apply includes_cons, IH. simpl in Hn. lia.
Qed.

(** The pass keeps the segment. *)
Lemma replace_keeps (s : jsstring) :
  includes s E = true -> includes (replace s r rep) E = true.
Proof.
  intros H. destruct (includes_decompose _ _ H) as (u & v & ->).
  unfold replace. exact (@replace_go_keeps (List.length u) u v None (le_n _)).
Qed.

Lemma replace_keeps_prefix (v : jsstring) :
  exists v', replace (E ++ v) r rep = E ++ v'.
Proof. unfold replace. rewrite replace_go_prefix. eauto. Qed.

End Keep.

(** ** The shape of a match, pattern by pattern *)

Section Shapes.

Lemma lang_Lit (s : jsstring) :
  forall p m f, lang (Lit s) p m f -> m = s.
Proof.
  induction s as [|c [|d s] IH]; intros p m f H.
  - exact H.
  - destruct H as (x & -> & Hx). apply N.eqb_eq in Hx. now subst x.
  - rewrite Lit_cons in H. destruct H as (m1 & m2 & -> & (x & -> & Hx) & H2).
    apply N.eqb_eq in Hx. subst x. apply IH in H2. now subst m2.
Qed.

Lemma star_Chars (pc : char -> bool) :
  forall p m f, star (lang (Chars pc)) p m f -> forallb pc m = true.
Proof.
  intros p m f H. induction H as [|p m1 m2 f (c & -> & Hc) _ IH]; [reflexivity|].
  simpl. now rewrite Hc, IH.
Qed.

Lemma star_star_Chars (pc : char -> bool) :
  forall p m f,
    star (star (lang (Chars pc))) p m f -> forallb pc m = true.
Proof.
  intros p m f H. induction H as [|p m1 m2 f H1 _ IH]; [reflexivity|].
  rewrite forallb_app, IH, andb_true_r. exact (star_Chars H1).
Qed.

Lemma not_chr_lacks (c : char) (s : jsstring) :
  forallb (fun x => negb (char_eqb c x)) s = true -> lacks c s = true.
Proof.
  intros H. apply forallb_forall; intros x Hx.
  pose proof (proj1 (forallb_forall _ _) H x Hx) as Hn.
  unfold char_eqb in *. cbv beta in Hn. now rewrite N.eqb_sym.
Qed.

(** Inline code: a backtick, a non-empty text without backtick in
    group 1, a backtick. *)
Lemma match_at_inline_inv (p : option char) (s : jsstring) (y : mstate) :
  match_at inline_re p s = Some y ->
  exists body,
    body <> [] /\ lacks backtick body = true /\
    s = backtick :: body ++ backtick :: rest y /\ caps y = [Some body].
Proof.
  intros H. destruct (match_at_sound _ _ _ H) as (m & Es & L).
  destruct L as (m1 & m2 & -> & (x & -> & Hx) & m3 & m4 & -> & L3 &
                 (z & -> & Hz)).
  apply N.eqb_eq in Hx, Hz. subst x z.
  apply star_Chars, not_chr_lacks in L3.
  assert (E : s = backtick :: m3 ++ backtick :: rest y)
    by (rewrite Es; simpl; now rewrite <- app_assoc).
  destruct m3 as [|c body].
  - rewrite E in H. discriminate H.
  - exists (c :: body). split; [discriminate|]. split; [exact L3|].
    split; [exact E|].
    rewrite E in H.
    rewrite (@match_at_inline p (c :: body) (rest y)) in H;
      [injection H as <-; reflexivity | discriminate | exact L3].
Qed.

(** Bold: two asterisks, a non-empty text without asterisk in group 1,
    two asterisks. *)
Lemma match_at_bold_inv (p : option char) (s : jsstring) (y : mstate) :
  match_at bold_re p s = Some y ->
  exists body,
    body <> [] /\ lacks asterisk body = true /\
    s = js "**" ++ body ++ js "**" ++ rest y /\ caps y = [Some body].
Proof.
  intros H. destruct (match_at_sound _ _ _ H) as (m & Es & L).
  destruct L as (m1 & m2 & -> & L1 & m3 & m4 & -> & L3 & L4).
  apply lang_Lit in L1, L4. subst m1 m4.
  apply star_Chars, not_chr_lacks in L3.
  assert (E : s = js "**" ++ m3 ++ js "**" ++ rest y)
    by (rewrite Es; now rewrite <- !app_assoc).
  destruct m3 as [|c body].
  - rewrite E in H. discriminate H.
  - exists (c :: body). split; [discriminate|]. split; [exact L3|].
    split; [exact E|].
    rewrite E in H.
    rewrite (@match_at_bold p (c :: body) (rest y)) in H;
      [injection H as <-; reflexivity | discriminate | exact L3].
Qed.

(** A line pattern: at the start of a line, the marks, the rest of the
    line in group 1. *)
Lemma match_at_line_any (marks : jsstring) (pv : option char)
    (t post : jsstring) :
  at_bol pv = true -> forallb not_line_terminator t = true ->
  match post with [] => True | c :: _ => is_line_terminator c = true end ->
  match_at (header_re marks) pv (marks ++ t ++ post) =
    Some (MState (last_of pv (marks ++ t)) post [Some t]).
Proof.
  intros Hpv Ht Hpost.
  unfold match_at.
  assert (G : groups_of (header_re marks) = [1%nat])
    by (unfold header_re, Seq; cbn [groups_of]; now rewrite groups_of_Lit).
  rewrite G.
  change (clear_caps [1%nat] []) with [@None jsstring].
  unfold header_re, Seq.
  rewrite matcher_Cat, matcher_Bol; cbn [prev]; rewrite Hpv.
  rewrite matcher_Cat, matcher_Lit.
  rewrite matcher_Cat, matcher_Group; unfold Star, Dot.
  rewrite matcher_Repeat.
  apply repeat_greedy_run.
  - intros c Hc. exact (proj1 (forallb_forall _ _) Ht c Hc).
  - destruct post as [|c post]; [exact I | now rewrite Hpost].
  - cbn [rest Nat.add]; rewrite length_app; lia.
  - lia.
  - cbn [rest prev caps]. rewrite consumed_app, last_of_app.
    destruct post as [|c post]; [reflexivity|]. simpl. now rewrite Hpost.
Qed.

Lemma match_at_line_inv (marks : jsstring) (p : option char) (s : jsstring)
    (y : mstate) :
  match_at (header_re marks) p s = Some y ->
  exists run,
    at_bol p = true /\ forallb not_line_terminator run = true /\
    s = marks ++ run ++ rest y /\ caps y = [Some run] /\
    match rest y with [] => True | c :: _ => is_line_terminator c = true end.
Proof.
  intros H. destruct (match_at_sound _ _ _ H) as (m & Es & L).
  destruct L as (m1 & m2 & -> & (-> & Hb) & m3 & m4 & -> & L3 &
                 m5 & m6 & -> & L5 & (-> & He)).
  apply lang_Lit in L3. subst m3. apply star_Chars in L5.
  simpl in Hb. exists m5.
  assert (E : s = marks ++ m5 ++ rest y)
    by (rewrite Es; simpl; now rewrite app_nil_r, <- app_assoc).
  repeat split; try assumption.
  rewrite E in H.
  rewrite (@match_at_line_any marks p m5 (rest y) Hb L5 He) in H.
  injection H as <-. reflexivity.
Qed.

(** The first run of three backticks after a position. *)
Lemma first_fence (z : jsstring) :
  includes z fence = true ->
  exists body post, z = body ++ fence ++ post /\ closes_first body = true.
Proof.
  induction z as [|c z IH]; intros H; [discriminate|].
  destruct (startsWith (c :: z) fence) eqn:Hs.
  - exists [], (skipn (List.length fence) (c :: z)). split; [|reflexivity].
    exact (startsWith_split _ _ Hs).
  - assert (H' : includes z fence = true).
    { change (includes (c :: z) fence)
        with (startsWith (c :: z) fence || includes z fence) in H.
      rewrite Hs in H. exact H. }
    destruct (IH H') as (body & post & Ez & Hb). subst z.
    exists (c :: body), post. split; [reflexivity|].
    change (closes_first (c :: body))
      with (negb (startsWith ((c :: body) ++ fence) fence) &&
            closes_first body).
    rewrite Hb, andb_true_r. apply negb_true_iff.
    destruct (startsWith ((c :: body) ++ fence) fence) eqn:Hs'; [|reflexivity].
    apply (startsWith_app _ post) in Hs'. rewrite <- app_assoc in Hs'.
    change ((c :: body) ++ fence ++ post) with (c :: body ++ fence ++ post)
      in Hs'.
    congruence.
Qed.

(** A fenced block: three backticks, a tag of word characters or none,
    a line feed, the text up to the next three backticks. *)
Lemma match_at_fence_inv (p : option char) (s : jsstring) (y : mstate) :
  match_at fence_re p s = Some y ->
  exists tag body,
    forallb is_word tag = true /\ closes_first body = true /\
    s = fenced tag body ++ rest y /\ caps y = [lang_of tag; Some body].
Proof.
  intros H. destruct (match_at_sound _ _ _ H) as (m & Es & L).
  destruct L as (m1 & m2 & -> & L1 & m3 & m4 & -> & L3 &
                 m5 & m6 & -> & (x & -> & Hx) & m7 & m8 & -> & _ & L8).
  apply lang_Lit in L1, L8. subst m1 m8.
  apply star_star_Chars in L3. apply N.eqb_eq in Hx. subst x.
  assert (Hin : includes (m7 ++ fence ++ rest y) fence = true)
    by (apply includes_middle).
  destruct (first_fence _ Hin) as (body & post & Ez & Hb).
  assert (E : s = fenced m3 body ++ post).
  { rewrite Es. unfold fenced. change (js "```") with fence.
    rewrite <- !app_assoc. f_equal. f_equal.
    change ([newline] ++ m7 ++ fence ++ rest y)
      with (newline :: (m7 ++ fence ++ rest y)).
    rewrite Ez, <- app_comm_cons, <- app_assoc. reflexivity. }
  rewrite E in H. rewrite (match_at_fence p m3 body post L3 Hb) in H.
  injection H as <-. exists m3, body. repeat split; assumption.
Qed.

(** The list pattern: pieces made of [<li], a text on one line, [</li>]
    and white space. *)
Lemma lang_item (p : option char) (m f : jsstring) :
  lang (Group 1 (Cat (Lit (js "<li"))
          (Cat (Star Dot) (Cat (Lit (js "</li>")) (Star Space))))) p m f ->
  exists d w,
    m = js "<li" ++ d ++ js "</li>" ++ w /\
    forallb not_line_terminator d = true /\ forallb is_space w = true.
Proof.
  intros (m1 & m2 & -> & L1 & m3 & m4 & -> & L3 & m5 & m6 & -> & L5 & L6).
  apply lang_Lit in L1, L5. subst m1 m5.
  apply star_Chars in L3, L6. exists m3, m6. repeat split; assumption.
Qed.

Lemma repeat_matcher_plus (m : mstate -> continuation -> option mstate)
    (gs : list nat) (fuel : nat) (x : mstate) (c : continuation) :
  repeat_matcher m gs true (S fuel) 1 None x c =
    m (MState (prev x) (rest x) (clear_caps gs (caps x)))
      (fun y => repeat_matcher m gs true fuel 0 None y c).
Proof. reflexivity. Qed.

Lemma match_at_list_inv (p : option char) (s : jsstring) (y : mstate) :
  match_at list_re p s = Some y ->
  exists g m,
    s = (g ++ m) ++ rest y /\
    lang (Group 1 (Cat (Lit (js "<li"))
            (Cat (Star Dot) (Cat (Lit (js "</li>")) (Star Space)))))
      p g (m ++ rest y) /\
    star (lang (Group 1 (Cat (Lit (js "<li"))
                  (Cat (Star Dot) (Cat (Lit (js "</li>")) (Star Space))))))
      (last_of p g) m (rest y).
Proof.
  unfold match_at. rewrite list_re_group, matcher_Repeat.
  cbn [rest Nat.add]. rewrite repeat_matcher_plus. intros H.
  apply matcher_sound in H. cbn [prev rest] in H.
  destruct H as (g & y1 & E1 & P1 & L1 & H).
  apply (@repeat_matcher_sound _ _ (@matcher_sound _)) in H.
  destruct H as (m & y2 & E2 & P2 & L2 & H). injection H as ->.
  exists g, m. repeat split.
  - now rewrite E1, E2, app_assoc.
  - now rewrite <- E2.
  - now rewrite <- P1.
Qed.

End Shapes.

(** ** Where the patterns cannot start *)

Section Begins.

Lemma begins_inline : begins inline_re [backtick].
Proof.
  intros p [|c s] H; [reflexivity|].
  apply match_at_inline_fail. unfold not_backtick.
  change (startsWith (c :: s) [backtick]) with (char_eqb backtick c && true)
    in H.
  rewrite andb_true_r in H.
  unfold char_eqb in *. now rewrite N.eqb_sym, H.
Qed.

Lemma begins_bold : begins bold_re (js "**").
Proof. intros p s H. unfold bold_re, Seq. now apply match_at_literal. Qed.

Lemma begins_line (marks : jsstring) : begins (header_re marks) marks.
Proof.
  intros p s H. unfold header_re, Seq. apply match_at_line_pattern. now right.
Qed.

Lemma begins_list : begins list_re (js "<li").
Proof.
  intros p s H. unfold match_at. rewrite list_re_group, matcher_Repeat.
  cbn [rest Nat.add]. rewrite repeat_matcher_plus.
  rewrite matcher_Group, matcher_Cat.
  apply matcher_Lit_fail; exact H.
Qed.

Lemma begins_fence : begins fence_re fence.
Proof. intros p s H. now apply match_at_fence_fail. Qed.

Lemma inside_nowhere (r : regex) (lit S : jsstring) :
  begins r lit -> nowhere lit S [] ->
  forall p e1 e2 v,
    S = e1 ++ e2 -> e2 <> [] -> match_at r (last_of p e1) (e2 ++ v) = None.
Proof.
  intros Hb Hn p e1 e2 v E Hne. apply Hb. exact (Hn e1 e2 v E Hne).
Qed.

Lemma inside_calm (marks S : jsstring) :
  (forall p, calm marks p S []) ->
  forall p e1 e2 v,
    S = e1 ++ e2 -> e2 <> [] ->
    match_at (header_re marks) (last_of p e1) (e2 ++ v) = None.
Proof.
  intros Hc p e1 e2 v E Hne. unfold header_re, Seq.
  apply match_at_line_pattern. exact (Hc p e1 e2 v E Hne).
Qed.

Lemma nowhere_lacks (k : char) (pat X Y : jsstring) :
  lacks k X = true -> nowhere (k :: pat) X Y.
Proof.
  intros H e1 e2 v E Hne. destruct e2 as [|x e2]; [congruence|].
  apply startsWith_head. apply (@lacks_In k X x H).
  rewrite E. apply in_or_app. right. left. reflexivity.
Qed.

Lemma lacks_nowhere (k : char) (X : jsstring) :
  nowhere [k] X [] -> lacks k X = true.
Proof.
  intros H. apply forallb_forall. intros x Hx.
  apply in_split in Hx. destruct Hx as (l1 & l2 & E).
  pose proof (H l1 (x :: l2) [] E ltac:(discriminate)) as Hs.
  change (startsWith ((x :: l2) ++ [] ++ []) [k]) with (char_eqb k x && true)
    in Hs.
  rewrite andb_true_r in Hs. cbv beta.
  unfold char_eqb in *. now rewrite N.eqb_sym, Hs.
Qed.

End Begins.

(** ** Matches that start before a segment *)

Section Crossing.

Variable S : jsstring.
Hypothesis S_nonempty : S <> [].

Lemma cross_inline :
  lacks backtick S = true ->
  forall p a2 v y,
    a2 <> [] -> match_at inline_re p (a2 ++ S ++ v) = Some y ->
    (exists m a3, m <> [] /\ a2 = m ++ a3 /\ rest y = a3 ++ S ++ v) \/
    (exists w, v = w ++ rest y /\
       includes (replacement_text inline_re (Template inline_template)
                   (a2 ++ S ++ w) (caps y)) S = true).
Proof.
  intros Hl p a2 v y Ha M.
  destruct (match_at_inline_inv _ _ M) as (body & Hb & Lb & E & C).
  destruct a2 as [|x a2]; [congruence|].
  simpl in E. injection E as -> E.
  apply app_eq_app in E. destruct E as (l & [[E1 E2]|[E1 E2]]).
  - destruct l as [|z l].
    + simpl in E2. destruct S as [|s0 S']; [congruence|].
      simpl in E2. injection E2 as <- _. discriminate Hl.
    + simpl in E2. injection E2 as <- E2. left.
      exists (backtick :: body ++ [backtick]), l.
      split; [discriminate|]. split; [|exact E2].
      rewrite E1. simpl. now rewrite <- app_assoc.
  - apply app_eq_app in E2. destruct E2 as (l2 & [[F1 F2]|[F1 F2]]).
    + destruct l2 as [|z l2].
      * simpl in F2. rewrite app_nil_r in F1. subst l. right.
        exists [backtick]. split; [now rewrite <- F2|].
        rewrite C, inline_template_text, E1.
        apply includes_app_r. rewrite <- app_assoc. apply includes_middle.
      * simpl in F2. injection F2 as <- F2.
        rewrite F1, !lacks_app in Hl.
        apply andb_true_iff in Hl. destruct Hl as [_ Hl]. discriminate Hl.
    + right. exists (l2 ++ [backtick]).
      split; [rewrite F2, <- app_assoc; reflexivity|].
      rewrite C, inline_template_text, E1, F1.
      apply includes_app_r. rewrite <- !app_assoc. apply includes_middle.
Qed.

Lemma cross_bold :
  nowhere (js "**") S [] ->
  match S with [] => True | c :: _ => char_eqb asterisk c = false end ->
  forall p a2 v y,
    a2 <> [] -> match_at bold_re p (a2 ++ S ++ v) = Some y ->
    (exists m a3, m <> [] /\ a2 = m ++ a3 /\ rest y = a3 ++ S ++ v) \/
    (exists w, v = w ++ rest y /\
       includes (replacement_text bold_re (Template bold_template)
                   (a2 ++ S ++ w) (caps y)) S = true).
Proof.
  intros Hn Hh p a2 v y Ha M.
  destruct (match_at_bold_inv _ _ M) as (body & Hb & Lb & E & C).
  destruct S as [|s0 S'] eqn:ES; [congruence|]. rewrite <- ES in *.
  assert (Hs0 : forall t, S ++ t <> asterisk :: skipn 1 (S ++ t)).
  { intros t. rewrite ES. simpl. intros F. injection F as ->.
    rewrite char_eqb_refl in Hh. discriminate. }
  destruct a2 as [|x1 [|x2 a2]]; [congruence| |].
  - exfalso. simpl in E. injection E as -> E.
    apply (Hs0 v). rewrite E. reflexivity.
  - simpl in E. injection E as -> -> E.
    apply app_eq_app in E. destruct E as (l & [[E1 E2]|[E1 E2]]).
    + destruct l as [|z1 [|z2 l]].
      * exfalso. simpl in E2. apply (Hs0 v). rewrite <- E2. reflexivity.
      * exfalso. simpl in E2. injection E2 as <- E2.
        apply (Hs0 v). rewrite <- E2. reflexivity.
      * simpl in E2. injection E2 as <- <- E2. left.
        exists (js "**" ++ body ++ js "**"), l.
        split; [discriminate|]. split; [|exact E2].
        rewrite E1. simpl. now rewrite <- app_assoc.
    + apply app_eq_app in E2. destruct E2 as (l2 & [[F1 F2]|[F1 F2]]).
      * destruct l2 as [|z l2].
        -- simpl in F2. rewrite app_nil_r in F1. subst l. right.
           exists (js "**"). split; [now rewrite <- F2|].
           rewrite C, bold_template_text, E1. unfold strong_of.
           apply includes_app_r, includes_app_r, includes_app_r.
           rewrite <- app_assoc. apply includes_middle.
        -- exfalso.
           pose proof (Hn l (z :: l2) v F1 ltac:(discriminate)) as Hs.
           change ((z :: l2) ++ [] ++ v) with ((z :: l2) ++ v) in Hs.
           rewrite <- F2 in Hs. discriminate Hs.
      * right. exists (l2 ++ js "**").
        split; [rewrite F2, <- app_assoc; reflexivity|].
        rewrite C, bold_template_text, E1, F1. unfold strong_of.
        apply includes_app_r, includes_app_r, includes_app_r.
        rewrite <- !app_assoc. apply includes_middle.
Qed.

End Crossing.

Section CrossingLines.

Variable marks : jsstring.
Variable tpl : jsstring.
Variable element : jsstring -> jsstring.

Hypothesis marks_nonempty : marks <> [].
Hypothesis marks_one_line : forallb not_line_terminator marks = true.
Hypothesis tpl_element : forall matched t,
  replacement_text (header_re marks) (Template tpl) matched [Some t] = element t.

(** A line ends before a segment that starts with a line terminator. *)
Lemma cross_line_led (c0 : char) (S' : jsstring) :
  is_line_terminator c0 = true ->
  forall p a2 v y,
    a2 <> [] ->
    match_at (header_re marks) p (a2 ++ (c0 :: S') ++ v) = Some y ->
    (exists m a3, m <> [] /\ a2 = m ++ a3 /\ rest y = a3 ++ (c0 :: S') ++ v) \/
    (exists w, v = w ++ rest y /\
       includes (replacement_text (header_re marks) (Template tpl)
                   (a2 ++ (c0 :: S') ++ w) (caps y)) (c0 :: S') = true).
Proof.
  intros Hc p a2 v y Ha M. left.
  destruct (match_at_line_inv _ _ _ M) as (run & Hb & Hr & E & C & He).
  rewrite (app_assoc marks run (rest y)) in E. symmetry in E.
  apply app_eq_app in E. destruct E as (l & [[E1 E2]|[E1 E2]]).
  - destruct l as [|z l].
    + exists (marks ++ run), []. rewrite app_nil_r in E1.
      split; [rewrite E1; exact Ha|]. split; [now rewrite app_nil_r|].
      simpl in E2 |- *. now rewrite <- E2.
    + exfalso. simpl in E2. injection E2 as <- E2.
      assert (Hm : forallb not_line_terminator (marks ++ run) = true)
        by (now rewrite forallb_app, marks_one_line, Hr).
      rewrite E1, forallb_app in Hm. apply andb_true_iff in Hm.
      destruct Hm as [_ Hm]. simpl in Hm. unfold not_line_terminator in Hm.
      rewrite Hc in Hm. discriminate.
  - exists (marks ++ run), l. split; [|split; assumption].
    destruct marks; [congruence | discriminate].
Qed.

(** A segment on one line is inside the line or after it. *)
Lemma cross_line_single (S : jsstring) :
  (forall t, includes t S = true -> includes (element t) S = true) ->
  S <> [] -> forallb not_line_terminator S = true ->
  match S with [] => True | c :: _ => lacks c marks = true end ->
  forall p a2 v y,
    a2 <> [] -> match_at (header_re marks) p (a2 ++ S ++ v) = Some y ->
    (exists m a3, m <> [] /\ a2 = m ++ a3 /\ rest y = a3 ++ S ++ v) \/
    (exists w, v = w ++ rest y /\
       includes (replacement_text (header_re marks) (Template tpl)
                   (a2 ++ S ++ w) (caps y)) S = true).
Proof.
  intros Hel HS Hl Hh p a2 v y Ha M.
  destruct (match_at_line_inv _ _ _ M) as (run & Hb & Hr & E & C & He).
  assert (Hcover : forall w, marks ++ run = a2 ++ S ++ w ->
            includes (element run) S = true).
  { intros w Ew. apply Hel.
    apply app_eq_app in Ew. destruct Ew as (l3 & [[G1 G2]|[G1 G2]]).
    - destruct l3 as [|z l3].
      + simpl in G2. rewrite <- G2. apply (@includes_middle [] S w).
      + exfalso. destruct S as [|s0 S']; [congruence|].
        simpl in G2. injection G2 as -> _.
        rewrite G1, lacks_app in Hh. apply andb_true_iff in Hh.
        destruct Hh as [_ Hh]. simpl in Hh.
        rewrite char_eqb_refl in Hh. discriminate.
    - rewrite G2. apply includes_middle. }
  rewrite (app_assoc marks run (rest y)) in E. symmetry in E.
  apply app_eq_app in E. destruct E as (l & [[E1 E2]|[E1 E2]]).
  - symmetry in E2.
    apply app_eq_app in E2. destruct E2 as (l2 & [[F1 F2]|[F1 F2]]).
    + right. exists l2. split; [exact F2|].
      rewrite C, tpl_element. apply (Hcover l2).
      now rewrite E1, F1.
    + destruct l2 as [|z l2].
      * right. exists []. rewrite app_nil_r in F1. simpl in F2.
        split; [now rewrite F2|].
        rewrite C, tpl_element. apply (Hcover []).
        now rewrite E1, F1, app_nil_r.
      * exfalso.
        assert (Hz : In z S) by (rewrite F1; apply in_or_app; right; now left).
        pose proof (proj1 (forallb_forall _ _) Hl z Hz) as Hn.
        unfold not_line_terminator in Hn.
        rewrite F2 in He. simpl in He. rewrite He in Hn. discriminate.
  - left. exists (marks ++ run), l. split; [|split; assumption].
    destruct marks; [congruence | discriminate].
Qed.

End CrossingLines.

Section CrossingList.

(** A match of the list pattern ends with [</li>] and white space. *)
Lemma items_end (p : option char) (m f : jsstring) :
  star (lang (Group 1 (Cat (Lit (js "<li"))
                (Cat (Star Dot) (Cat (Lit (js "</li>")) (Star Space))))))
    p m f ->
  forall g0 w0,
    forallb is_space w0 = true ->
    exists m0 w,
      (g0 ++ js "</li>" ++ w0) ++ m = m0 ++ js "</li>" ++ w /\
      forallb is_space w = true.
Proof.
  intros H. induction H as [|p m1 m2 f L1 _ IH]; intros g0 w0 Hw.
  - exists g0, w0. now rewrite app_nil_r.
  - destruct (lang_item L1) as (d & w1 & -> & _ & Hw1).
    destruct (IH (js "<li" ++ d) w1 Hw1) as (m0 & w & E & Hw').
    exists ((g0 ++ js "</li>" ++ w0) ++ m0), w. split; [|exact Hw'].
    rewrite <- (app_assoc (g0 ++ js "</li>" ++ w0) m0). f_equal.
    rewrite <- E. now rewrite <- !app_assoc.
Qed.

Variable S : jsstring.

Hypothesis S_head :
  match S with
  | [] => False
  | c :: _ =>
      is_space c = false /\ (lacks c (js "/li>") = true \/ lacks 62 S = true)
  end.
Hypothesis S_close : nowhere (js "</li>") S [].

Lemma cross_list :
  forall p a2 v y,
    a2 <> [] -> match_at list_re p (a2 ++ S ++ v) = Some y ->
    (exists m a3, m <> [] /\ a2 = m ++ a3 /\ rest y = a3 ++ S ++ v) \/
    (exists w, v = w ++ rest y /\
       includes (replacement_text list_re (Template list_template)
                   (a2 ++ S ++ w) (caps y)) S = true).
Proof.
  intros p a2 v y Ha M.
  destruct (match_at_list_inv _ _ M) as (g & m & E & Lg & Lm).
  destruct (lang_item Lg) as (d & w0 & Eg & _ & Hw0).
  assert (Hne : g ++ m <> []) by (rewrite Eg; discriminate).
  assert (Hend : exists m0 w, g ++ m = m0 ++ js "</li>" ++ w /\
                              forallb is_space w = true).
  { destruct (@items_end _ _ _ Lm (js "<li" ++ d) w0 Hw0) as (m0 & w & E0 & Hw).
    exists m0, w. split; [|exact Hw]. rewrite <- E0, Eg.
    now rewrite <- !app_assoc. }
  assert (Hcover : forall w,
            includes (replacement_text list_re (Template list_template)
                        (a2 ++ S ++ w) (caps y)) S = true).
  { intros w. rewrite list_template_text.
    apply includes_app_r, includes_app_l, includes_middle. }
  symmetry in E.
  apply app_eq_app in E. destruct E as (l & [[E1 E2]|[E1 E2]]).
  - symmetry in E2.
    apply app_eq_app in E2. destruct E2 as (l2 & [[F1 F2]|[F1 F2]]).
    + right. exists l2. split; [exact F2 | apply Hcover].
    + destruct l2 as [|z l2].
      * right. exists []. simpl in F2. split; [now rewrite F2 | apply Hcover].
      * destruct l as [|l0 l].
        -- left. exists (g ++ m), []. rewrite app_nil_r in E1.
           split; [exact Hne|]. split; [now rewrite app_nil_r|].
           simpl in F1. simpl. now rewrite F2, F1.
        -- exfalso.
           pose proof S_head as Hh. rewrite F1 in Hh.
           change ((l0 :: l) ++ z :: l2) with (l0 :: l ++ z :: l2) in Hh.
           destruct Hh as [Hsp Hl].
           destruct Hend as (m0 & w & Em & Hw).
           assert (Hgt : forall t, l0 :: l = t ++ 62 :: w -> In l0 (js "/li>") ->
                                   False).
           { intros t Et Hin. destruct Hl as [Hl|Hl].
             - pose proof (@lacks_In l0 (js "/li>") l0 Hl Hin) as F.
               rewrite char_eqb_refl in F. discriminate F.
             - assert (I62 : In 62 (l0 :: l ++ z :: l2)).
               { change (l0 :: l ++ z :: l2) with ((l0 :: l) ++ z :: l2).
                 rewrite Et. apply in_or_app. left. apply in_or_app. right.
                 left. reflexivity. }
               pose proof (@lacks_In 62 _ 62 Hl I62) as F.
               rewrite char_eqb_refl in F. discriminate F. }
           rewrite E1 in Em.
           apply app_eq_app in Em. destruct Em as (k & [[K1 K2]|[K1 K2]]).
           ++ destruct k as [|k1 [|k2 [|k3 [|k4 [|k5 k]]]]];
                simpl in K2.
              ** assert (HS : S <> []) by (rewrite F1; discriminate).
                 pose proof (@S_close [] S v eq_refl HS) as Hs.
                 rewrite F1, <- K2 in Hs. discriminate Hs.
              ** injection K2 as _ K2 K3.
                 apply (Hgt (js "/li")); [rewrite <- K2, <- K3; reflexivity|].
                 rewrite <- K2. simpl. tauto.
              ** injection K2 as _ _ K2 K3.
                 apply (Hgt (js "li")); [rewrite <- K2, <- K3; reflexivity|].
                 rewrite <- K2. simpl. tauto.
              ** injection K2 as _ _ _ K2 K3.
                 apply (Hgt (js "i")); [rewrite <- K2, <- K3; reflexivity|].
                 rewrite <- K2. simpl. tauto.
              ** injection K2 as _ _ _ _ K2 K3.
                 apply (Hgt []); [rewrite <- K2, <- K3; reflexivity|].
                 rewrite <- K2. simpl. tauto.
              ** injection K2 as _ _ _ _ _ K2.
                 rewrite K2 in Hw. rewrite forallb_app in Hw.
                 apply andb_true_iff in Hw. destruct Hw as [_ Hw].
                 cbn [forallb] in Hw. rewrite Hsp in Hw. discriminate Hw.
           ++ assert (EK : S = k ++ js "</li>" ++ w ++ z :: l2)
                by (rewrite F1, K2, <- !app_assoc; reflexivity).
              pose proof (@S_close k (js "</li>" ++ w ++ z :: l2) v EK
                            ltac:(discriminate)) as Hs.
              discriminate Hs.
  - left. exists (g ++ m), l. split; [exact Hne|]. split; assumption.
Qed.

End CrossingList.

(** ** The paragraph pass and a segment without blank line *)

Section ParagraphsKeep.

Lemma startsWith_two (a b x y : char) (s : jsstring) :
  startsWith (a :: b :: s) [x; y] = true -> a = x /\ b = y.
Proof.
  cbn [startsWith]. unfold char_eqb. intros H.
  apply andb_true_iff in H. destruct H as [H1 H].
  apply andb_true_iff in H. destruct H as [H2 _].
  apply N.eqb_eq in H1, H2. now subst.
Qed.

Variable E : jsstring.

Hypothesis E_head : exists c E', E = c :: E' /\ is_space c = false.
Hypothesis E_blank : nowhere [newline; newline] E [].

(** The first piece that [split_go] emits starts with the piece under
    construction. *)
Lemma split_go_first (sep s : jsstring) :
  forall skip cur, exists t rest, split_go sep skip cur s = (rev cur ++ t) :: rest.
Proof.
  induction s as [|c s IH]; intros skip cur.
  - exists [], []. simpl. now rewrite app_nil_r.
  - destruct skip as [|n].
    + cbn [split_go]. destruct (startsWith (c :: s) sep).
      * exists [], (split_go sep (pred (List.length sep)) [] s).
        now rewrite app_nil_r.
      * destruct (IH 0%nat (c :: cur)) as (t & rest & ->).
        exists (c :: t), rest. simpl. now rewrite <- app_assoc.
    + cbn [split_go]. apply IH.
Qed.

Lemma split_go_segment (e2 : jsstring) :
  forall e1 cur v,
    E = e1 ++ e2 ->
    split_go [newline; newline] 0 cur (e2 ++ v) =
    split_go [newline; newline] 0 (rev e2 ++ cur) v.
Proof.
  induction e2 as [|c e2 IH]; intros e1 cur v HE; [reflexivity|].
  change ((c :: e2) ++ v) with (c :: e2 ++ v).
  cbn [split_go].
  pose proof (@E_blank e1 (c :: e2) v HE ltac:(discriminate)) as Hs.
  change ((c :: e2) ++ [] ++ v) with (c :: e2 ++ v) in Hs.
  rewrite Hs.
  rewrite (IH (e1 ++ [c]) (c :: cur) v)
    by (rewrite <- app_assoc; exact HE).
  simpl rev. now rewrite <- app_assoc.
Qed.

Lemma split_keeps (u : jsstring) :
  forall skip cur v,
    (skip = 0%nat \/ skip = 1%nat /\ exists u', u = newline :: u') ->
    exists piece,
      In piece (split_go [newline; newline] skip cur (u ++ E ++ v)) /\
      includes piece E = true.
Proof.
  induction u as [|c u IH]; intros skip cur v Hskip.
  - destruct Hskip as [->|[_ (u' & F)]]; [|discriminate].
    simpl app. rewrite (@split_go_segment E [] cur v eq_refl).
    destruct (split_go_first [newline; newline] v 0 (rev E ++ cur))
      as (t & rest & ->).
    eexists. split; [left; reflexivity|].
    rewrite rev_app_distr, rev_involutive, <- app_assoc.
    apply includes_middle.
  - change ((c :: u) ++ E ++ v) with (c :: u ++ E ++ v).
    destruct Hskip as [->|[-> _]].
    + cbn [split_go].
      destruct (startsWith (c :: u ++ E ++ v) [newline; newline]) eqn:Hs.
      * assert (Hu : exists u', u = newline :: u').
        { destruct u as [|x u].
          - exfalso. destruct E_head as (h & E' & EE & Hh).
            rewrite EE in Hs. cbn [app] in Hs.
            destruct (@startsWith_two _ _ _ _ _ Hs) as [_ F].
            rewrite F in Hh. discriminate Hh.
          - cbn [app] in Hs. destruct (@startsWith_two _ _ _ _ _ Hs) as [_ F].
            rewrite F. eauto. }
        destruct (IH 1%nat [] v (or_intror (conj eq_refl Hu)))
          as (piece & Hin & Hp).
        exists piece. split; [right; exact Hin | exact Hp].
      * exact (IH 0%nat (c :: cur) v (or_introl eq_refl)).
    + cbn [split_go]. exact (IH 0%nat cur v (or_introl eq_refl)).
Qed.

Lemma paragraph_keeps (piece : jsstring) :
  includes piece E = true -> includes (paragraph piece) E = true.
Proof.
  intros H. unfold paragraph.
  destruct (startsWith (trim piece) (js "<")); [exact H|].
  destruct (str_eqb (trim piece) []) eqn:Ht.
  - exfalso. destruct (trim piece) as [|x t] eqn:Et; [|discriminate].
    destruct (trim_decompose piece) as (w1 & w2 & Ep & H1 & H2 & _).
    rewrite Et in Ep. simpl in Ep.
    destruct (includes_decompose _ _ H) as (a & b & Ea).
    assert (Hall : forallb is_space piece = true)
      by (rewrite Ep, forallb_app, H1, H2; reflexivity).
    destruct E_head as (h & E' & EE & Hh).
    rewrite Ea, EE, !forallb_app in Hall.
    apply andb_true_iff in Hall. destruct Hall as [_ Hall].
    apply andb_true_iff in Hall. destruct Hall as [Hall _].
    simpl in Hall. rewrite Hh in Hall. discriminate.
  - apply includes_app_r, includes_app_r, includes_app_r, includes_app_l, H.
Qed.

Lemma join_keeps (f : jsstring -> jsstring) (sep : jsstring)
    (pieces : list jsstring) (piece : jsstring) :
  In piece pieces -> includes (f piece) E = true ->
  includes (join sep (map f pieces)) E = true.
Proof.
  intros Hin Hp. induction pieces as [|q pieces IH]; [destruct Hin|].
  destruct pieces as [|q' pieces].
  - destruct Hin as [->|[]]. exact Hp.
  - cbn [map join]. destruct Hin as [->|Hin].
    + apply includes_app_l, Hp.
    + apply includes_app_r, includes_app_r. exact (IH Hin).
Qed.

(** The paragraph pass keeps the segment. *)
Lemma paragraphs_keeps (s : jsstring) :
  includes s E = true -> includes (paragraphs s) E = true.
Proof.
  intros H. destruct (includes_decompose _ _ H) as (u & v & ->).
  unfold paragraphs, split.
  destruct (@split_keeps u 0%nat [] v (or_introl eq_refl)) as (piece & Hin & Hp).
  exact (@join_keeps paragraph [newline] _ piece Hin (@paragraph_keeps piece Hp)).
Qed.

End ParagraphsKeep.

(** ** Where a pattern can start in a text *)

Section Overlaps.

Lemma agrees_startsWith (pat : jsstring) :
  forall s w, startsWith (s ++ w) pat = true -> agrees s pat = true.
Proof.
  induction pat as [|x pat IH]; intros s w H; [destruct s; reflexivity|].
  destruct s as [|y s]; [reflexivity|].
  change ((y :: s) ++ w) with (y :: s ++ w) in H.
  cbn [startsWith agrees] in *.
  apply andb_true_iff in H. destruct H as [H1 H2].
  rewrite H1. exact (IH s w H2).
Qed.

Lemma clear_split (pat e1 e2 : jsstring) :
  clear pat (e1 ++ e2) = true -> e2 <> [] -> agrees e2 pat = false.
Proof.
  induction e1 as [|c e1 IH]; intros H Hne.
  - destruct e2 as [|c e2]; [congruence|].
    change ([] ++ c :: e2) with (c :: e2) in H. cbn [clear] in H.
    apply andb_true_iff in H. destruct H as [H _].
    now apply negb_true_iff in H.
  - change ((c :: e1) ++ e2) with (c :: e1 ++ e2) in H. cbn [clear] in H.
    apply andb_true_iff in H. destruct H as [_ H]. exact (IH H Hne).
Qed.

Lemma clear_nowhere (pat A : jsstring) :
  clear pat A = true -> forall Y, nowhere pat A Y.
Proof.
  intros H Y e1 e2 v E Hne. rewrite E in H.
  pose proof (@clear_split pat e1 e2 H Hne) as Ha.
  destruct (startsWith (e2 ++ Y ++ v) pat) eqn:Hs; [|reflexivity].
  apply agrees_startsWith in Hs. congruence.
Qed.

(** A pattern that starts in [a ++ w] at the head of [a] lies in [a] or
    goes on into [w]. *)
Lemma startsWith_straddle (a : jsstring) :
  forall w q,
    startsWith (a ++ w) q = true ->
    startsWith a q = true \/
    exists q2, q = a ++ q2 /\ q2 <> [] /\ startsWith w q2 = true.
Proof.
  induction a as [|c a IH]; intros w q H.
  - destruct q as [|x q]; [left; reflexivity|].
    right. exists (x :: q). repeat split; [discriminate | exact H].
  - destruct q as [|x q]; [left; reflexivity|].
    change ((c :: a) ++ w) with (c :: a ++ w) in H. cbn [startsWith] in *.
    apply andb_true_iff in H. destruct H as [H1 H2].
    destruct (IH w q H2) as [H3|(q2 & Eq & Hq & H3)].
    + left. now rewrite H1, H3.
    + right. exists q2. repeat split; [|exact Hq|exact H3].
      unfold char_eqb in H1. apply N.eqb_eq in H1. subst x.
      now rewrite Eq.
Qed.

Lemma startsWith_includes (s pat : jsstring) :
  startsWith s pat = true -> includes s pat = true.
Proof. intros H. destruct s; simpl; rewrite H; reflexivity. Qed.

(** A text without [pat], before a code unit that is not in the tail of
    [pat]. *)
Lemma nowhere_text (pat X : jsstring) (y : char) (Y' : jsstring) :
  includes X pat = false -> lacks y (tl pat) = true ->
  nowhere pat X (y :: Y').
Proof.
  intros Hi Hl e1 e2 v E Hne.
  destruct (startsWith (e2 ++ (y :: Y') ++ v) pat) eqn:Hs; [|reflexivity].
  exfalso. apply startsWith_straddle in Hs.
  destruct Hs as [Hs|(q2 & Eq & Hq & Hs)].
  - rewrite E in Hi.
    rewrite (@includes_app_r e1 e2 pat (@startsWith_includes e2 pat Hs)) in Hi.
    discriminate.
  - destruct e2 as [|x e2]; [congruence|].
    destruct q2 as [|k q2]; [congruence|].
    rewrite Eq in Hl. cbn [tl app] in Hl.
    change ((y :: Y') ++ v) with (y :: Y' ++ v) in Hs. cbn [startsWith] in Hs.
    apply andb_true_iff in Hs. destruct Hs as [Hs _].
    rewrite lacks_app in Hl. apply andb_true_iff in Hl. destruct Hl as [_ Hl].
    pose proof (@lacks_In y (k :: q2) k Hl (or_introl eq_refl)) as F.
    unfold char_eqb in *. rewrite N.eqb_sym in F. congruence.
Qed.

Lemma nowhere_app (pat X Y Z : jsstring) :
  nowhere pat X (Y ++ Z) -> nowhere pat Y Z -> nowhere pat (X ++ Y) Z.
Proof.
  intros HX HY e1 e2 v E Hne.
  apply app_eq_app in E. destruct E as (l & [[E1 E2]|[E1 E2]]).
  - destruct l as [|c l].
    + rewrite app_nil_r in E1. simpl in E2. subst e2.
      exact (HY [] Y v eq_refl Hne).
    + pose proof (HX e1 (c :: l) v E1 ltac:(discriminate)) as H.
      rewrite E2. rewrite <- !app_assoc. rewrite <- !app_assoc in H. exact H.
  - pose proof (HY l e2 v E2 Hne) as H. exact H.
Qed.

Lemma nowhere_nil (pat X Y : jsstring) :
  nowhere pat X (Y ++ []) -> nowhere pat X Y.
Proof. now rewrite app_nil_r. Qed.

Lemma calm_nowhere (marks : jsstring) (p : option char) (X Y : jsstring) :
  nowhere marks X Y -> calm marks p X Y.
Proof. intros H e1 e2 v E Hne. right. exact (H e1 e2 v E Hne). Qed.

Lemma calm_app (marks : jsstring) (p : option char) (X Y Z : jsstring) :
  calm marks p X (Y ++ Z) -> calm marks (last_of p X) Y Z ->
  calm marks p (X ++ Y) Z.
Proof.
  intros HX HY e1 e2 v E Hne.
  apply app_eq_app in E. destruct E as (l & [[E1 E2]|[E1 E2]]).
  - destruct l as [|c l].
    + rewrite app_nil_r in E1. simpl in E2. subst e2 e1.
      pose proof (HY [] Y v eq_refl Hne) as H. rewrite last_of_nil in H. exact H.
    + pose proof (HX e1 (c :: l) v E1 ltac:(discriminate)) as H.
      rewrite E2. rewrite <- !app_assoc. rewrite <- !app_assoc in H. exact H.
  - pose proof (HY l e2 v E2 Hne) as H.
    rewrite <- last_of_app, <- E1 in H. exact H.
Qed.

(** A text none of whose lines starts with [marks], before a code unit
    that is not in [marks]. *)
Lemma calm_text (marks : jsstring) (p : option char) (X : jsstring)
    (y : char) (Y' : jsstring) :
  no_line_starts marks p X = true -> lacks y marks = true ->
  calm marks p X (y :: Y').
Proof.
  intros Hn Hl e1 e2 v E Hne.
  destruct (at_bol (last_of p e1)) eqn:Hb; [right | left; reflexivity].
  rewrite E in Hn.
  pose proof (@no_line_starts_split marks e1 e2 p Hn Hb) as Hs.
  exact (@startsWith_more y marks Hl e2 ((y :: Y') ++ v) Hs eq_refl).
Qed.

Lemma lacks_head (x k : char) (marks : jsstring) :
  lacks x (k :: marks) = true -> char_eqb k x = false.
Proof.
  intros H. pose proof (@lacks_In x (k :: marks) k H (or_introl eq_refl)) as F.
  unfold char_eqb in *. now rewrite N.eqb_sym.
Qed.

End Overlaps.

(** ** What escaping does not bring in *)

Section Escaping.

Lemma escape_char_special (c : char) :
  is_special c = true ->
  escape_char c = js "&amp;" \/ escape_char c = js "&lt;" \/
  escape_char c = js "&gt;" \/ escape_char c = js "&quot;" \/
  escape_char c = js "&#039;".
Proof.
  unfold is_special, escape_char. intros H.
  destruct (c =? 38); [tauto|].
  destruct (c =? 60); [tauto|].
  destruct (c =? 62); [tauto|].
  destruct (c =? 34); [tauto|].
  destruct (c =? 39); [tauto|discriminate].
Qed.

Lemma escape_char_other (c : char) :
  is_special c = false -> escape_char c = [c].
Proof.
  intros H. destruct (escape_char_cases c) as [[_ E]|[F _]]; [exact E|congruence].
Qed.

(** A pattern without any of the five characters starts in the escaped
    text where it starts in the text. *)
Lemma startsWith_escape (q : jsstring) :
  forallb (fun x => negb (is_special x)) q = true ->
  forall t, startsWith (flat_map escape_char t) q = startsWith t q.
Proof.
  induction q as [|x q IH]; intros Hq t; [reflexivity|].
  cbn [forallb] in Hq. apply andb_true_iff in Hq. destruct Hq as [Hx Hq].
  apply negb_true_iff in Hx.
  destruct t as [|c t]; [reflexivity|].
  cbn [flat_map]. destruct (is_special c) eqn:Hc.
  - assert (Hxc : char_eqb x c = false).
    { unfold char_eqb. apply N.eqb_neq. intros ->. congruence. }
    cbn [startsWith]. rewrite Hxc. cbn [andb].
    assert (Hxa : char_eqb x 38 = false).
    { unfold char_eqb. apply N.eqb_neq. intros ->. discriminate Hx. }
    destruct (escape_char_special c Hc) as [E|[E|[E|[E|E]]]]; rewrite E;
      exact (@startsWith_head x 38 _ q Hxa).
  - rewrite (escape_char_other c Hc).
    change ([c] ++ flat_map escape_char t) with (c :: flat_map escape_char t).
    cbn [startsWith]. now rewrite (IH Hq t).
Qed.

(** A code unit that no entity holds occurs in the escaped text only
    where it occurs in the text. *)
Lemma lacks_escape (k : char) (t : jsstring) :
  lacks k (js "&amp;&lt;&gt;&quot;&#039;") = true ->
  lacks k t = true -> lacks k (flat_map escape_char t) = true.
Proof.
  intros Hk. induction t as [|c t IH]; intros H; [reflexivity|].
  change (c :: t) with ([c] ++ t) in H. rewrite lacks_app in H.
  apply andb_true_iff in H. destruct H as [H1 H2].
  cbn [flat_map]. rewrite lacks_app, (IH H2), andb_true_r.
  destruct (is_special c) eqn:Hc.
  - change (js "&amp;&lt;&gt;&quot;&#039;")
      with (js "&amp;" ++ js "&lt;" ++ js "&gt;" ++ js "&quot;" ++ js "&#039;")
      in Hk.
    rewrite !lacks_app in Hk.
    apply andb_true_iff in Hk. destruct Hk as [K1 Hk].
    apply andb_true_iff in Hk. destruct Hk as [K2 Hk].
    apply andb_true_iff in Hk. destruct Hk as [K3 Hk].
    apply andb_true_iff in Hk. destruct Hk as [K4 K5].
    destruct (escape_char_special c Hc) as [E|[E|[E|[E|E]]]]; rewrite E;
      assumption.
  - now rewrite (escape_char_other c Hc).
Qed.

Lemma includes_escape (k : char) (q t : jsstring) :
  lacks k (js "&amp;&lt;&gt;&quot;&#039;") = true ->
  forallb (fun x => negb (is_special x)) (k :: q) = true ->
  includes t (k :: q) = false ->
  includes (flat_map escape_char t) (k :: q) = false.
Proof.
  intros Hk Hq. induction t as [|c t IH]; intros H; [exact H|].
  cbn [includes] in H. apply orb_false_iff in H. destruct H as [H1 H2].
  destruct (is_special c) eqn:Hc.
  - cbn [flat_map].
    rewrite (@lacks_includes_app k q (escape_char c) (flat_map escape_char t)).
    + exact (IH H2).
    + pose proof (@lacks_escape k [c] Hk) as L. cbn [flat_map] in L.
      rewrite app_nil_r in L. apply L.
      unfold lacks. cbn [forallb]. rewrite andb_true_r.
      apply negb_true_iff. unfold char_eqb. apply N.eqb_neq. intros ->.
      cbn [forallb] in Hq. apply andb_true_iff in Hq. destruct Hq as [Hq _].
      apply negb_true_iff in Hq. congruence.
  - pose proof (@startsWith_escape (k :: q) Hq (c :: t)) as S1.
    rewrite H1 in S1.
    cbn [flat_map] in *. rewrite (escape_char_other c Hc) in *.
    change ([c] ++ flat_map escape_char t) with (c :: flat_map escape_char t)
      in *.
    cbn [includes]. rewrite S1, (IH H2). reflexivity.
Qed.

Lemma no_line_starts_prev (marks : jsstring) (p p' : option char)
    (s : jsstring) :
  at_bol p = at_bol p' ->
  no_line_starts marks p s = no_line_starts marks p' s.
Proof. intros H. destruct s; cbn [no_line_starts]; now rewrite H. Qed.

Lemma no_line_starts_entity (marks ent w : jsstring) (p : option char) :
  In marks line_marks ->
  ent = js "&amp;" \/ ent = js "&lt;" \/ ent = js "&gt;" \/
  ent = js "&quot;" \/ ent = js "&#039;" ->
  no_line_starts marks p (ent ++ w) = no_line_starts marks (Some 59) w.
Proof.
  intros Hm He.
  assert (Hh : forall z, startsWith (38 :: z) marks = false).
  { intros z. destruct Hm as [<-|[<-|[<-|[<-|[]]]]]; reflexivity. }
  assert (Hstep : forall x z q, is_line_terminator x = false ->
            no_line_starts marks (Some x) (z :: q) =
            no_line_starts marks (Some z) q).
  { intros x z q Hx. cbn [no_line_starts at_bol]. now rewrite Hx. }
  assert (H0 : forall z q,
            no_line_starts marks p (38 :: z :: q) =
            no_line_starts marks (Some 38) (z :: q)).
  { intros z q. cbn [no_line_starts]. rewrite (Hh (z :: q)).
    rewrite andb_false_r. cbn [negb andb].
    change (at_bol (Some 38)) with false. reflexivity. }
  destruct He as [->|[->|[->|[->| ->]]]];
    (etransitivity; [exact (H0 _ _)|]);
    repeat (etransitivity; [exact (Hstep _ _ _ eq_refl)|]);
    reflexivity.
Qed.

Lemma no_line_starts_escape (marks : jsstring) (t : jsstring) :
  In marks line_marks ->
  forall p, no_line_starts marks p t = true ->
            no_line_starts marks p (flat_map escape_char t) = true.
Proof.
  intros Hm.
  assert (Hq : forallb (fun x => negb (is_special x)) marks = true)
    by (destruct Hm as [<-|[<-|[<-|[<-|[]]]]]; reflexivity).
  induction t as [|c t IH]; intros p H; [exact H|].
  destruct (is_special c) eqn:Hc.
  - cbn [flat_map].
    rewrite (@no_line_starts_entity marks (escape_char c)
               (flat_map escape_char t) p Hm (escape_char_special c Hc)).
    apply IH. cbn [no_line_starts] in H.
    apply andb_true_iff in H. destruct H as [_ H].
    rewrite <- H. apply no_line_starts_prev. cbn [at_bol].
    unfold is_special in Hc. unfold is_line_terminator.
    destruct (N.eqb_spec c 38) as [->|?]; [reflexivity|].
    destruct (N.eqb_spec c 60) as [->|?]; [reflexivity|].
    destruct (N.eqb_spec c 62) as [->|?]; [reflexivity|].
    destruct (N.eqb_spec c 34) as [->|?]; [reflexivity|].
    destruct (N.eqb_spec c 39) as [->|?]; [reflexivity|discriminate].
  - pose proof (@startsWith_escape marks Hq (c :: t)) as S1.
    cbn [flat_map] in *. rewrite (escape_char_other c Hc) in *.
    change ([c] ++ flat_map escape_char t) with (c :: flat_map escape_char t)
      in *.
    cbn [no_line_starts] in *. rewrite S1.
    apply andb_true_iff in H. destruct H as [H1 H2].
    rewrite H1. exact (IH (Some c) H2).
Qed.

(** Escaping keeps a quiet text quiet. *)
Lemma quiet_escapeHtml (t : jsstring) :
  quiet t = true -> quiet (escapeHtml t) = true.
Proof.
  unfold quiet. intros H. rewrite escapeHtml_flat_map.
  apply andb_true_iff in H. destruct H as [H H4].
  apply andb_true_iff in H. destruct H as [H H3].
  apply andb_true_iff in H. destruct H as [H1 H2].
  apply negb_true_iff in H2, H3.
  rewrite (@lacks_escape backtick t eq_refl H1).
  pose proof (@includes_escape asterisk [asterisk] t eq_refl eq_refl H2) as I2.
  change (includes (flat_map escape_char t) (js "**") = false) in I2.
  rewrite I2, (@includes_escape newline [newline] t eq_refl eq_refl H3).
  cbn [negb andb].
  rewrite forallb_forall in H4. apply forallb_forall. intros marks Hm.
  exact (@no_line_starts_escape marks t Hm (Some tag_end) (H4 marks Hm)).
Qed.

End Escaping.

(** ** Each pass and a segment it cannot cut *)

Section PassesKeep.

Lemma inlineCode_keeps (S : jsstring) :
  S <> [] -> lacks backtick S = true ->
  forall s, includes s S = true -> includes (inlineCode s) S = true.
Proof.
  intros Hne Hl. unfold inlineCode. apply replace_keeps.
  - apply (@inside_nowhere inline_re [backtick] S begins_inline).
    exact (@nowhere_lacks backtick [] S [] Hl).
  - exact (@cross_inline S Hne Hl).
Qed.

Lemma inlineCode_prefix (E v : jsstring) :
  lacks backtick E = true -> exists v', inlineCode (E ++ v) = E ++ v'.
Proof.
  intros Hl. unfold inlineCode. apply replace_keeps_prefix.
  apply (@inside_nowhere inline_re [backtick] E begins_inline).
  exact (@nowhere_lacks backtick [] E [] Hl).
Qed.

Lemma bold_keeps (S : jsstring) :
  S <> [] -> nowhere (js "**") S [] ->
  match S with [] => True | c :: _ => char_eqb asterisk c = false end ->
  forall s, includes s S = true -> includes (bold s) S = true.
Proof.
  intros Hne Hn Hh. unfold bold. apply replace_keeps.
  - exact (@inside_nowhere bold_re (js "**") S begins_bold Hn).
  - exact (@cross_bold S Hne Hn Hh).
Qed.

Lemma bold_prefix (E v : jsstring) :
  nowhere (js "**") E [] -> exists v', bold (E ++ v) = E ++ v'.
Proof.
  intros Hn. unfold bold. apply replace_keeps_prefix.
  exact (@inside_nowhere bold_re (js "**") E begins_bold Hn).
Qed.

Lemma listWrap_keeps (E : jsstring) :
  match E with
  | [] => False
  | c :: _ =>
      is_space c = false /\ (lacks c (js "/li>") = true \/ lacks 62 E = true)
  end ->
  nowhere (js "<li") E [] -> nowhere (js "</li>") E [] ->
  forall s, includes s E = true -> includes (listWrap s) E = true.
Proof.
  intros Hh Hn Hc. unfold listWrap. apply replace_keeps.
  - exact (@inside_nowhere list_re (js "<li") E begins_list Hn).
  - exact (@cross_list E Hh Hc).
Qed.

Variable marks : jsstring.
Variable tpl : jsstring.
Variable element : jsstring -> jsstring.

Hypothesis marks_listed : In marks line_marks.
Hypothesis tpl_element : forall matched t,
  replacement_text (header_re marks) (Template tpl) matched [Some t] = element t.

Lemma marks_nonempty : marks <> [].
Proof. destruct marks_listed as [<-|[<-|[<-|[<-|[]]]]]; discriminate. Qed.

Lemma marks_one_line : forallb not_line_terminator marks = true.
Proof. destruct marks_listed as [<-|[<-|[<-|[<-|[]]]]]; reflexivity. Qed.

Lemma line_keeps_led (c0 : char) (E : jsstring) :
  is_line_terminator c0 = true ->
  (forall p, calm marks p (c0 :: E) []) ->
  forall s, includes s (c0 :: E) = true ->
    includes (replace s (header_re marks) (Template tpl)) (c0 :: E) = true.
Proof.
  intros H0 Hc. apply replace_keeps.
  - exact (@inside_calm marks (c0 :: E) Hc).
  - exact (@cross_line_led marks tpl element marks_nonempty marks_one_line
             tpl_element c0 E H0).
Qed.

Lemma line_prefix (E v : jsstring) :
  (forall p, calm marks p E []) ->
  exists v', replace (E ++ v) (header_re marks) (Template tpl) = E ++ v'.
Proof.
  intros Hc. apply replace_keeps_prefix. exact (@inside_calm marks E Hc).
Qed.

Lemma line_keeps_single (S : jsstring) :
  (forall t, includes t S = true -> includes (element t) S = true) ->
  S <> [] -> forallb not_line_terminator S = true ->
  match S with [] => True | c :: _ => lacks c marks = true end ->
  (forall p, calm marks p S []) ->
  forall s, includes s S = true ->
    includes (replace s (header_re marks) (Template tpl)) S = true.
Proof.
  intros He Hne Hl Hh Hc. apply replace_keeps.
  - exact (@inside_calm marks S Hc).
  - exact (@cross_line_single marks tpl element marks_nonempty marks_one_line
             tpl_element S He Hne Hl Hh).
Qed.

End PassesKeep.

(** ** The element of a fenced block *)

Section BlockElement.

Lemma word_lacks (k : char) (L : jsstring) :
  is_word k = false -> forallb is_word L = true -> lacks k L = true.
Proof.
  intros Hk HL. apply forallb_forall. intros x Hx.
  rewrite forallb_forall in HL. specialize (HL x Hx).
  apply negb_true_iff. unfold char_eqb. apply N.eqb_neq. intros ->. congruence.
Qed.

Lemma lacks_word (l : char) (q : jsstring) :
  is_word l = true -> forallb (fun x => negb (is_word x)) q = true ->
  lacks l q = true.
Proof.
  intros Hl Hq. apply forallb_forall. intros x Hx.
  rewrite forallb_forall in Hq. specialize (Hq x Hx).
  apply negb_true_iff in Hq.
  apply negb_true_iff. unfold char_eqb. apply N.eqb_neq. intros ->. congruence.
Qed.

Lemma five_nowhere (pat A1 L A2 c B : jsstring) :
  nowhere pat A1 (L ++ A2 ++ c ++ B) -> nowhere pat L (A2 ++ c ++ B) ->
  nowhere pat A2 (c ++ B) -> nowhere pat c B -> nowhere pat B [] ->
  nowhere pat (A1 ++ L ++ A2 ++ c ++ B) [].
Proof.
  intros H1 H2 H3 H4 H5.
  apply nowhere_app; [now rewrite app_nil_r|].
  apply nowhere_app; [now rewrite app_nil_r|].
  apply nowhere_app; [now rewrite app_nil_r|].
  apply nowhere_app; [now rewrite app_nil_r|exact H5].
Qed.

Lemma five_calm (marks : jsstring) (p : option char) (A1 L A2 c B : jsstring) :
  calm marks p A1 (L ++ A2 ++ c ++ B) ->
  (forall q, calm marks q L (A2 ++ c ++ B)) ->
  (forall q, calm marks q A2 (c ++ B)) ->
  (forall q, last_of q A2 = Some tag_end) ->
  calm marks (Some tag_end) c B ->
  (forall q, calm marks q B []) ->
  calm marks p (A1 ++ L ++ A2 ++ c ++ B) [].
Proof.
  intros H1 H2 H3 HA H4 H5.
  apply calm_app; [now rewrite app_nil_r|].
  apply calm_app; [rewrite app_nil_r; apply H2|].
  apply calm_app; [rewrite app_nil_r; apply H3|].
  rewrite HA.
  apply calm_app; [now rewrite app_nil_r|apply H5].
Qed.

Lemma quiet_parts (c : jsstring) :
  quiet c = true ->
  lacks backtick c = true /\ includes c (js "**") = false /\
  includes c [newline; newline] = false /\
  forall marks, In marks line_marks ->
    no_line_starts marks (Some tag_end) c = true.
Proof.
  unfold quiet. intros H.
  apply andb_true_iff in H. destruct H as [H H4].
  apply andb_true_iff in H. destruct H as [H H3].
  apply andb_true_iff in H. destruct H as [H1 H2].
  apply negb_true_iff in H2, H3.
  rewrite forallb_forall in H4. auto.
Qed.

Lemma lang_or_default_word (tag : jsstring) :
  forallb is_word tag = true ->
  exists l0 L', lang_or_default (lang_of tag) = l0 :: L' /\
    is_word l0 = true /\ forallb is_word L' = true.
Proof.
  intros H. destruct tag as [|t tag].
  - exists 116, (js "ypescript"). repeat split.
  - exists t, tag. cbn [forallb] in H. apply andb_true_iff in H.
    destruct H as [H1 H2]. repeat split; assumption.
Qed.

(** The element in five parts: up to the class, the language, the end of
    the opening tag, the escaped text, the closing tags. *)
Lemma code_block_parts (lang : option jsstring) (body : jsstring) :
  code_block lang body =
    (pre_open ++ dquote :: js "language-") ++ lang_or_default lang ++
    (dquote :: js ">") ++ escapeHtml (trim body) ++ pre_close.
Proof.
  unfold code_block, quoted. rewrite <- !app_assoc. cbn [app].
  rewrite <- !app_assoc. reflexivity.
Qed.

Variable tag : jsstring.
Variable body : jsstring.

Hypothesis tag_word : forallb is_word tag = true.
Hypothesis body_quiet : quiet (trim body) = true.

Lemma block_lacks_backtick :
  lacks backtick (code_block (lang_of tag) body) = true.
Proof.
  destruct (@lang_or_default_word tag tag_word) as (l0 & L' & EL & Hl & HL).
  destruct (@quiet_parts _ (@quiet_escapeHtml _ body_quiet)) as (Q1 & _).
  rewrite code_block_parts, EL, !lacks_app, Q1.
  rewrite (@word_lacks backtick (l0 :: L') eq_refl)
    by (cbn [forallb]; now rewrite Hl, HL).
  reflexivity.
Qed.

Lemma block_head :
  match code_block (lang_of tag) body with
  | [] => False
  | c :: _ =>
      is_space c = false /\
      (lacks c (js "/li>") = true \/
       lacks 62 (code_block (lang_of tag) body) = true)
  end.
Proof.
  unfold code_block, pre_open. cbn [js app]. split; [|left]; reflexivity.
Qed.

Lemma escaped_lacks_lt (t : jsstring) : lacks 60 (escapeHtml t) = true.
Proof.
  pose proof (escapeHtml_no_markup t) as H.
  apply forallb_forall. intros x Hx. rewrite forallb_forall in H.
  specialize (H x Hx). apply negb_true_iff in H.
  apply negb_true_iff. unfold char_eqb. apply N.eqb_neq. intros ->.
  discriminate H.
Qed.

(** The patterns of the bold, list and paragraph passes start nowhere
    in the element. *)
Lemma block_nowhere (pat : jsstring) :
  In pat [js "**"; [newline; newline]; js "<li"; js "</li>"] ->
  nowhere pat (code_block (lang_of tag) body) [].
Proof.
  intros Hp.
  destruct (@lang_or_default_word tag tag_word) as (l0 & L' & EL & Hl & HL).
  destruct (@quiet_parts _ (@quiet_escapeHtml _ body_quiet)) as (_ & Q2 & Q3 & _).
  assert (HW : forallb is_word (l0 :: L') = true)
    by (cbn [forallb]; now rewrite Hl, HL).
  rewrite code_block_parts, EL.
  apply five_nowhere.
  - apply clear_nowhere.
    destruct Hp as [<-|[<-|[<-|[<-|[]]]]]; vm_compute; reflexivity.
  - destruct Hp as [<-|[<-|[<-|[<-|[]]]]].
    + exact (@nowhere_lacks 42 [42] _ _ (@word_lacks 42 _ eq_refl HW)).
    + exact (@nowhere_lacks 10 [10] _ _ (@word_lacks 10 _ eq_refl HW)).
    + exact (@nowhere_lacks 60 (js "li") _ _ (@word_lacks 60 _ eq_refl HW)).
    + exact (@nowhere_lacks 60 (js "/li>") _ _ (@word_lacks 60 _ eq_refl HW)).
  - apply clear_nowhere.
    destruct Hp as [<-|[<-|[<-|[<-|[]]]]]; vm_compute; reflexivity.
  - destruct Hp as [<-|[<-|[<-|[<-|[]]]]].
    + exact (@nowhere_text (js "**") _ 60 (js "/code></pre>") Q2 eq_refl).
    + exact (@nowhere_text [newline; newline] _ 60 (js "/code></pre>") Q3
               eq_refl).
    + exact (@nowhere_lacks 60 (js "li") _ _ (escaped_lacks_lt (trim body))).
    + exact (@nowhere_lacks 60 (js "/li>") _ _ (escaped_lacks_lt (trim body))).
  - apply clear_nowhere.
    destruct Hp as [<-|[<-|[<-|[<-|[]]]]]; vm_compute; reflexivity.
Qed.

(** No line with one of the four marks starts in the element. *)
Lemma block_calm (marks : jsstring) (p : option char) :
  In marks line_marks ->
  calm marks p (code_block (lang_of tag) body) [].
Proof.
  intros Hm.
  destruct (@lang_or_default_word tag tag_word) as (l0 & L' & EL & Hl & HL).
  destruct (@quiet_parts _ (@quiet_escapeHtml _ body_quiet)) as (_ & _ & _ & Q4).
  assert (HW : forallb is_word (l0 :: L') = true)
    by (cbn [forallb]; now rewrite Hl, HL).
  rewrite code_block_parts, EL.
  apply five_calm.
  - apply calm_nowhere.
    change ((l0 :: L') ++ (dquote :: js ">") ++ escapeHtml (trim body) ++ pre_close)
      with (l0 :: L' ++ (dquote :: js ">") ++ escapeHtml (trim body) ++ pre_close).
    apply nowhere_text.
    + destruct Hm as [<-|[<-|[<-|[<-|[]]]]]; vm_compute; reflexivity.
    + apply (@lacks_word l0 _ Hl).
      destruct Hm as [<-|[<-|[<-|[<-|[]]]]]; reflexivity.
  - intros q. apply calm_nowhere.
    destruct Hm as [<-|[<-|[<-|[<-|[]]]]].
    + exact (@nowhere_lacks 35 (js "## ") _ _ (@word_lacks 35 _ eq_refl HW)).
    + exact (@nowhere_lacks 35 (js "# ") _ _ (@word_lacks 35 _ eq_refl HW)).
    + exact (@nowhere_lacks 35 (js " ") _ _ (@word_lacks 35 _ eq_refl HW)).
    + exact (@nowhere_lacks 45 (js " ") _ _ (@word_lacks 45 _ eq_refl HW)).
  - intros q. apply calm_nowhere, clear_nowhere.
    destruct Hm as [<-|[<-|[<-|[<-|[]]]]]; vm_compute; reflexivity.
  - intros q. reflexivity.
  - apply (@calm_text marks (Some tag_end) _ 60 (js "/code></pre>") (Q4 marks Hm)).
    destruct Hm as [<-|[<-|[<-|[<-|[]]]]]; reflexivity.
  - intros q. apply calm_nowhere, clear_nowhere.
    destruct Hm as [<-|[<-|[<-|[<-|[]]]]]; vm_compute; reflexivity.
Qed.

End BlockElement.

(** ** The element of a block through the later passes *)

Section BlockChain.

Lemma at_bol_last (u : jsstring) :
  at_bol (last_of None u) = true ->
  u = [] \/ exists u' c0, u = u' ++ [c0] /\ is_line_terminator c0 = true.
Proof.
  unfold last_of. intros H. destruct (rev u) as [|c r] eqn:E.
  - left. apply (f_equal (@rev char)) in E. now rewrite rev_involutive in E.
  - right. exists (rev r), c. split; [|exact H].
    apply (f_equal (@rev char)) in E. now rewrite rev_involutive in E.
Qed.

Lemma includes_tail (s : jsstring) (c : char) (E : jsstring) :
  includes s (c :: E) = true -> includes s E = true.
Proof.
  intros H. destruct (includes_decompose _ _ H) as (a & b & ->).
  change (a ++ (c :: E) ++ b) with (a ++ [c] ++ E ++ b).
  rewrite app_assoc. apply includes_middle.
Qed.

Lemma terminator_lacks (k c0 : char) :
  is_line_terminator c0 = true -> is_line_terminator k = false ->
  lacks k [c0] = true.
Proof.
  intros H0 Hk. unfold lacks. cbn [forallb]. rewrite andb_true_r.
  apply negb_true_iff. unfold char_eqb. apply N.eqb_neq. intros ->. congruence.
Qed.

Variable tag : jsstring.
Variable body : jsstring.

Hypothesis tag_word : forallb is_word tag = true.
Hypothesis body_quiet : quiet (trim body) = true.

Lemma block_space :
  exists c E', code_block (lang_of tag) body = c :: E' /\ is_space c = false.
Proof. do 2 eexists. split; [unfold code_block, pre_open; reflexivity|reflexivity]. Qed.

Lemma block_nonempty : code_block (lang_of tag) body <> [].
Proof. destruct block_space as (c & E' & -> & _). discriminate. Qed.

(** The last two passes. *)
Lemma block_kept_end (s : jsstring) :
  includes s (code_block (lang_of tag) body) = true ->
  includes (paragraphs (listWrap s)) (code_block (lang_of tag) body) = true.
Proof.
  intros H. apply (@paragraphs_keeps _ block_space).
  - apply (@block_nowhere tag body tag_word body_quiet). simpl. tauto.
  - apply (@listWrap_keeps (code_block (lang_of tag) body) (@block_head tag body)).
    + apply (@block_nowhere tag body tag_word body_quiet). simpl. tauto.
    + apply (@block_nowhere tag body tag_word body_quiet). simpl. tauto.
    + exact H.
Qed.

(** The element at the start of the text. *)
Lemma block_kept_first (v : jsstring) :
  includes (afterCodeBlocks (code_block (lang_of tag) body ++ v))
    (code_block (lang_of tag) body) = true.
Proof.
  unfold afterCodeBlocks, lists, headers.
  destruct (@inlineCode_prefix _ v (@block_lacks_backtick tag body tag_word body_quiet))
    as (v1 & ->).
  unfold header3.
  destruct (@line_prefix (js "### ") h3_template _ v1
              (fun p => @block_calm tag body tag_word body_quiet (js "### ") p
                          ltac:(simpl; tauto))) as (v2 & ->).
  unfold header2.
  destruct (@line_prefix (js "## ") h2_template _ v2
              (fun p => @block_calm tag body tag_word body_quiet (js "## ") p
                          ltac:(simpl; tauto))) as (v3 & ->).
  unfold header1.
  destruct (@line_prefix (js "# ") h1_template _ v3
              (fun p => @block_calm tag body tag_word body_quiet (js "# ") p
                          ltac:(simpl; tauto))) as (v4 & ->).
  destruct (@bold_prefix _ v4
              (@block_nowhere tag body tag_word body_quiet (js "**")
                 ltac:(simpl; tauto))) as (v5 & ->).
  unfold listItems. change item_re with (header_re (js "- ")).
  destruct (@line_prefix (js "- ") item_template _ v5
              (fun p => @block_calm tag body tag_word body_quiet (js "- ") p
                          ltac:(simpl; tauto))) as (v6 & ->).
  apply block_kept_end.
  exact (@includes_middle [] (code_block (lang_of tag) body) v6).
Qed.

(** The element after a line terminator. *)
Lemma block_kept_led (u : jsstring) (c0 : char) (v : jsstring) :
  is_line_terminator c0 = true ->
  includes (afterCodeBlocks (u ++ c0 :: code_block (lang_of tag) body ++ v))
    (code_block (lang_of tag) body) = true.
Proof.
  intros H0.
  assert (Hc : forall marks, In marks line_marks ->
            forall p, calm marks p (c0 :: code_block (lang_of tag) body) []).
  { intros marks Hm p.
    change (c0 :: code_block (lang_of tag) body)
      with ([c0] ++ code_block (lang_of tag) body).
    apply calm_app.
    - apply calm_nowhere.
      destruct Hm as [<-|[<-|[<-|[<-|[]]]]].
      + exact (@nowhere_lacks 35 (js "## ") _ _ (@terminator_lacks 35 c0 H0 eq_refl)).
      + exact (@nowhere_lacks 35 (js "# ") _ _ (@terminator_lacks 35 c0 H0 eq_refl)).
      + exact (@nowhere_lacks 35 (js " ") _ _ (@terminator_lacks 35 c0 H0 eq_refl)).
      + exact (@nowhere_lacks 45 (js " ") _ _ (@terminator_lacks 45 c0 H0 eq_refl)).
    - exact (@block_calm tag body tag_word body_quiet marks _ Hm). }
  assert (Hb : lacks backtick (c0 :: code_block (lang_of tag) body) = true).
  { change (c0 :: code_block (lang_of tag) body)
      with ([c0] ++ code_block (lang_of tag) body).
    rewrite lacks_app, (@terminator_lacks backtick c0 H0 eq_refl).
    exact (@block_lacks_backtick tag body tag_word body_quiet). }
  assert (Hn : nowhere (js "**") (c0 :: code_block (lang_of tag) body) []).
  { change (c0 :: code_block (lang_of tag) body)
      with ([c0] ++ code_block (lang_of tag) body).
    apply nowhere_app.
    - exact (@nowhere_lacks 42 [42] _ _ (@terminator_lacks 42 c0 H0 eq_refl)).
    - apply (@block_nowhere tag body tag_word body_quiet). simpl. tauto. }
  assert (Ha : char_eqb asterisk c0 = false).
  { unfold char_eqb. apply N.eqb_neq. intros <-. discriminate H0. }
  assert (Hne : c0 :: code_block (lang_of tag) body <> []) by discriminate.
  unfold afterCodeBlocks, lists, headers.
  apply block_kept_end.
  apply (@includes_tail _ c0).
  unfold listItems. change item_re with (header_re (js "- ")).
  apply (@line_keeps_led (js "- ") item_template li_of ltac:(simpl; tauto)
           item_template_text c0 _ H0 (Hc (js "- ") ltac:(simpl; tauto))).
  apply (@bold_keeps _ Hne Hn Ha).
  unfold header1.
  apply (@line_keeps_led (js "# ") h1_template h1_of ltac:(simpl; tauto)
           h1_template_text c0 _ H0 (Hc (js "# ") ltac:(simpl; tauto))).
  unfold header2.
  apply (@line_keeps_led (js "## ") h2_template h2_of ltac:(simpl; tauto)
           h2_template_text c0 _ H0 (Hc (js "## ") ltac:(simpl; tauto))).
  unfold header3.
  apply (@line_keeps_led (js "### ") h3_template h3_of ltac:(simpl; tauto)
           h3_template_text c0 _ H0 (Hc (js "### ") ltac:(simpl; tauto))).
  apply (@inlineCode_keeps _ Hne Hb).
  exact (@includes_middle u (c0 :: code_block (lang_of tag) body) v).
Qed.

(** The element that starts a line of the text after the first pass is
    in the output. *)
Lemma parseMarkdown_keeps_block (s u v : jsstring) :
  codeBlocks s = u ++ code_block (lang_of tag) body ++ v ->
  at_bol (last_of None u) = true ->
  includes (parseMarkdown s) (code_block (lang_of tag) body) = true.
Proof.
  intros E Hu. destruct s as [|c s].
  - exfalso. change (codeBlocks []) with (@nil char) in E.
    destruct u; [|discriminate].
    destruct block_space as (c & E' & EE & _). rewrite EE in E. discriminate E.
  - unfold parseMarkdown. rewrite E.
    destruct (at_bol_last u Hu) as [->|(u' & c0 & -> & H0)].
    + apply block_kept_first.
    + rewrite <- app_assoc. exact (@block_kept_led u' c0 v H0).
Qed.

End BlockChain.

(** ** The first match of a global replacement *)

Section FirstMatch.

Variable r : regex.
Variable rep : replacement.

(** Either the pattern matches at no position of the text, or there is a
    first position at which it does. *)
Lemma first_match (s : jsstring) :
  forall p,
    (forall a b, s = a ++ b -> match_at r (last_of p a) b = None) \/
    exists pre m post y,
      s = pre ++ m ++ post /\
      (forall a b, pre = a ++ b -> b <> [] ->
         match_at r (last_of p a) (b ++ m ++ post) = None) /\
      match_at r (last_of p pre) (m ++ post) = Some y /\ rest y = post.
Proof.
  induction s as [|c s IH]; intros p.
  - destruct (match_at r p []) as [y|] eqn:M.
    + right. destruct (@match_at_sound _ _ _ _ M) as (m & E & _).
      symmetry in E. apply app_eq_nil in E. destruct E as [-> E].
      exists [], [], [], y. repeat split; try assumption.
      intros a b Ea Hb. symmetry in Ea. apply app_eq_nil in Ea.
      destruct Ea as [_ ->]. congruence.
    + left. intros a b E. symmetry in E. apply app_eq_nil in E.
      destruct E as [-> ->]. exact M.
  - destruct (match_at r p (c :: s)) as [y|] eqn:M.
    + right. destruct (@match_at_sound _ _ _ _ M) as (m & E & _).
      exists [], m, (rest y), y. repeat split.
      * exact E.
      * intros a b Ea Hb. symmetry in Ea. apply app_eq_nil in Ea.
        destruct Ea as [_ ->]. congruence.
      * rewrite last_of_nil, <- E. exact M.
    + destruct (IH (Some c)) as [Hn|(pre & m & post & y & E & Hpre & Hm & Hr)].
      * left. intros a b E. destruct a as [|a0 a].
        -- simpl in E. subst b. exact M.
        -- injection E as <- E. rewrite last_of_cons. exact (Hn a b E).
      * right. exists (c :: pre), m, post, y. repeat split.
        -- simpl. now rewrite E.
        -- intros a b Ea Hb. destruct a as [|a0 a].
           ++ simpl in Ea. subst b. rewrite last_of_nil.
              change ((c :: pre) ++ m ++ post) with (c :: pre ++ m ++ post).
              rewrite <- E. exact M.
           ++ injection Ea as <- Ea. rewrite last_of_cons. exact (Hpre a b Ea Hb).
        -- rewrite last_of_cons. exact Hm.
        -- exact Hr.
Qed.

(** The text before the first match is copied, the match is replaced,
    and the replacement goes on after the match. *)
Lemma replace_go_first (pre m post : jsstring) (y : mstate) :
  m <> [] ->
  forall p,
    (forall a b, pre = a ++ b -> b <> [] ->
       match_at r (last_of p a) (b ++ m ++ post) = None) ->
    match_at r (last_of p pre) (m ++ post) = Some y -> rest y = post ->
    replace_go r rep p 0 (pre ++ m ++ post) =
      pre ++ replacement_text r rep m (caps y) ++
      replace_go r rep (last_of p (pre ++ m)) 0 post.
Proof.
  intros Hm. induction pre as [|c pre IH]; intros p Hpre M Hr.
  - rewrite last_of_nil in M. simpl app.
    exact (@replace_go_match r rep p m post y Hm M Hr).
  - change ((c :: pre) ++ m ++ post) with (c :: pre ++ m ++ post).
    rewrite (@replace_go_copy r rep p c (pre ++ m ++ post)
               (Hpre [] (c :: pre) eq_refl ltac:(discriminate))).
    rewrite (IH (Some c)).
    + change ((c :: pre) ++ m) with (c :: pre ++ m). rewrite last_of_cons.
      reflexivity.
    + intros a b Ea Hb.
      pose proof (Hpre (c :: a) b ltac:(simpl; now rewrite Ea) Hb) as H.
      rewrite last_of_cons in H. exact H.
    + rewrite last_of_cons in M. exact M.
    + exact Hr.
Qed.

End FirstMatch.

(** ** The first two passes on any text *)

Section FirstPasses.

Lemma opens_block_match (p : option char) (s : jsstring) :
  match_at fence_re p s = None <-> ~ opens_block s.
Proof.
  split.
  - intros M (tag & body & post & Ht & Hb & ->).
    rewrite (@match_at_fence p tag body post Ht Hb) in M. discriminate.
  - intros H. destruct (match_at fence_re p s) as [y|] eqn:M; [|reflexivity].
    exfalso. apply H.
    destruct (@match_at_fence_inv _ _ _ M) as (tag & body & Ht & Hb & E & _).
    exists tag, body, (rest y). auto.
Qed.

Lemma opens_span_match (p : option char) (s : jsstring) :
  match_at inline_re p s = None <-> ~ opens_span s.
Proof.
  split.
  - intros M (body & post & Hne & Hb & ->).
    rewrite (@match_at_inline p body post Hne Hb) in M. discriminate.
  - intros H. destruct (match_at inline_re p s) as [y|] eqn:M; [|reflexivity].
    exfalso. apply H.
    destruct (@match_at_inline_inv _ _ _ M) as (body & Hne & Hb & E & _).
    exists body, (rest y). auto.
Qed.

(** The first pass: nothing to replace, or a first block, replaced by
    its element, after which the pass goes on. *)
Lemma codeBlocks_cases (s : jsstring) :
  (codeBlocks s = s /\ forall a b, s = a ++ b -> ~ opens_block b) \/
  exists pre tag body post,
    s = pre ++ fenced tag body ++ post /\
    forallb is_word tag = true /\ closes_first body = true /\
    (forall a b, pre = a ++ b -> b <> [] ->
       ~ opens_block (b ++ fenced tag body ++ post)) /\
    codeBlocks s = pre ++ code_block (lang_of tag) body ++ codeBlocks post.
Proof.
  destruct (@first_match fence_re s None)
    as [Hn|(pre & m & post & y & E & Hpre & M & Hr)].
  - left. split.
    + unfold codeBlocks, replace. apply replace_go_id. exact Hn.
    + intros a b Ea. apply (@opens_block_match (last_of None a)). exact (Hn a b Ea).
  - right.
    destruct (@match_at_fence_inv _ _ _ M) as (tag & body & Ht & Hb & Em & Hc).
    rewrite Hr in Em. apply app_inv_tail in Em. subst m.
    exists pre, tag, body, post. repeat split; try assumption.
    + intros a b Ea Hne. apply (@opens_block_match (last_of None a)).
      exact (Hpre a b Ea Hne).
    + rewrite E. unfold codeBlocks, replace.
      rewrite (@replace_go_first fence_re (Callback fence_callback) pre
                 (fenced tag body) post y (@fenced_nonempty tag body) None
                 Hpre M Hr).
      rewrite Hc.
      rewrite (@replace_go_prev fence_re (Callback fence_callback) post
                 eq_refl 0%nat _ None).
      reflexivity.
Qed.

(** The second pass: nothing to replace, or a first span, replaced by
    its element, after which the pass goes on. *)
Lemma inlineCode_cases (s : jsstring) :
  (inlineCode s = s /\ forall a b, s = a ++ b -> ~ opens_span b) \/
  exists pre body post,
    s = pre ++ backtick :: body ++ backtick :: post /\
    body <> [] /\ lacks backtick body = true /\
    (forall a b, pre = a ++ b -> b <> [] ->
       ~ opens_span (b ++ backtick :: body ++ backtick :: post)) /\
    inlineCode s = pre ++ inline_element body ++ inlineCode post.
Proof.
  destruct (@first_match inline_re s None)
    as [Hn|(pre & m & post & y & E & Hpre & M & Hr)].
  - left. split.
    + unfold inlineCode, replace. apply replace_go_id. exact Hn.
    + intros a b Ea. apply (@opens_span_match (last_of None a)). exact (Hn a b Ea).
  - right.
    destruct (@match_at_inline_inv _ _ _ M) as (body & Hne & Hb & Em & Hc).
    rewrite Hr in Em.
    assert (Em' : m = backtick :: body ++ [backtick]).
    { apply (app_inv_tail post). rewrite Em. simpl. now rewrite <- app_assoc. }
    subst m.
    exists pre, body, post. repeat split; try assumption.
    + rewrite E. simpl. now rewrite <- app_assoc.
    + intros a b Ea Hne'. apply (@opens_span_match (last_of None a)).
      pose proof (Hpre a b Ea Hne') as H.
      simpl in H. rewrite <- app_assoc in H. exact H.
    + rewrite E. unfold inlineCode, replace.
      rewrite (@replace_go_first inline_re (Template inline_template) pre
                 (backtick :: body ++ [backtick]) post y ltac:(discriminate)
                 None Hpre M Hr).
      rewrite Hc, inline_template_text.
      rewrite (@replace_go_prev inline_re (Template inline_template) post
                 eq_refl 0%nat _ None).
      unfold inline_element. rewrite <- !app_assoc. reflexivity.
Qed.

End FirstPasses.

(** ** The element of an inline span through the later passes *)

Section SpanChain.

(** A text of one line that does not start with a code unit of [marks]
    holds no start of a line with [marks]. *)
Lemma calm_one_line (marks X Y : jsstring) :
  marks <> [] -> forallb not_line_terminator X = true ->
  match X with [] => True | x :: _ => lacks x marks = true end ->
  forall p, calm marks p X Y.
Proof.
  intros Hm Hl Hh p e1 e2 v E Hne.
  destruct e1 as [|a e1].
  - right. simpl in E. subst e2. destruct X as [|x X]; [congruence|].
    destruct marks as [|k marks]; [congruence|].
    exact (@startsWith_head k x _ marks (@lacks_head x k marks Hh)).
  - left. rewrite last_of_cons.
    rewrite E in Hl. rewrite forallb_app in Hl.
    apply andb_true_iff in Hl. destruct Hl as [Hl _].
    cbn [forallb] in Hl. apply andb_true_iff in Hl. destruct Hl as [Ha Hl].
    apply negb_true_iff in Ha.
    destruct (@last_of_not_terminator e1 a Hl Ha) as (x & -> & Hx). exact Hx.
Qed.

Lemma three_nowhere (pat A c B : jsstring) :
  nowhere pat A (c ++ B) -> nowhere pat c B -> nowhere pat B [] ->
  nowhere pat (A ++ c ++ B) [].
Proof.
  intros H1 H2 H3.
  apply nowhere_app; [now rewrite app_nil_r|].
  apply nowhere_app; [now rewrite app_nil_r|exact H3].
Qed.

Variable body : jsstring.

Hypothesis body_quiet : quiet_span body = true.

Lemma quiet_span_parts :
  forallb not_line_terminator body = true /\
  includes body (js "**") = false /\ includes body (js "<li") = false /\
  includes body (js "</li>") = false.
Proof.
  pose proof body_quiet as H. unfold quiet_span in H.
  apply andb_true_iff in H. destruct H as [H H4].
  apply andb_true_iff in H. destruct H as [H H3].
  apply andb_true_iff in H. destruct H as [H1 H2].
  apply negb_true_iff in H2, H3, H4. auto.
Qed.

Lemma span_one_line : forallb not_line_terminator (inline_element body) = true.
Proof.
  destruct quiet_span_parts as (H1 & _).
  unfold inline_element. rewrite !forallb_app, H1. reflexivity.
Qed.

Lemma span_nowhere (pat : jsstring) :
  In pat [js "**"; [newline; newline]; js "<li"; js "</li>"] ->
  nowhere pat (inline_element body) [].
Proof.
  intros Hp. destruct quiet_span_parts as (H1 & H2 & H3 & H4).
  unfold inline_element. apply three_nowhere.
  - apply clear_nowhere.
    destruct Hp as [<-|[<-|[<-|[<-|[]]]]]; vm_compute; reflexivity.
  - destruct Hp as [<-|[<-|[<-|[<-|[]]]]].
    + exact (@nowhere_text (js "**") _ 60 (js "/code>") H2 eq_refl).
    + exact (@nowhere_lacks 10 [10] _ _ (@no_terminator_lacks_newline body H1)).
    + exact (@nowhere_text (js "<li") _ 60 (js "/code>") H3 eq_refl).
    + exact (@nowhere_text (js "</li>") _ 60 (js "/code>") H4 eq_refl).
  - apply clear_nowhere.
    destruct Hp as [<-|[<-|[<-|[<-|[]]]]]; vm_compute; reflexivity.
Qed.

Lemma span_calm (marks : jsstring) :
  In marks line_marks -> forall p, calm marks p (inline_element body) [].
Proof.
  intros Hm. apply calm_one_line.
  - destruct Hm as [<-|[<-|[<-|[<-|[]]]]]; discriminate.
  - exact span_one_line.
  - unfold inline_element, inline_open. cbn [js app].
    destruct Hm as [<-|[<-|[<-|[<-|[]]]]]; reflexivity.
Qed.

Lemma span_head_marks (marks : jsstring) :
  In marks line_marks ->
  match inline_element body with [] => True | c :: _ => lacks c marks = true end.
Proof.
  intros Hm. unfold inline_element, inline_open. cbn [js app].
  destruct Hm as [<-|[<-|[<-|[<-|[]]]]]; reflexivity.
Qed.

Lemma span_line_keeps (marks tpl : jsstring) (element : jsstring -> jsstring) :
  In marks line_marks ->
  (forall matched t,
     replacement_text (header_re marks) (Template tpl) matched [Some t]
       = element t) ->
  (forall t, includes t (inline_element body) = true ->
             includes (element t) (inline_element body) = true) ->
  forall s, includes s (inline_element body) = true ->
    includes (replace s (header_re marks) (Template tpl)) (inline_element body)
      = true.
Proof.
  intros Hm Ht He.
  apply (@line_keeps_single marks tpl element Hm Ht (inline_element body) He).
  - unfold inline_element, inline_open. discriminate.
  - exact span_one_line.
  - exact (span_head_marks Hm).
  - exact (span_calm Hm).
Qed.

(** The element of a span that the second pass has written is in the
    output. *)
Lemma afterInline_keeps_span (s : jsstring) :
  includes s (inline_element body) = true ->
  includes (paragraphs (lists (bold (headers s)))) (inline_element body) = true.
Proof.
  intros H.
  apply paragraphs_keeps.
  - do 2 eexists. split; [unfold inline_element, inline_open; reflexivity|].
    reflexivity.
  - apply span_nowhere. simpl. tauto.
  - unfold lists. apply listWrap_keeps.
    + unfold inline_element, inline_open. cbn [js app].
      split; [|left]; reflexivity.
    + apply span_nowhere. simpl. tauto.
    + apply span_nowhere. simpl. tauto.
    + unfold listItems. change item_re with (header_re (js "- ")).
      apply (@span_line_keeps (js "- ") item_template li_of
               ltac:(simpl; tauto) item_template_text).
      { intros t Ht. unfold li_of.
        apply includes_app_r, includes_app_r, includes_app_r, includes_app_l, Ht. }
      apply bold_keeps.
      * unfold inline_element, inline_open. discriminate.
      * apply span_nowhere. simpl. tauto.
      * reflexivity.
      * unfold headers, header1, header2, header3.
        apply (@span_line_keeps (js "# ") h1_template h1_of
                 ltac:(simpl; tauto) h1_template_text).
        { intros t Ht. unfold h1_of.
          apply includes_app_r, includes_app_r, includes_app_r, includes_app_l, Ht. }
        apply (@span_line_keeps (js "## ") h2_template h2_of
                 ltac:(simpl; tauto) h2_template_text).
        { intros t Ht. unfold h2_of.
          apply includes_app_r, includes_app_r, includes_app_r, includes_app_r,
            includes_app_r, includes_app_l, Ht. }
        apply (@span_line_keeps (js "### ") h3_template h3_of
                 ltac:(simpl; tauto) h3_template_text).
        { intros t Ht. unfold h3_of.
          apply includes_app_r, includes_app_r, includes_app_r, includes_app_r,
            includes_app_r, includes_app_l, Ht. }
        exact H.
Qed.

Lemma parseMarkdown_keeps_span (s u v : jsstring) :
  inlineCode (codeBlocks s) = u ++ inline_element body ++ v ->
  includes (parseMarkdown s) (inline_element body) = true.
Proof.
  intros E. destruct s as [|c s].
  - exfalso. change (inlineCode (codeBlocks [])) with (@nil char) in E.
    destruct u; discriminate E.
  - unfold parseMarkdown, afterCodeBlocks. apply afterInline_keeps_span.
    rewrite E. apply includes_middle.
Qed.

End SpanChain.

(** ** The first block and the first span of a text *)

Section FirstBlock.

Lemma codeBlocks_first (pre tag body post : jsstring) :
  forallb is_word tag = true -> closes_first body = true ->
  (forall a b, pre = a ++ b -> b <> [] ->
     ~ opens_block (b ++ fenced tag body ++ post)) ->
  codeBlocks (pre ++ fenced tag body ++ post) =
    pre ++ code_block (lang_of tag) body ++ codeBlocks post.
Proof.
  intros Ht Hb Hpre. unfold codeBlocks, replace.
  rewrite (@replace_go_first fence_re (Callback fence_callback) pre
             (fenced tag body) post
             (MState (Some backtick) post [lang_of tag; Some body])
             (@fenced_nonempty tag body) None).
  - rewrite (@replace_go_prev fence_re (Callback fence_callback) post
               eq_refl 0%nat _ None).
    reflexivity.
  - intros a b Ea Hne.
    apply (proj2 (@opens_block_match (last_of None a) _)).
    exact (Hpre a b Ea Hne).
  - exact (@match_at_fence (last_of None pre) tag body post Ht Hb).
  - reflexivity.
Qed.

Lemma inlineCode_first (pre body post : jsstring) :
  body <> [] -> lacks backtick body = true ->
  (forall a b, pre = a ++ b -> b <> [] ->
     ~ opens_span (b ++ backtick :: body ++ backtick :: post)) ->
  inlineCode (pre ++ backtick :: body ++ backtick :: post) =
    pre ++ inline_element body ++ inlineCode post.
Proof.
  intros Hne Hb Hpre. unfold inlineCode, replace.
  assert (E : backtick :: body ++ backtick :: post =
              (backtick :: body ++ [backtick]) ++ post)
    by (simpl; now rewrite <- app_assoc).
  rewrite E.
  rewrite (@replace_go_first inline_re (Template inline_template) pre
             (backtick :: body ++ [backtick]) post
             (MState (Some backtick) post [Some body])
             ltac:(discriminate) None).
  - rewrite (@replace_go_prev inline_re (Template inline_template) post
               eq_refl 0%nat _ None).
    cbn [caps]. rewrite inline_template_text.
    unfold inline_element. rewrite <- !app_assoc. reflexivity.
  - intros a b Ea Hne'.
    apply (proj2 (@opens_span_match (last_of None a) _)).
    rewrite <- E. exact (Hpre a b Ea Hne').
  - rewrite <- E. exact (@match_at_inline (last_of None pre) body post Hne Hb).
  - reflexivity.
Qed.

(** A block or a span opens with a backtick. *)
Lemma opens_block_backtick (s : jsstring) :
  opens_block s -> exists s', s = backtick :: s'.
Proof. intros (tag & body & post & _ & _ & ->). eexists. reflexivity. Qed.

Lemma opens_span_backtick (s : jsstring) :
  opens_span s -> exists s', s = backtick :: s'.
Proof. intros (body & post & _ & _ & ->). eexists. reflexivity. Qed.

End FirstBlock.

(** ** Pieces of text that every later pass keeps *)

Section SolidText.

Variable T : jsstring.

Hypothesis T_solid : solid T = true.

Lemma solid_parts :
  exists c T',
    T = c :: T' /\ is_space c = false /\ c <> 35 /\ c <> 45 /\
    forallb not_line_terminator T = true /\
    lacks backtick T = true /\ lacks asterisk T = true /\
    lacks 60 T = true /\ lacks 62 T = true.
Proof.
  pose proof T_solid as H. unfold solid in H.
  apply andb_true_iff in H. destruct H as [H H6].
  apply andb_true_iff in H. destruct H as [H H5].
  apply andb_true_iff in H. destruct H as [H H4].
  apply andb_true_iff in H. destruct H as [H H3].
  apply andb_true_iff in H. destruct H as [H H2].
  destruct T as [|c T'] eqn:ET; [discriminate H|].
  apply andb_true_iff in H. destruct H as [H Hc].
  apply andb_true_iff in H. destruct H as [Ha Hb].
  apply negb_true_iff in Ha, Hb, Hc.
  apply N.eqb_neq in Hb, Hc.
  exists c, T'. repeat split; assumption.
Qed.

Lemma solid_nonempty : T <> [].
Proof. destruct solid_parts as (c & T' & -> & _). discriminate. Qed.

Lemma solid_head_marks (marks : jsstring) :
  In marks line_marks ->
  match T with [] => True | c :: _ => lacks c marks = true end.
Proof.
  intros Hm.
  destruct solid_parts as (c & T' & -> & Hs & H35 & H45 & _).
  assert (H32 : c <> 32) by (intros ->; discriminate Hs).
  apply forallb_forall. intros x Hx. apply negb_true_iff.
  unfold char_eqb. apply N.eqb_neq. intros ->.
  destruct Hm as [<-|[<-|[<-|[<-|[]]]]]; simpl in Hx;
    intuition congruence.
Qed.

Lemma solid_line_keeps (marks tpl : jsstring) (element : jsstring -> jsstring) :
  In marks line_marks ->
  (forall matched t,
     replacement_text (header_re marks) (Template tpl) matched [Some t]
       = element t) ->
  (forall t, includes t T = true -> includes (element t) T = true) ->
  forall s, includes s T = true ->
    includes (replace s (header_re marks) (Template tpl)) T = true.
Proof.
  intros Hm Ht He.
  destruct solid_parts as (c & T' & ET & _ & _ & _ & Hl & _).
  apply (@line_keeps_single marks tpl element Hm Ht T He solid_nonempty Hl
           (solid_head_marks Hm)).
  apply calm_one_line.
  - destruct Hm as [<-|[<-|[<-|[<-|[]]]]]; discriminate.
  - exact Hl.
  - exact (solid_head_marks Hm).
Qed.

(** The passes after the first keep a solid piece of the text. *)
Lemma afterCodeBlocks_keeps_solid (s : jsstring) :
  includes s T = true -> includes (afterCodeBlocks s) T = true.
Proof.
  intros H.
  destruct solid_parts as (c & T' & ET & Hs & H35 & H45 & Hl & Hb & Ha & Hlt & Hgt).
  unfold afterCodeBlocks.
  apply paragraphs_keeps.
  - exists c, T'. split; assumption.
  - exact (@nowhere_lacks 10 [10] T [] (@no_terminator_lacks_newline T Hl)).
  - unfold lists. apply listWrap_keeps.
    + rewrite ET. rewrite ET in Hgt. split; [exact Hs | right; exact Hgt].
    + exact (@nowhere_lacks 60 (js "li") T [] Hlt).
    + exact (@nowhere_lacks 60 (js "/li>") T [] Hlt).
    + unfold listItems. change item_re with (header_re (js "- ")).
      apply (@solid_line_keeps (js "- ") item_template li_of
               ltac:(simpl; tauto) item_template_text).
      { intros t Ht. unfold li_of.
        apply includes_app_r, includes_app_r, includes_app_r, includes_app_l, Ht. }
      apply bold_keeps.
      * exact solid_nonempty.
      * exact (@nowhere_lacks 42 [42] T [] Ha).
      * rewrite ET. rewrite ET in Ha.
        pose proof (@lacks_In 42 (c :: T') c Ha (or_introl eq_refl)) as F.
        exact F.
      * unfold headers, header1, header2, header3.
        apply (@solid_line_keeps (js "# ") h1_template h1_of
                 ltac:(simpl; tauto) h1_template_text).
        { intros t Ht. unfold h1_of.
          apply includes_app_r, includes_app_r, includes_app_r, includes_app_l, Ht. }
        apply (@solid_line_keeps (js "## ") h2_template h2_of
                 ltac:(simpl; tauto) h2_template_text).
        { intros t Ht. unfold h2_of.
          apply includes_app_r, includes_app_r, includes_app_r, includes_app_r,
            includes_app_r, includes_app_l, Ht. }
        apply (@solid_line_keeps (js "### ") h3_template h3_of
                 ltac:(simpl; tauto) h3_template_text).
        { intros t Ht. unfold h3_of.
          apply includes_app_r, includes_app_r, includes_app_r, includes_app_r,
            includes_app_r, includes_app_l, Ht. }
        apply (@inlineCode_keeps T solid_nonempty Hb). exact H.
Qed.

Lemma parseMarkdown_keeps_solid (s : jsstring) :
  includes (codeBlocks s) T = true -> includes (parseMarkdown s) T = true.
Proof.
  intros H. destruct s as [|c s].
  - exfalso. change (codeBlocks []) with (@nil char) in H.
    destruct solid_parts as (c & T' & ET & _). rewrite ET in H. discriminate H.
  - unfold parseMarkdown. exact (@afterCodeBlocks_keeps_solid _ H).
Qed.

End SolidText.

(** ** Fenced blocks and inline spans in any document *)

(** C10, as amended.  The first pass replaces every block it matches
    (three backticks, a tag of word characters or none, a line feed, the
    enclosed text up to the next three backticks) by an element around
    the escaped form of the trimmed text: either no position of the
    input opens such a block and the pass changes nothing, or the first
    block is replaced and the pass goes on after it.  Trimming removes
    exactly the white space at the two ends, so the element of a text
    between white space is the element of that text alone.  The element
    is in the output of [parseMarkdown] when it starts a line and the
    later passes find nothing to rewrite in the trimmed text. *)
Theorem fenced_code_is_trimmed :
  (forall s,
     (codeBlocks s = s /\ forall a b, s = a ++ b -> ~ opens_block b) \/
     exists pre tag body post,
       s = pre ++ fenced tag body ++ post /\
       forallb is_word tag = true /\ closes_first body = true /\
       (forall a b, pre = a ++ b -> b <> [] ->
          ~ opens_block (b ++ fenced tag body ++ post)) /\
       codeBlocks s =
         pre ++
         (pre_open ++ quoted (js "language-" ++ lang_or_default (lang_of tag)) ++
          js ">" ++ escapeHtml (trim body) ++ pre_close) ++
         codeBlocks post) /\
  (forall p s, match_at fence_re p s = None <-> ~ opens_block s) /\
  (forall body,
     exists ws1 ws2,
       body = ws1 ++ trim body ++ ws2 /\
       forallb is_space ws1 = true /\ forallb is_space ws2 = true /\
       starts_black (rev (trim body)) /\
       (trim body <> [] -> starts_black (trim body))) /\
  (forall ws1 core ws2,
     forallb is_space ws1 = true -> forallb is_space ws2 = true ->
     starts_black core -> starts_black (rev core) ->
     trim (ws1 ++ core ++ ws2) = core /\
     forall lang,
       code_block lang (ws1 ++ core ++ ws2) =
         pre_open ++ quoted (js "language-" ++ lang_or_default lang) ++
         js ">" ++ escapeHtml core ++ pre_close) /\
  (forall pre tag body post,
     forallb is_word tag = true -> closes_first body = true ->
     (forall a b, pre = a ++ b -> b <> [] ->
        ~ opens_block (b ++ fenced tag body ++ post)) ->
     at_bol (last_of None pre) = true -> quiet (trim body) = true ->
     includes (parseMarkdown (pre ++ fenced tag body ++ post))
       (pre_open ++ quoted (js "language-" ++ lang_or_default (lang_of tag)) ++
        js ">" ++ escapeHtml (trim body) ++ pre_close) = true) /\
  (forall s u tag body v,
     codeBlocks s = u ++ code_block (lang_of tag) body ++ v ->
     forallb is_word tag = true ->
     at_bol (last_of None u) = true ->
     quiet (trim body) = true ->
     includes (parseMarkdown s)
       (pre_open ++ quoted (js "language-" ++ lang_or_default (lang_of tag)) ++
        js ">" ++ escapeHtml (trim body) ++ pre_close) = true).
Proof.
  split; [exact codeBlocks_cases|].
  split; [exact opens_block_match|].
  split; [exact trim_decompose|].
  split; [|split].
  - intros ws1 core ws2 H1 H2 H3 H4.
    pose proof (@trim_strips ws1 core ws2 H1 H2 H3 H4) as E.
    split; [exact E|]. intros lang. unfold code_block. now rewrite E.
  - intros pre tag body post Ht Hb Hpre Hu Hq.
    exact (@parseMarkdown_keeps_block tag body Ht Hq _ pre (codeBlocks post)
             (@codeBlocks_first pre tag body post Ht Hb Hpre) Hu).
  - intros s u tag body v E Ht Hu Hq.
    exact (@parseMarkdown_keeps_block tag body Ht Hq s u v E Hu).
Qed.

Lemma fenced_code_is_trimmed_witness :
  includes
    (parseMarkdown
       (lines ["Intro"; "```ts"; ""; "   x < y  "; ""; "```"; "Outro"]))
    (pre_open ++ quoted (js "language-ts") ++ js ">x &lt; y</code></pre>")
  = true.
Proof.
  apply (proj2 (proj2 (proj2 (proj2 (proj2 fenced_code_is_trimmed))))
           (lines ["Intro"; "```ts"; ""; "   x < y  "; ""; "```"; "Outro"])
           (lines ["Intro"; ""]) (js "ts") (lines [""; "   x < y  "; ""; ""])
           (lines [""; "Outro"])).
  - vm_compute; reflexivity.
  - reflexivity.
  - reflexivity.
  - vm_compute; reflexivity.
Defined.

(** A block tagged [c++]: the tag is not made of word characters, the
    first pass does not match, and the text between the innermost
    backticks reaches the output with its white space, in the element of
    an inline span; no [pre] element is written.

    A block between blank lines with a comment line: the first pass
    writes the element around the trimmed text, and the header pass
    rewrites the comment in it, so that the output does not hold the
    element around the trimmed text. *)
Lemma fenced_code_untrimmed :
  parseMarkdown (lines ["```c++"; "   x   "; "```"]) =
    div_element
      (js "``" ++ inline_open ++ lines ["c++"; "   x   "; ""] ++ js "</code>``") /\
  includes (parseMarkdown (lines ["```c++"; "   x   "; "```"])) (js "   x   ")
    = true /\
  includes (parseMarkdown (lines ["```c++"; "   x   "; "```"])) (js "<pre")
    = false /\
  codeBlocks (lines ["```"; ""; "  a"; "# b"; ""; "```"]) =
    pre_open ++ quoted (js "language-typescript") ++ js ">" ++
    lines ["a"; "# b"] ++ pre_close /\
  parseMarkdown (lines ["```"; ""; "  a"; "# b"; ""; "```"]) =
    pre_open ++ quoted (js "language-typescript") ++ js ">" ++
    join [newline] [js "a"; h1_of (js "b</code></pre>")] /\
  includes (parseMarkdown (lines ["```"; ""; "  a"; "# b"; ""; "```"]))
    (pre_open ++ quoted (js "language-typescript") ++ js ">" ++
     lines ["a"; "# b"] ++ pre_close) = false.
Proof. repeat split; vm_compute; reflexivity. Qed.

(** C2, as amended.  The first pass replaces every block it matches
    (three backticks, a tag of word characters or none, a line feed, the
    enclosed text up to the next three backticks) by a [pre]/[code]
    element of class [language-] followed by the tag, or by [typescript]
    without a tag, around the escaped form of the trimmed text, in which
    each of the five characters is replaced by its entity and no angle
    bracket or quote is left.  The later passes run over the result.  The
    element is in the output of [parseMarkdown] when it starts a line and
    the trimmed text is quiet: no backtick, no two asterisks in a row, no
    blank line, and after its first line no line that starts with [# ],
    [## ], [### ] or [- ].  Whatever the block and the text around it,
    the later passes keep every solid piece of the escaped text: the
    escaped form of [<script>alert(1)</script>] is in the output for
    every block that holds it, and inside the element of a quiet block
    that starts a line. *)
Theorem fenced_code_is_escaped :
  (forall s,
     (codeBlocks s = s /\ forall a b, s = a ++ b -> ~ opens_block b) \/
     exists pre tag body post,
       s = pre ++ fenced tag body ++ post /\
       forallb is_word tag = true /\ closes_first body = true /\
       (forall a b, pre = a ++ b -> b <> [] ->
          ~ opens_block (b ++ fenced tag body ++ post)) /\
       codeBlocks s =
         pre ++
         (pre_open ++ quoted (js "language-" ++ lang_or_default (lang_of tag)) ++
          js ">" ++ escapeHtml (trim body) ++ pre_close) ++
         codeBlocks post) /\
  (forall p s, match_at fence_re p s = None <-> ~ opens_block s) /\
  (forall pre tag body post,
     forallb is_word tag = true -> closes_first body = true ->
     (forall a b, pre = a ++ b -> b <> [] ->
        ~ opens_block (b ++ fenced tag body ++ post)) ->
     codeBlocks (pre ++ fenced tag body ++ post) =
       pre ++
       (pre_open ++ quoted (js "language-" ++ lang_or_default (lang_of tag)) ++
        js ">" ++ escapeHtml (trim body) ++ pre_close) ++
       codeBlocks post /\
     (at_bol (last_of None pre) = true -> quiet (trim body) = true ->
      includes (parseMarkdown (pre ++ fenced tag body ++ post))
        (pre_open ++ quoted (js "language-" ++ lang_or_default (lang_of tag)) ++
         js ">" ++ escapeHtml (trim body) ++ pre_close) = true)) /\
  lang_or_default (lang_of []) = js "typescript" /\
  (forall t tag, lang_or_default (lang_of (t :: tag)) = t :: tag) /\
  (forall text, escapeHtml text = flat_map escape_char text /\
     forallb (fun c => negb (is_markup c)) (escapeHtml text) = true) /\
  (escapeHtml (js "&") = js "&amp;" /\ escapeHtml (js "<") = js "&lt;" /\
   escapeHtml (js ">") = js "&gt;" /\ escapeHtml [dquote] = js "&quot;" /\
   escapeHtml (js "'") = js "&#039;") /\
  (forall c, (c =? 38) || is_markup c = false -> escapeHtml [c] = [c]) /\
  (forall s u tag body v,
     codeBlocks s = u ++ code_block (lang_of tag) body ++ v ->
     forallb is_word tag = true ->
     at_bol (last_of None u) = true ->
     quiet (trim body) = true ->
     includes (parseMarkdown s)
       (pre_open ++ quoted (js "language-" ++ lang_or_default (lang_of tag)) ++
        js ">" ++ escapeHtml (trim body) ++ pre_close) = true /\
     forall before after,
       trim body = before ++ js "<script>alert(1)</script>" ++ after ->
       includes (parseMarkdown s)
         (pre_open ++ quoted (js "language-" ++ lang_or_default (lang_of tag)) ++
          js ">" ++ escapeHtml before ++
          js "&lt;script&gt;alert(1)&lt;/script&gt;" ++ escapeHtml after ++
          pre_close) = true /\
       lacks 60 (escapeHtml before ++
                 js "&lt;script&gt;alert(1)&lt;/script&gt;" ++ escapeHtml after)
         = true) /\
  (forall s piece,
     solid piece = true -> includes (codeBlocks s) piece = true ->
     includes (parseMarkdown s) piece = true) /\
  (forall s u lang body v before after,
     codeBlocks s = u ++ code_block lang body ++ v ->
     trim body = before ++ js "<script>alert(1)</script>" ++ after ->
     includes (parseMarkdown s) (js "&lt;script&gt;alert(1)&lt;/script&gt;")
       = true) /\
  parseMarkdown (lines ["```"; "<script>alert(1)</script>"; "```"]) =
    pre_open ++ quoted (js "language-typescript") ++
    js ">&lt;script&gt;alert(1)&lt;/script&gt;</code></pre>" /\
  includes (parseMarkdown (lines ["```"; "<script>alert(1)</script>"; "```"]))
    (js "<script") = false /\
  includes
    (parseMarkdown
       (lines ["# Notes"; ""; "Some **text** here."; ""; "```html";
               "<script>alert(1)</script>"; "```"; ""; "- item"]))
    (js "<script") = false.
Proof.
  split; [exact codeBlocks_cases|].
  split; [exact opens_block_match|].
  split.
  { intros pre tag body post Ht Hb Hpre.
    pose proof (@codeBlocks_first pre tag body post Ht Hb Hpre) as E.
    split; [exact E|]. intros Hu Hq.
    exact (@parseMarkdown_keeps_block tag body Ht Hq _ pre (codeBlocks post)
             E Hu). }
  split; [reflexivity|]. split; [reflexivity|].
  split; [intros text; split;
            [apply escapeHtml_flat_map | apply escapeHtml_no_markup]|].
  split; [exact escapeHtml_table|].
  split; [intros c Hc; rewrite escapeHtml_flat_map; simpl;
          rewrite (escape_char_plain c Hc); reflexivity|].
  split.
  { intros s u tag body v E Ht Hu Hq.
    pose proof (@parseMarkdown_keeps_block tag body Ht Hq s u v E Hu) as H.
    split; [exact H|]. intros before after Hs.
    unfold code_block in H. rewrite Hs, !escapeHtml_app in H.
    rewrite <- !app_assoc in H. split; [exact H|].
    pose proof (escaped_lacks_lt (before ++ js "<script>alert(1)</script>" ++ after))
      as L.
    rewrite !escapeHtml_app in L. exact L. }
  split.
  { intros s piece Hp H. exact (@parseMarkdown_keeps_solid piece Hp s H). }
  split.
  { intros s u lang body v before after E Hs.
    apply (@parseMarkdown_keeps_solid
             (js "&lt;script&gt;alert(1)&lt;/script&gt;") eq_refl).
    rewrite E. unfold code_block. rewrite Hs, !escapeHtml_app.
    apply includes_app_r, includes_app_l.
    apply includes_app_r, includes_app_r, includes_app_r, includes_app_l.
    apply includes_app_r, includes_app_l.
    exact (@includes_middle [] (js "&lt;script&gt;alert(1)&lt;/script&gt;") []). }
  repeat split; vm_compute; reflexivity.
Qed.

Lemma fenced_code_is_escaped_witness :
  includes
    (parseMarkdown
       (lines ["# Notes"; ""; "Some **text** here."; ""; "```html";
               "<script>alert(1)</script>"; "```"; ""; "- item"]))
    (pre_open ++ quoted (js "language-html") ++
     js ">&lt;script&gt;alert(1)&lt;/script&gt;</code></pre>") = true.
Proof.
  assert (E : codeBlocks
                (lines ["# Notes"; ""; "Some **text** here."; ""; "```html";
                        "<script>alert(1)</script>"; "```"; ""; "- item"]) =
              lines ["# Notes"; ""; "Some **text** here."; ""; ""] ++
              code_block (lang_of (js "html"))
                (lines ["<script>alert(1)</script>"; ""]) ++
              lines [""; ""; "- item"])
    by (vm_compute; reflexivity).
  exact (proj1 (proj2 (proj1 (proj2 (proj2 (proj2 (proj2 (proj2 (proj2 (proj2
           (proj2 fenced_code_is_escaped))))))))
           (lines ["# Notes"; ""; "Some **text** here."; ""; "```html";
                   "<script>alert(1)</script>"; "```"; ""; "- item"])
           (lines ["# Notes"; ""; "Some **text** here."; ""; ""])
           (js "html") (lines ["<script>alert(1)</script>"; ""])
           (lines [""; ""; "- item"])
           E eq_refl eq_refl eq_refl) [] [] eq_refl)).
Defined.

(** Two blocks on which the output is not the escaped, wrapped text.

    A block of shell commands with a comment line, as the posts of the
    site have them: the header pass rewrites the comment inside the
    element of the first pass, and the output holds an [h1] element in
    the middle of the code.

    A block tagged [c++]: the tag is not made of word characters, the
    pattern of the first pass does not match, the pass for inline code
    takes the text between the innermost backticks, and the output holds
    the [script] element as written. *)
Lemma fenced_code_counterexamples :
  parseMarkdown
    (lines ["```bash"; "npm install"; "# Update project"; "ng update"; "```"]) =
    pre_open ++ quoted (js "language-bash") ++ js ">" ++
    join [newline]
      [js "npm install"; h1_element "Update project"; js "ng update</code></pre>"] /\
  includes
    (parseMarkdown
       (lines ["```bash"; "npm install"; "# Update project"; "ng update"; "```"]))
    (pre_open ++ quoted (js "language-bash") ++ js ">" ++
     escapeHtml (lines ["npm install"; "# Update project"; "ng update"]) ++
     pre_close) = false /\
  parseMarkdown (lines ["```c++"; "<script>alert(1)</script>"; "```"]) =
    js "<div class=" ++ quoted (js "mb-4 leading-relaxed") ++ js ">``" ++
    inline_open ++ lines ["c++"; "<script>alert(1)</script>"; ""] ++
    js "</code>``</div>" /\
  includes (parseMarkdown (lines ["```c++"; "<script>alert(1)</script>"; "```"]))
    (js "<script>alert(1)</script>") = true /\
  includes (parseMarkdown (lines ["```c++"; "<script>alert(1)</script>"; "```"]))
    (js "<pre") = false.
Proof. repeat split; vm_compute; reflexivity. Qed.

(** Blocks in which a later pass finds something to rewrite, and a block
    that does not start a line: the element of the first pass is not in
    the output.  An inline span, a bold span, a paragraph, a list item
    or a header is written into it.  One backtick or one pair of
    asterisks in the block is enough when the text after the block holds
    another. *)
Lemma fenced_code_rewritten :
  includes (parseMarkdown (lines ["```"; "a `b` c"; "```"]))
    (code_block None (js "a `b` c")) = false /\
  includes (parseMarkdown (lines ["```"; "a ` c"; "```"; "and ` here"]))
    (code_block None (js "a ` c")) = false /\
  includes (parseMarkdown (lines ["```"; "a **b** c"; "```"]))
    (code_block None (js "a **b** c")) = false /\
  includes (parseMarkdown (lines ["```"; "a ** c"; "```"; "and ** here"]))
    (code_block None (js "a ** c")) = false /\
  includes (parseMarkdown (lines ["```"; "a"; ""; "b"; "```"]))
    (code_block None (lines ["a"; ""; "b"])) = false /\
  includes (parseMarkdown (lines ["```"; "a"; "- b"; "```"]))
    (code_block None (lines ["a"; "- b"])) = false /\
  includes (parseMarkdown (lines ["# T ```"; "a"; "b"; "```"]))
    (code_block None (lines ["a"; "b"])) = false.
Proof. repeat split; vm_compute; reflexivity. Qed.

(** C5, as amended.  The second pass replaces every span it matches (a
    backtick, one or more code units other than a backtick, a backtick)
    by a [code] element around the text of the span as it is: either no
    position of the text opens a span and the pass changes nothing, or
    the first span is replaced and the pass goes on after it.  Nothing is
    escaped, where the first pass escapes the text of a fenced block.
    The later passes run over the element; it is in the output of
    [parseMarkdown] when the text of the span is on one line and holds
    neither two asterisks in a row nor the start or the end of a list
    item.  So [parseMarkdown] emits the [<] and [&] of an inline span
    unescaped. *)
Theorem inline_code_not_escaped :
  (forall s,
     (inlineCode s = s /\ forall a b, s = a ++ b -> ~ opens_span b) \/
     exists pre body post,
       s = pre ++ backtick :: body ++ backtick :: post /\
       body <> [] /\ lacks backtick body = true /\
       (forall a b, pre = a ++ b -> b <> [] ->
          ~ opens_span (b ++ backtick :: body ++ backtick :: post)) /\
       inlineCode s =
         pre ++ (inline_open ++ body ++ js "</code>") ++ inlineCode post) /\
  (forall p s, match_at inline_re p s = None <-> ~ opens_span s) /\
  (forall pre body post,
     body <> [] -> lacks backtick body = true ->
     (forall a b, pre = a ++ b -> b <> [] ->
        ~ opens_span (b ++ backtick :: body ++ backtick :: post)) ->
     codeBlocks (pre ++ backtick :: body ++ backtick :: post) =
       pre ++ backtick :: body ++ backtick :: post ->
     quiet_span body = true ->
     includes (parseMarkdown (pre ++ backtick :: body ++ backtick :: post))
       (inline_open ++ body ++ js "</code>") = true) /\
  (forall s u body v,
     inlineCode (codeBlocks s) = u ++ (inline_open ++ body ++ js "</code>") ++ v ->
     quiet_span body = true ->
     includes (parseMarkdown s) (inline_open ++ body ++ js "</code>") = true) /\
  parseMarkdown (js "`a<b&c`") = inline_open ++ js "a<b&c</code>" /\
  includes (parseMarkdown (js "`a<b&c`")) (js "a<b&c") = true /\
  parseMarkdown (lines ["```"; "a<b&c"; "```"]) =
    pre_open ++ quoted (js "language-typescript") ++
    js ">a&lt;b&amp;c</code></pre>".
Proof.
  split; [exact inlineCode_cases|].
  split; [exact opens_span_match|].
  split.
  { intros pre body post Hne Hb Hpre Hc Hq.
    apply (@parseMarkdown_keeps_span body Hq _ pre (inlineCode post)).
    rewrite Hc. exact (@inlineCode_first pre body post Hne Hb Hpre). }
  split.
  { intros s u body v E Hq.
    exact (@parseMarkdown_keeps_span body Hq s u v E). }
  repeat split; vm_compute; reflexivity.
Qed.

Lemma inline_code_not_escaped_witness :
  includes
    (parseMarkdown (lines ["Use `a<b&c` here"; "- and `x` too"]))
    (inline_open ++ js "a<b&c</code>") = true.
Proof.
  apply (proj1 (proj2 (proj2 (proj2 inline_code_not_escaped)))
           (lines ["Use `a<b&c` here"; "- and `x` too"])
           (js "Use ") (js "a<b&c")
           (js " here" ++ newline :: js "- and " ++ inline_open ++ js "x</code> too")).
  - vm_compute; reflexivity.
  - reflexivity.
Defined.

(** Spans whose text a later pass rewrites: the two asterisks of a span
    become a [strong] element, the list item of a span is wrapped in a
    [ul] element, and the second line of a span that starts in a header
    line is left outside the [h1] element.  The element around the text
    as written is not in the output.  The start or the end of a list
    item in the span is enough when the text around the span holds the
    other. *)
Lemma inline_code_rewritten :
  parseMarkdown (js "`**x**`") =
    inline_open ++ strong_of (js "x") ++ js "</code>" /\
  includes (parseMarkdown (js "`**x**`")) (js "**x**") = false /\
  parseMarkdown (js "`<li>a</li>`") =
    inline_open ++ ul_open ++ js "<li>a</li></ul></code>" /\
  includes (parseMarkdown (js "`<li>a</li>`"))
    (inline_open ++ js "<li>a</li></code>") = false /\
  parseMarkdown (lines ["# T `a"; "b`"]) =
    h1_of (js "T " ++ inline_open ++ js "a") ++ newline :: js "b</code>" /\
  includes (parseMarkdown (lines ["# T `a"; "b`"]))
    (inline_open ++ lines ["a"; "b"] ++ js "</code>") = false /\
  includes (parseMarkdown (js "`<li>` x</li>"))
    (inline_open ++ js "<li></code>") = false /\
  includes (parseMarkdown (js "<li>a `</li>` b"))
    (inline_open ++ js "</li></code>") = false.
Proof. repeat split; vm_compute; reflexivity. Qed.
